(** * hedge: element-local discretizations and the flux-lifting kernels

    A shallow embedding of [hedge/discretization/local.py] (reference
    elements, their nodes, index sets and matrices) and of the two CUDA
    kernel generators [src/python/cuda/fluxlocal.py] and
    [src/python/cuda/fluxlocal_alt.py].

    Conventions of the embedding:
    - Python [int] is [Z]; a tuple or list is a [list]; a [dict] is a [gmap].
    - A Python call that may raise is a value of [result]: [Ok v] when it
      returns [v], [Raise e] when the exception [e] escapes.
    - Floating-point numbers are kept behind the interface [FloatOps]: every
      [+], [*], [/], [abs], [>], [==] of the source on floats is the
      operation of the same name of the interface, and a literal is [lit q]
      for the rational [q] it denotes.  Nothing is assumed about the
      operations, so what is proved holds for IEEE doubles as well as for
      exact rationals; the instance [Q_ops] evaluates the definitions on
      concrete inputs.  A division whose divisor can be zero is [py_fdiv],
      which raises [ZeroDivisionError] as a Python float does.
    - The one float that is turned back into an integer, the quotient in
      [node_count], is computed as the IEEE double it is ([py_int_truediv]),
      with its rounding.
    - Functions of hedge, pytools and numpy that the files import but do not
      define are fields of the interface [HedgeLib], or are written out when
      their behaviour is fixed by the library documentation. *)

From Stdlib Require Import ZArith QArith Qabs Lia.
From stdpp Require Import base option list gmap strings pretty.

Open Scope Z_scope.

(** ** Exceptions and results *)

Inductive exn : Type :=
  | ZeroDivisionError
  | IndexError
  | KeyError
  | ValueError
  | TypeError
  | AssertionError
  | OverflowError
  | StopIteration
  | LinAlgError
  | FaceVertexMismatch (value : string).

Inductive result (A : Type) : Type :=
  | Ok (a : A)
  | Raise (e : exn).
Arguments Ok {A} a.
Arguments Raise {A} e.

#[global] Instance result_ret : MRet result := fun _ a => Ok a.
#[global] Instance result_bind : MBind result := fun _ _ f r =>
  match r with
  | Ok a => f a
  | Raise e => Raise e
  end.
#[global] Instance result_fmap : FMap result := fun _ _ f r =>
  match r with
  | Ok a => Ok (f a)
  | Raise e => Raise e
  end.

(** [assert c] *)
Definition py_assert (c : bool) : result unit :=
  if c then Ok tt else Raise AssertionError.

(** ** Python built-ins *)

(** [range(n)] *)
Definition py_range (n : Z) : list Z :=
  map Z.of_nat (seq 0 (Z.to_nat n)).

(** [range(start, stop, step)] for a positive [step]; [fuel] bounds the
    number of elements and is chosen at least [stop - start] by callers. *)
Fixpoint py_range_step (fuel : nat) (start stop step : Z) : list Z :=
  match fuel with
  | O => []
  | S fuel' =>
      if start <? stop
      then start :: py_range_step fuel' (start + step) stop step
      else []
  end.

(** [l[i]] on a list or tuple: a negative index counts from the end, an
    index outside [-len, len) raises [IndexError]. *)
Definition py_index {A} (l : list A) (i : Z) : result A :=
  let n := Z.of_nat (length l) in
  let j := if i <? 0 then i + n else i in
  if (j <? 0) || (n <=? j) then Raise IndexError
  else match l !! Z.to_nat j with
       | Some a => Ok a
       | None => Raise IndexError
       end.

(** [l[a:b]] for [0 <= a]. *)
Definition py_slice {A} (l : list A) (a b : Z) : list A :=
  take (Z.to_nat (b - a)) (drop (Z.to_nat a) l).

(** [reduce(f, l)] without an initial value: [TypeError] on an empty
    sequence. *)
Definition py_reduce {A} (f : A -> A -> A) (l : list A) : result A :=
  match l with
  | [] => Raise TypeError
  | x :: rest => Ok (fold_left f rest x)
  end.

(** [enumerate(l)] *)
Definition py_enumerate {A} (l : list A) : list (Z * A) :=
  imap (fun i a => (Z.of_nat i, a)) l.

(** [dict(pairs)]: a later pair overrides an earlier one with the same key. *)
Definition py_dict `{Countable K} {V} (pairs : list (K * V)) : gmap K V :=
  fold_left (fun m kv => <[kv.1 := kv.2]> m) pairs ∅.

(** [d[k]] on a dict: [KeyError] when [k] is absent. *)
Definition py_getitem `{Countable K} {V} (d : gmap K V) (k : K) : result V :=
  match d !! k with
  | Some v => Ok v
  | None => Raise KeyError
  end.

(** The integer nearest to [num / den] for [0 <= num] and [0 < den], the
    even one of the two when both are as near. *)
Definition round_half_even (num den : Z) : Z :=
  let q := num `div` den in
  let r := num `mod` den in
  if 2 * r <? den then q
  else if den <? 2 * r then q + 1
  else if Z.even q then q else q + 1.

(** The exponent [e] of the double nearest to [n / d] for [0 < n] and
    [0 < d], its 53-bit significand being an integer:
    [2^52 <= n / (d * 2^e) < 2^53]. *)
Definition quotient_exponent (n d : Z) : Z :=
  let k := Z.log2 n - Z.log2 d in
  let below :=
    if 0 <=? k then n <? d * 2 ^ k else n * 2 ^ (- k) <? d in
  (if below then k - 1 else k) - 52.

(** [int(a / b)] on two integers under [from __future__ import division].
    The quotient is a float: the double nearest to the exact quotient
    (half-way cases go to the even significand), as CPython computes
    [int / int]; [int] cuts its fraction.  A zero divisor raises
    [ZeroDivisionError], a quotient beyond the largest double
    [OverflowError].  A quotient below the normal range of doubles is less
    than 1 in either precision, so that [int] gives 0 for it. *)
Definition py_int_truediv (a b : Z) : result Z :=
  if decide (b = 0) then Raise ZeroDivisionError
  else if decide (a = 0) then Ok 0
  else
    let n := Z.abs a in
    let d := Z.abs b in
    let e := quotient_exponent n d in
    if 0 <=? e then
      let significand := round_half_even n (d * 2 ^ e) in
      if 2 ^ 1024 <=? significand * 2 ^ e then Raise OverflowError
      else Ok (Z.sgn a * Z.sgn b * (significand * 2 ^ e))
    else
      let significand := round_half_even (n * 2 ^ (- e)) d in
      Ok (Z.sgn a * Z.sgn b * (significand `div` 2 ^ (- e))).

(** ** Floating-point interface *)

Class FloatOps (F : Type) : Type := {
  lit : Q -> F;
  fadd : F -> F -> F;
  fsub : F -> F -> F;
  fmul : F -> F -> F;
  fdiv : F -> F -> F;
  fneg : F -> F;
  fabs : F -> F;
  fsqrt : F -> F;
  fgtb : F -> F -> bool;
  fltb : F -> F -> bool;
  feqb : F -> F -> bool;
}.

(** An [int] used where a float is expected. *)
Definition fint `{FloatOps F} (z : Z) : F := lit (inject_Z z).

(** [x ** 2] *)
Definition fsquare `{FloatOps F} (x : F) : F := fmul x x.

(** [a / b] on two Python floats where the divisor may be zero:
    [ZeroDivisionError] when [b == 0]. *)
Definition py_fdiv `{FloatOps F} (a b : F) : result F :=
  if feqb b (fint 0) then Raise ZeroDivisionError else Ok (fdiv a b).

(** [max(xs)] as Python computes it: the first element is kept until a
    strictly greater one is met; [ValueError] on an empty sequence. *)
Definition py_max `{FloatOps F} (xs : list F) : result F :=
  match xs with
  | [] => Raise ValueError
  | x :: rest => Ok (fold_left (fun m y => if fgtb y m then y else m) rest x)
  end.

(** [sum(xs)], which starts from the integer [0]. *)
Definition py_sum `{FloatOps F} (xs : list F) : F :=
  fold_left fadd xs (fint 0).

(** The square root of a non-negative rational, rounded down to twenty
    decimal places; used only by the rational instance below. *)
Definition Qsqrt (a : Q) : Q :=
  Qred (Z.sqrt (Qnum a * 10 ^ 40 / Z.pos (Qden a)) # 10 ^ 20).

(** Exact rational arithmetic as an instance of the interface; results are
    kept in lowest terms, and the square root is the rounded one above. *)
#[global] Instance Q_ops : FloatOps Q := {
  lit q := Qred q;
  fadd a b := Qred (a + b);
  fsub a b := Qred (a - b);
  fmul a b := Qred (a * b);
  fdiv a b := Qred (a / b);
  fneg a := Qred (- a);
  fabs a := Qred (Qabs a);
  fsqrt := Qsqrt;
  fgtb a b := negb (Qle_bool a b);
  fltb a b := negb (Qle_bool b a);
  feqb a b := Qeq_bool a b;
}.

(** ** numpy arrays

    A one-dimensional array is a list of floats, a two-dimensional array a
    list of rows. *)

Definition vadd `{FloatOps F} (a b : list F) : list F := zip_with fadd a b.
Definition vsub `{FloatOps F} (a b : list F) : list F := zip_with fsub a b.
Definition vscale `{FloatOps F} (c : F) (a : list F) : list F := map (fmul c) a.
Definition vdiv `{FloatOps F} (a : list F) (c : F) : list F :=
  map (fun x => fdiv x c) a.

(** [numpy.linspace(start, stop, num)] *)
Definition linspace `{FloatOps F} (start stop : F) (num : Z) : list F :=
  let step := fdiv (fsub stop start) (fint (num - 1)) in
  map (fun i => fadd start (fmul (fint i) step)) (py_range num).

Definition nrows {F} (m : list (list F)) : nat := length m.
Definition ncols {F} (m : list (list F)) : nat :=
  match m with
  | [] => O
  | r :: _ => length r
  end.

(** [numpy.zeros((h, w))] *)
Definition zeros `{FloatOps F} (h w : nat) : list (list F) :=
  replicate h (replicate w (fint 0)).

(** Column [j] of a matrix with [w] columns, and the transpose [m.T]. *)
Definition column {F} (m : list (list F)) (j : nat) : list F :=
  omap (fun r => r !! j) m.
Definition transpose {F} (m : list (list F)) : list (list F) :=
  map (fun j => column m j) (seq 0 (ncols m)).

Definition dot_row_col `{FloatOps F} (r c : list F) : F :=
  fold_left fadd (zip_with fmul r c) (fint 0).

(** [numpy.dot(a, b)] on two-dimensional arrays: [ValueError] unless the
    number of columns of [a] is the number of rows of [b]. *)
Definition dot `{FloatOps F} (a b : list (list F)) : result (list (list F)) :=
  if decide (ncols a = nrows b)
  then Ok (map (fun r => map (fun j => dot_row_col r (column b j))
                             (seq 0 (ncols b))) a)
  else Raise ValueError.

(** [numpy.vstack(n * (m,))] *)
Definition vstack_copies {F} (n : nat) (m : list (list F)) : list (list F) :=
  concat (replicate n m).

(** [numpy.hstack((m, numpy.zeros((rows, extra))))] *)
Definition hstack_zeros `{FloatOps F} (m : list (list F)) (extra : nat)
  : list (list F) :=
  map (fun r => r ++ replicate extra (fint 0)) m.

(** ** Imported library functions

    Functions of hedge ([hedge.quadrature], [hedge.interpolation],
    [hedge.tools], [hedge.polynomial], [hedge._internal]) and of
    [numpy.linalg] that the module calls and that are defined elsewhere. *)

Class HedgeLib (F : Type) : Type := {
  legendre_gauss_lobatto_points : Z -> list F;
  newton_interpolation_function : list F -> list F -> F -> F;
  normalize : list F -> list F;
  (** [AffineMap(matrix, vector)(x)] *)
  affine_map_call : list (list F) -> list F -> list F -> list F;
  (** [VectorLegendreFunction(n)(x)] *)
  vector_legendre_function : Z -> list F -> F;
  triangle_basis_function : Z -> Z -> list F -> F;
  tetrahedron_basis_function : Z -> Z -> Z -> list F -> F;
  generic_vandermonde : list (list F) -> list (list F -> F) -> list (list F);
  la_inv : list (list F) -> result (list (list F));
  identify_affine_map :
    list (list F) -> list (list F) -> result (list F -> list F);
  find_index_map_from_node_sets :
    list (list F) -> list (list F) -> result (list Z);
}.

(** ** pytools *)

(** [factorial(n)] *)
Fixpoint factorial (n : nat) : Z :=
  match n with
  | O => 1
  | S n' => Z.of_nat n * factorial n'
  end.

(** [generate_nonnegative_integer_tuples_summing_to_at_most(n, length)]:
    the first entry varies fastest, the last one slowest. *)
Fixpoint generate_nonnegative_integer_tuples_summing_to_at_most
  (n : Z) (length : nat) : list (list Z) :=
  match length with
  | O => [[]]
  | S length' =>
      flat_map
        (fun i =>
           map (fun base => base ++ [i])
             (generate_nonnegative_integer_tuples_summing_to_at_most
                (n - i) length'))
        (py_range (n + 1))
  end.

(** [wandering_element(length, wanderer, landscape=0)] *)
Definition wandering_element {A} (length : nat) (wanderer landscape : A)
  : list (list A) :=
  map (fun i => replicate i landscape ++ [wanderer]
                ++ replicate (length - 1 - i) landscape)
      (seq 0 length).

(** [generate_unique_permutations(t)] for a tuple of distinct entries. *)
Definition generate_unique_permutations {A} (t : list A) : list (list A) :=
  permutations t.

(** ** Reference-element geometry *)

(** The geometry classes of [hedge.mesh.element] that [GEOMETRY_TO_LDIS]
    names. *)
Inductive geometry : Type :=
  | Interval
  | Triangle
  | CurvedTriangle
  | Tetrahedron
  | CurvedTetrahedron.

(** Modelled from the spec: [hedge.mesh.element] is not among the sources.
    [face_vertices] lists the faces in the order the class docstrings of the
    discretizations give: the two ends of the interval, AB, BC, AC for the
    triangle and ABC, ABD, ACD, BCD for the tetrahedron. *)
Definition face_vertices {A} (g : geometry) (v : list A)
  : result (list (list A)) :=
  let pick := mapM (mapM (py_index v)) in
  match g with
  | Interval => pick [[0]; [1]]
  | Triangle | CurvedTriangle => pick [[0; 1]; [1; 2]; [0; 2]]
  | Tetrahedron | CurvedTetrahedron =>
      pick [[0; 1; 2]; [0; 1; 3]; [0; 2; 3]; [1; 2; 3]]
  end.

(** ** Coordinate maps of the three elements *)

(** [IntervalDiscretization.barycentric_to_equilateral] *)
Definition interval_barycentric_to_equilateral `{FloatOps F} (bary : list F)
  : result (list F) :=
  match bary with
  | [lambda1; lambda2] => Ok [fsub (fmul (fint 2) lambda1) (fint 1)]
  | _ => Raise ValueError
  end.

(** [TriangleDiscretization.barycentric_to_equilateral] *)
Definition triangle_barycentric_to_equilateral `{FloatOps F} (bary : list F)
  : result (list F) :=
  match bary with
  | [lambda1; lambda2; lambda3] =>
      Ok [ fadd (fneg lambda1) lambda2;
           fdiv (fadd (fsub (fneg lambda1) lambda2)
                      (fmul (fint 2) lambda3))
                (fsqrt (lit 3)) ]
  | _ => Raise ValueError
  end.

(** [TetrahedronDiscretization.barycentric_to_equilateral] *)
Definition tetrahedron_barycentric_to_equilateral `{FloatOps F}
  (bary : list F) : result (list F) :=
  match bary with
  | [lambda1; lambda2; lambda3; lambda4] =>
      Ok [ fadd (fneg lambda1) lambda2;
           fdiv (fadd (fsub (fneg lambda1) lambda2)
                      (fmul (fint 2) lambda3))
                (fsqrt (lit 3));
           fdiv (fadd (fsub (fsub (fneg lambda1) lambda2) lambda3)
                      (fmul (fint 3) lambda4))
                (fsqrt (lit 6)) ]
  | _ => Raise ValueError
  end.

(** The class attributes [equilateral_to_unit], each an [AffineMap]. *)
Definition interval_equilateral_to_unit `{FloatOps F, HedgeLib F}
  : list F -> list F :=
  affine_map_call [[fint 1]] [fint 0].

Definition triangle_equilateral_to_unit `{FloatOps F, HedgeLib F}
  : list F -> list F :=
  affine_map_call
    [ [fint 1; fdiv (fint (-1)) (fsqrt (fint 3))];
      [fint 0; fdiv (fint 2) (fsqrt (fint 3))] ]
    [ fdiv (fint (-1)) (fint 3); fdiv (fint (-1)) (fint 3) ].

Definition tetrahedron_equilateral_to_unit `{FloatOps F, HedgeLib F}
  : list F -> list F :=
  affine_map_call
    [ [fint 1; fdiv (fint (-1)) (fsqrt (fint 3));
               fdiv (fint (-1)) (fsqrt (fint 6))];
      [fint 0; fdiv (fint 2) (fsqrt (fint 3));
               fdiv (fint (-1)) (fsqrt (fint 6))];
      [fint 0; fint 0; fdiv (fsqrt (fint 6)) (fint 2)] ]
    [ fdiv (fint (-1)) (fint 2); fdiv (fint (-1)) (fint 2);
      fdiv (fint (-1)) (fint 2) ].

(** ** Warping helpers *)

(** [WarpFactorCalculator]: the object keeps the interpolant [int_f]. *)
Record WarpFactorCalculator (F : Type) : Type := {
  int_f : F -> F;
}.
Arguments int_f {F} _ _.

Definition WarpFactorCalculator_init `{FloatOps F, HedgeLib F} (N : Z)
  : WarpFactorCalculator F :=
  let r_lgl := legendre_gauss_lobatto_points N in
  let r_eq := linspace (fint (-1)) (fint 1) (N + 1) in
  {| int_f := newton_interpolation_function r_eq (vsub r_lgl r_eq) |}.

Definition WarpFactorCalculator_call `{FloatOps F}
  (self : WarpFactorCalculator F) (x : F) : F :=
  if fgtb (fabs x) (fsub (fint 1) (lit 1e-10))
  then fint 0
  else fdiv (int_f self x) (fsub (fint 1) (fsquare x)).

(** The vertex opposite to a face: the first element of
    [set(all_vertex_indices) - set(fvi)]. *)
Definition opposite_vertex (all_vertex_indices fvi : list Z) : result Z :=
  match filter (fun i => i ∉ fvi) all_vertex_indices with
  | i :: _ => Ok i
  | [] => Raise StopIteration
  end.

(** [TriangleWarper] *)
Record TriangleWarper (F : Type) : Type := {
  alpha : F;
  warp : WarpFactorCalculator F;
  loop_info : list (list Z * list F * Z);
}.
Arguments alpha {F} _.
Arguments warp {F} _.
Arguments loop_info {F} _.

Definition TriangleWarper_init `{FloatOps F, HedgeLib F} (alpha : F)
  (order : Z) : result (TriangleWarper F) :=
  let warp := WarpFactorCalculator_init order in
  vertices ← mapM triangle_barycentric_to_equilateral
                (wandering_element 3 (fint 1) (fint 0));
  let all_vertex_indices := py_range (2 + 1) in
  face_vertex_indices ← face_vertices Triangle all_vertex_indices;
  faces_vertices ← face_vertices Triangle vertices;
  edgedirs ← mapM (fun f => match f with
                            | [v1; v2] => Ok (normalize (vsub v2 v1))
                            | _ => Raise ValueError
                            end) faces_vertices;
  opp_vertex_indices ← mapM (opposite_vertex all_vertex_indices)
                            face_vertex_indices;
  Ok {| alpha := alpha; warp := warp;
        loop_info := zip (zip face_vertex_indices edgedirs)
                         opp_vertex_indices |}.

(** One turn of the loop of [TriangleWarper.__call__]: the shift that one
    face contributes. *)
Definition TriangleWarper_shift `{FloatOps F} (self : TriangleWarper F)
  (bp : list F) (info : list Z * list F * Z) : result (list F) :=
  let '(fvi, edgedir, opp_vertex_index) := info in
  face_bp ← mapM (py_index bp) fvi;
  prod ← py_reduce fmul face_bp;
  let blend := fmul (fint 4) prod in
  i1 ← py_index fvi 1;
  b1 ← py_index bp i1;
  i0 ← py_index fvi 0;
  b0 ← py_index bp i0;
  bo ← py_index bp opp_vertex_index;
  let warp_amount :=
    fmul (fmul blend (WarpFactorCalculator_call (warp self) (fsub b1 b0)))
         (fadd (fint 1) (fsquare (fmul (alpha self) bo))) in
  Ok (vscale warp_amount edgedir).

Definition TriangleWarper_call `{FloatOps F} (self : TriangleWarper F)
  (bp : list F) : result (list F) :=
  shifts ← mapM (TriangleWarper_shift self bp) (loop_info self);
  py_reduce vadd shifts.

(** ** Local discretizations *)

Inductive ldis_class : Type :=
  | IntervalDiscretization
  | TriangleDiscretization
  | TetrahedronDiscretization.

(** An instance: its class and the attributes the constructors set. *)
Record ldis : Type := {
  cls : ldis_class;
  order : Z;
  fancy_node_ordering : bool;
}.

(** The three [__init__]: the arguments are stored as they are given. *)
Definition IntervalDiscretization_init (order : Z) : result ldis :=
  Ok {| cls := IntervalDiscretization; order := order;
        fancy_node_ordering := false |}.

Definition TriangleDiscretization_init (order : Z)
  (fancy_node_ordering : bool) : result ldis :=
  Ok {| cls := TriangleDiscretization; order := order;
        fancy_node_ordering := fancy_node_ordering |}.

Definition TetrahedronDiscretization_init (order : Z) : result ldis :=
  Ok {| cls := TetrahedronDiscretization; order := order;
        fancy_node_ordering := false |}.

(** The table [GEOMETRY_TO_LDIS]; a geometry class that is not a key is
    [None], for which the lookup raises [KeyError]. *)
Definition GEOMETRY_TO_LDIS (g : option geometry) : result ldis_class :=
  match g with
  | Some Interval => Ok IntervalDiscretization
  | Some Triangle | Some CurvedTriangle => Ok TriangleDiscretization
  | Some Tetrahedron | Some CurvedTetrahedron => Ok TetrahedronDiscretization
  | None => Raise KeyError
  end.

(** [GEOMETRY_TO_LDIS[g](order)]: construction from a geometry class, the
    way the table is meant to be used. *)
Definition make_ldis (g : option geometry) (order : Z) : result ldis :=
  c ← GEOMETRY_TO_LDIS g;
  match c with
  | IntervalDiscretization => IntervalDiscretization_init order
  | TriangleDiscretization => TriangleDiscretization_init order false
  | TetrahedronDiscretization => TetrahedronDiscretization_init order
  end.

(** The class attributes [dimensions] and [geometry]. *)
Definition dimensions (self : ldis) : nat :=
  match cls self with
  | IntervalDiscretization => 1
  | TriangleDiscretization => 2
  | TetrahedronDiscretization => 3
  end.

Definition ldis_geometry (self : ldis) : geometry :=
  match cls self with
  | IntervalDiscretization => Interval
  | TriangleDiscretization => Triangle
  | TetrahedronDiscretization => Tetrahedron
  end.

(** *** Numbering *)

(** [node_tuples] of the interval. *)
Definition interval_node_tuples (self : ldis) : list (list Z) :=
  map (fun i => [i]) (py_range (order self + 1)).

(** [faces_for_node_tuple] of the three classes. *)
Definition interval_faces_for_node_tuple (self : ldis) (node_idx : list Z)
  : list Z :=
  if decide (node_idx = [0]) then
    if decide (order self = 0) then [0; 1] else [0]
  else if decide (node_idx = [order self]) then [1]
  else [].

Definition triangle_faces_for_node_tuple (self : ldis) (node_tuple : list Z)
  : result (list Z) :=
  match node_tuple with
  | [m; n] =>
      Ok ((if decide (n = 0) then [0] else [])
          ++ (if decide (n + m = order self) then [1] else [])
          ++ (if decide (m = 0) then [2] else []))
  | _ => Raise ValueError
  end.

Definition tetrahedron_faces_for_node_tuple (self : ldis)
  (node_tuple : list Z) : result (list Z) :=
  match node_tuple with
  | [m; n; o] =>
      Ok ((if decide (o = 0) then [0] else [])
          ++ (if decide (n = 0) then [1] else [])
          ++ (if decide (m = 0) then [2] else [])
          ++ (if decide (n + m + o = order self) then [3] else []))
  | _ => Raise ValueError
  end.

Definition faces_for_node_tuple (self : ldis) (node_tuple : list Z)
  : result (list Z) :=
  match cls self with
  | IntervalDiscretization => Ok (interval_faces_for_node_tuple self node_tuple)
  | TriangleDiscretization => triangle_faces_for_node_tuple self node_tuple
  | TetrahedronDiscretization =>
      tetrahedron_faces_for_node_tuple self node_tuple
  end.

(** [frozenset(faces_1) == frozenset(faces_2)] *)
Definition same_frozenset (faces_1 faces_2 : list Z) : bool :=
  bool_decide ((list_to_set faces_1 : gset Z) = list_to_set faces_2).

(** [node_tuples] of the triangle.  With [fancy_node_ordering] the tuples
    are regrouped by the set of faces they lie on; [faces_to_nodes.get(s, [])]
    is the sublist of the tuples whose face set is [s], in their order. *)
Definition triangle_node_tuples (self : ldis) : result (list (list Z)) :=
  let node_tups :=
    generate_nonnegative_integer_tuples_summing_to_at_most (order self) 2 in
  if negb (fancy_node_ordering self) then Ok node_tups
  else
    tagged ← mapM (fun nt => fs ← triangle_faces_for_node_tuple self nt;
                             Ok (fs, nt)) node_tups;
    let add_face_nodes (faces : list Z) : list (list Z) :=
      map snd (filter (fun p => same_frozenset p.1 faces) tagged) in
    let result :=
      add_face_nodes [] ++ add_face_nodes [0] ++ add_face_nodes [0; 1]
      ++ add_face_nodes [1] ++ add_face_nodes [1; 2] ++ add_face_nodes [2]
      ++ add_face_nodes [0; 2] in
    _ ← py_assert (bool_decide
           ((list_to_set result : gset (list Z)) = list_to_set node_tups));
    _ ← py_assert (bool_decide (length result = length node_tups));
    Ok result.

(** [node_tuples] of the tetrahedron: the generated order is kept (the
    hand-tuned order is disabled and the sort is commented out). *)
Definition tetrahedron_node_tuples (self : ldis) : list (list Z) :=
  generate_nonnegative_integer_tuples_summing_to_at_most (order self) 3.

Definition node_tuples (self : ldis) : result (list (list Z)) :=
  match cls self with
  | IntervalDiscretization => Ok (interval_node_tuples self)
  | TriangleDiscretization => triangle_node_tuples self
  | TetrahedronDiscretization => Ok (tetrahedron_node_tuples self)
  end.

(** [PkSimplexDiscretization.vertex_count] *)
Definition vertex_count (self : ldis) : Z :=
  Z.of_nat (dimensions self) + 1.

(** [PkSimplexDiscretization.node_count]:
    [int(reduce(mul, (o + 1 + i for i in range(d))) / factorial(d))].
    The product and the factorial are integers; the module imports
    [division] from [__future__], so that their quotient is a float, which
    [int] cuts. *)
Definition node_count (self : ldis) : result Z :=
  let d := dimensions self in
  let o := order self in
  prod ← py_reduce Z.mul (map (fun i => o + 1 + i) (py_range (Z.of_nat d)));
  py_int_truediv prod (factorial d).

(** [dict((ituple, idx) for idx, ituple in enumerate(self.node_tuples()))] *)
Definition node_tup_to_idx (node_tups : list (list Z)) : gmap (list Z) Z :=
  py_dict (map (fun p => (p.2, p.1)) (py_enumerate node_tups)).

(** [PkSimplexDiscretization.vertex_indices] *)
Definition vertex_indices (self : ldis) : result (list Z) :=
  node_tups ← node_tuples self;
  let d := dimensions self in
  let vertex_tuples :=
    replicate d 0 :: wandering_element d (order self) 0 in
  mapM (py_getitem (node_tup_to_idx node_tups)) vertex_tuples.

(** A loop that threads an accumulator and stops at the first exception. *)
Fixpoint foldM {A B} (f : A -> B -> result A) (l : list B) (a : A)
  : result A :=
  match l with
  | [] => Ok a
  | b :: rest => a' ← f a b; foldM f rest a'
  end.

(** [faces[face_idx].append(idx)] *)
Definition append_to_face (faces : list (list Z)) (face_idx idx : Z)
  : result (list (list Z)) :=
  fi ← py_index faces face_idx;
  let n := Z.of_nat (length faces) in
  let j := if face_idx <? 0 then face_idx + n else face_idx in
  Ok (<[Z.to_nat j := fi ++ [idx]]> faces).

(** [PkSimplexDiscretization.face_indices] *)
Definition face_indices (self : ldis) : result (list (list Z)) :=
  node_tups ← node_tuples self;
  let tup_to_idx := node_tup_to_idx node_tups in
  let enum_order_nodes_gen :=
    generate_nonnegative_integer_tuples_summing_to_at_most
      (order self) (dimensions self) in
  let faces := replicate (dimensions self + 1) [] in
  foldM (fun faces node_tup =>
           face_idxs ← faces_for_node_tuple self node_tup;
           foldM (fun faces face_idx =>
                    _ ← py_index faces face_idx;
                    idx ← py_getitem tup_to_idx node_tup;
                    append_to_face faces face_idx idx)
                 face_idxs faces)
        enum_order_nodes_gen faces.

(** [LocalDiscretization.face_count] and [face_node_count] *)
Definition face_count (self : ldis) : result Z :=
  fi ← face_indices self; Ok (Z.of_nat (length fi)).

Definition face_node_count (self : ldis) : result Z :=
  fi ← face_indices self;
  f0 ← py_index fi 0;
  Ok (Z.of_nat (length f0)).

(** *** Node wrangling *)

(** [i / self.order] on two integers under [from __future__ import division] *)
Definition py_truediv `{FloatOps F} (i o : Z) : result F :=
  if decide (o = 0) then Raise ZeroDivisionError
  else Ok (fdiv (fint i) (fint o)).

(** One turn of the generator [equidistant_barycentric_nodes]. *)
Definition equidistant_barycentric_node `{FloatOps F} (self : ldis)
  (indices : list Z) : result (list F) :=
  divided ← mapM (fun i => py_truediv i (order self)) indices;
  Ok (fsub (fint 1) (py_sum divided) :: divided).

(** [PkSimplexDiscretization.equidistant_barycentric_nodes], consumed
    entirely. *)
Definition equidistant_barycentric_nodes `{FloatOps F} (self : ldis)
  : result (list (list F)) :=
  node_tups ← node_tuples self;
  mapM (equidistant_barycentric_node self) node_tups.

(** [IntervalDiscretization.nodes], also bound to [equilateral_nodes] and
    [unit_nodes] in that class. *)
Definition interval_nodes `{FloatOps F, HedgeLib F} (self : ldis)
  : list (list F) :=
  if decide (order self = 0) then [[lit 0.5]]
  else map (fun x => [x]) (legendre_gauss_lobatto_points (order self)).

(** The tuning constant of the triangle: [alpha_opt[self.order-1]], and
    [5/3] when that raises [IndexError]. *)
Definition triangle_alpha_opt `{FloatOps F} : list F :=
  map lit [0.0000; 0.0000; 1.4152; 0.1001; 0.2751; 0.9800; 1.0999;
           1.2832; 1.3648; 1.4773; 1.4959; 1.5743; 1.5770; 1.6223; 1.6258]%Q.

Definition triangle_alpha `{FloatOps F} (self : ldis) : F :=
  match py_index triangle_alpha_opt (order self - 1) with
  | Ok a => a
  | Raise _ => fdiv (fint 5) (fint 3)
  end.

(** [TriangleDiscretization.equilateral_nodes]: a generator, consumed
    entirely; each turn takes one barycentric node from the generator
    above and warps it. *)
Definition triangle_equilateral_nodes `{FloatOps F, HedgeLib F} (self : ldis)
  : result (list (list F)) :=
  let alpha := triangle_alpha self in
  warp ← TriangleWarper_init alpha (order self);
  node_tups ← node_tuples self;
  mapM (fun indices =>
          bp ← equidistant_barycentric_node self indices;
          ep ← triangle_barycentric_to_equilateral bp;
          w ← TriangleWarper_call warp bp;
          Ok (vadd ep w))
       node_tups.

(** The tuning constant of the tetrahedron: the table entry when
    [self.order-1 < len(alpha_opt)], and [1] otherwise. *)
Definition tetrahedron_alpha_opt `{FloatOps F} : list F :=
  map lit [0; 0; 0; 0.1002; 1.1332; 1.5608; 1.3413; 1.2577; 1.1603;
           1.10153; 0.6080; 0.4523; 0.8856; 0.8717; 0.9655]%Q.

Definition tetrahedron_alpha `{FloatOps F} (self : ldis) : result F :=
  if order self - 1 <? Z.of_nat (length (tetrahedron_alpha_opt (F:=F)))
  then py_index tetrahedron_alpha_opt (order self - 1)
  else Ok (fint 1).

(** The denominator [bp[i] + 0.5*bp[opp_vertex_index]] of the tetrahedron's
    blend. *)
Definition blend_denominator `{FloatOps F} (bp : list F)
  (opp_vertex_index i : Z) : result F :=
  bi ← py_index bp i;
  bo ← py_index bp opp_vertex_index;
  Ok (fadd bi (fmul (lit 0.5) bo)).

(** The loop [for i in fvi: ...] over the blend of one node and one face:
    a division per face vertex, left by [break] with the blend set to
    [0.5]. *)
Fixpoint tetrahedron_blend_loop `{FloatOps F} (bp : list F)
  (opp_vertex_index : Z) (fvi : list Z) (blend : F) : result F :=
  match fvi with
  | [] => Ok blend
  | i :: rest =>
      denom ← blend_denominator bp opp_vertex_index i;
      if fgtb (fabs denom) (lit 1e-12)
      then tetrahedron_blend_loop bp opp_vertex_index rest (fdiv blend denom)
      else Ok (lit 0.5)
  end.

(** The blend of one node for one face: the initial product and the loop. *)
Definition tetrahedron_blend `{FloatOps F} (alpha : F) (bp : list F)
  (fvi : list Z) (opp_vertex_index : Z) (face_bp : list F) : result F :=
  prod ← py_reduce fmul face_bp;
  bo ← py_index bp opp_vertex_index;
  tetrahedron_blend_loop bp opp_vertex_index fvi
    (fmul prod (fsquare (fadd (fint 1) (fmul alpha bo)))).

(** The body of the loop over the nodes: the shifted position of one node. *)
Definition tetrahedron_shift_node `{FloatOps F} (tri_warp : TriangleWarper F)
  (alpha : F) (fvi : list Z) (directions : list (list F))
  (opp_vertex_index : Z) (node : list F * list F) : result (list F) :=
  let '(bp, ep) := node in
  face_bp ← mapM (py_index bp) fvi;
  blend ← tetrahedron_blend alpha bp fvi opp_vertex_index face_bp;
  tw ← TriangleWarper_call tri_warp face_bp;
  s ← py_reduce vadd (zip_with vscale tw directions);
  Ok (vadd ep (vscale blend s)).

(** The body of the loop over the faces: all nodes shifted for one face. *)
Definition tetrahedron_warp_face `{FloatOps F, HedgeLib F}
  (tri_warp : TriangleWarper F) (alpha : F) (all_vertex_indices : list Z)
  (bary_points equi_points : list (list F))
  (face : list Z * list (list F)) : result (list (list F)) :=
  let '(fvi, vs) := face in
  match vs with
  | [v1; v2; v3] =>
      let d0 := normalize (vsub v2 v1) in
      let d1 := normalize (vsub v3 (vdiv (vadd v1 v2) (fint 2))) in
      _ ← py_assert (fltb (fabs (dot_row_col d0 d1)) (lit 1e-16));
      opp_vertex_index ← opposite_vertex all_vertex_indices fvi;
      mapM (tetrahedron_shift_node tri_warp alpha fvi [d0; d1]
              opp_vertex_index)
           (zip bary_points equi_points)
  | _ => Raise ValueError
  end.

(** [TetrahedronDiscretization.equilateral_nodes] *)
Definition tetrahedron_equilateral_nodes `{FloatOps F, HedgeLib F}
  (self : ldis) : result (list (list F)) :=
  alpha ← tetrahedron_alpha self;
  vertices ← mapM tetrahedron_barycentric_to_equilateral
                (wandering_element 4 (fint 1) (fint 0));
  let all_vertex_indices := py_range (3 + 1) in
  face_vertex_indices ← face_vertices Tetrahedron all_vertex_indices;
  faces_vertices ← face_vertices Tetrahedron vertices;
  bary_points ← equidistant_barycentric_nodes self;
  equi_points ← mapM tetrahedron_barycentric_to_equilateral bary_points;
  tri_warp ← TriangleWarper_init alpha (order self);
  foldM (tetrahedron_warp_face tri_warp alpha all_vertex_indices bary_points)
        (zip face_vertex_indices faces_vertices) equi_points.

(** [unit_nodes]: [nodes] for the interval, and for the other two
    [PkSimplexDiscretization.unit_nodes], which maps [equilateral_to_unit]
    over [equilateral_nodes]. *)
Definition unit_nodes `{FloatOps F, HedgeLib F} (self : ldis)
  : result (list (list F)) :=
  match cls self with
  | IntervalDiscretization => Ok (interval_nodes self)
  | TriangleDiscretization =>
      map triangle_equilateral_to_unit <$> triangle_equilateral_nodes self
  | TetrahedronDiscretization =>
      map tetrahedron_equilateral_to_unit
        <$> tetrahedron_equilateral_nodes self
  end.

(** *** Time step scaling *)

(** What [dt_geometric_factor] reads of a mesh element: [el.map.jacobian()]
    and [el.face_jacobians]. *)
Record element (F : Type) : Type := {
  map_jacobian : F;
  face_jacobians : list F;
}.
Arguments map_jacobian {F} _.
Arguments face_jacobians {F} _.

Definition interval_dt_geometric_factor `{FloatOps F} (self : ldis)
  (vertices : list (list F)) (el : element F) : F :=
  fabs (map_jacobian el).

(** [TetrahedronDiscretization.dt_geometric_factor]; the second component
    lists the warnings issued.  [max] raises [ValueError] when the element
    has no face jacobian, and the division [ZeroDivisionError] when the
    greatest of them is zero. *)
Definition tetrahedron_dt_geometric_factor `{FloatOps F} (self : ldis)
  (vertices : list (list F)) (el : element F) : result (F * list string) :=
  m ← py_max (map fabs (face_jacobians el));
  result ← py_fdiv (fabs (map_jacobian el)) m;
  if bool_decide (order self ∈ [1; 2])
  then Ok (fdiv result (fint 2),
           ["cowardly halving timestep for order 1 and 2 tets "
            +:+ "to avoid CFL issues"])
  else Ok (result, []).

(** *** Basis functions *)

(** [generate_mode_identifiers] *)
Definition generate_mode_identifiers (self : ldis) : list (list Z) :=
  generate_nonnegative_integer_tuples_summing_to_at_most
    (order self) (dimensions self).

(** [basis_functions] of the three classes. *)
Definition basis_functions `{HedgeLib F} (self : ldis)
  : result (list (list F -> F)) :=
  mapM (fun idx =>
          match cls self, idx with
          | IntervalDiscretization, i :: _ => Ok (vector_legendre_function i)
          | IntervalDiscretization, [] => Raise IndexError
          | TriangleDiscretization, [i; j] => Ok (triangle_basis_function i j)
          | TetrahedronDiscretization, [i; j; k] =>
              Ok (tetrahedron_basis_function i j k)
          | _, _ => Raise TypeError
          end)
       (generate_mode_identifiers self).

(** [face_basis] of the three classes. *)
Definition face_basis `{FloatOps F, HedgeLib F} (self : ldis)
  : result (list (list F -> F)) :=
  match cls self with
  | IntervalDiscretization => Ok [fun _ => fint 1]
  | TriangleDiscretization =>
      Ok (map vector_legendre_function (py_range (order self + 1)))
  | TetrahedronDiscretization =>
      mapM (fun mode_tup =>
              match mode_tup with
              | [i; j] => Ok (triangle_basis_function i j)
              | _ => Raise TypeError
              end)
           (generate_nonnegative_integer_tuples_summing_to_at_most
              (order self) (dimensions self - 1))
  end.

(** [PkSimplexDiscretization.unit_face_nodes] *)
Definition unit_face_nodes `{FloatOps F, HedgeLib F} (self : ldis)
  : result (list (list F)) :=
  unodes ← unit_nodes self;
  fi ← face_indices self;
  let dim := dimensions self in
  f0 ← py_index fi 0;
  mapM (fun i => u ← py_index unodes i; Ok (take (dim - 1) u)) f0.

(** *** Memoization

    [@memoize_method] keeps the value a method returned in the object, under
    the method's name, and returns it at every later call; nothing is kept
    when the method raises.  The matrix-valued methods are written once,
    over a monad [M] that says what the decorator does: nothing in
    [result], which gives the value a method computes, and the lookup and
    store in [cached], which threads the object's cache. *)

Class Memoizer (F : Type) (M : Type -> Type) `{MRet M, MBind M} : Type := {
  run_result : forall {A}, result A -> M A;
  memoize_method : string -> M (list (list F)) -> M (list (list F));
}.

#[global] Instance result_memoizer F : Memoizer F result := {
  run_result _ r := r;
  memoize_method _ body := body;
}.

Definition cached (F A : Type) : Type :=
  gmap string (list (list F)) -> result (A * gmap string (list (list F))).

#[global] Instance cached_ret F : MRet (cached F) := fun _ a c => Ok (a, c).
#[global] Instance cached_bind F : MBind (cached F) := fun _ _ f m c =>
  match m c with
  | Ok (a, c') => f a c'
  | Raise e => Raise e
  end.

#[global] Instance cached_memoizer F : Memoizer F (cached F) := {
  run_result _ r := fun c =>
    match r with
    | Ok a => Ok (a, c)
    | Raise e => Raise e
    end;
  memoize_method name body := fun c =>
    match c !! name with
    | Some v => Ok (v, c)
    | None =>
        match body c with
        | Ok (v, c') => Ok (v, <[name := v]> c')
        | Raise e => Raise e
        end
    end;
}.

(** *** Matrices *)

(** [row[col : col + len(vals)] = vals] *)
Definition set_block_row {F} (row : list F) (col : nat) (vals : list F)
  : list F :=
  take col row ++ vals ++ drop (col + length vals) row.

(** [result[f_indices, i_face*w : (i_face+1)*w] = face_mass_matrix]: row [k]
    of the face matrix goes to row [f_indices[k]] of the result (a matrix of
    one row is broadcast to all of them). *)
Definition assign_face_block {F} (res : list (list F)) (f_indices : list Z)
  (i_face w : nat) (fmm : list (list F)) : result (list (list F)) :=
  let h := nrows fmm in
  if negb (bool_decide (h = 1%nat))
     && negb (bool_decide (h = length f_indices))
  then Raise ValueError
  else
    foldM (fun res (ki : Z * Z) =>
             let '(k, idx) := ki in
             if (idx <? 0) || (Z.of_nat (nrows res) <=? idx)
             then Raise IndexError
             else
               let src := default []
                 (fmm !! (if bool_decide (h = 1%nat) then O else Z.to_nat k)) in
               row ← py_index res idx;
               Ok (<[Z.to_nat idx := set_block_row row (i_face * w) src]> res))
          (py_enumerate f_indices) res.

(** [LocalDiscretization._assemble_multi_face_mass_matrix] *)
Definition assemble_multi_face_mass_matrix `{FloatOps F} (self : ldis)
  (face_mass_matrix : list (list F)) : result (list (list F)) :=
  let fmm_height := nrows face_mass_matrix in
  let fmm_width := ncols face_mass_matrix in
  fnc ← face_node_count self;
  _ ← py_assert (bool_decide (Z.of_nat fmm_height = fnc));
  nc ← node_count self;
  fc ← face_count self;
  if nc <? 0 then Raise ValueError
  else
    let res := zeros (Z.to_nat nc) (Z.to_nat fc * fmm_width) in
    fi ← face_indices self;
    foldM (fun res (p : Z * list Z) =>
             let '(i_face, f_indices) := p in
             assign_face_block res f_indices (Z.to_nat i_face) fmm_width
               face_mass_matrix)
          (py_enumerate fi) res.

Section Matrices.
Context {F : Type} `{FloatOps F, HedgeLib F}.
Context {M : Type -> Type} `{Memoizer F M}.

(** [LocalDiscretization.vandermonde] *)
Definition vandermonde (self : ldis) : M (list (list F)) :=
  memoize_method "vandermonde"
    (run_result (unodes ← unit_nodes self;
                 fs ← basis_functions self;
                 Ok (generic_vandermonde unodes fs))).

(** [OrthonormalLocalDiscretization.inverse_mass_matrix] *)
Definition inverse_mass_matrix (self : ldis) : M (list (list F)) :=
  memoize_method "inverse_mass_matrix"
    (v ← vandermonde self;
     run_result (dot v (transpose v))).

(** [PkSimplexDiscretization.face_vandermonde] *)
Definition face_vandermonde (self : ldis) : M (list (list F)) :=
  memoize_method "face_vandermonde"
    (run_result (ufn ← unit_face_nodes self;
                 fb ← face_basis self;
                 Ok (generic_vandermonde ufn fb))).

(** [PkSimplexDiscretization.face_mass_matrix] *)
Definition face_mass_matrix (self : ldis) : M (list (list F)) :=
  memoize_method "face_mass_matrix"
    (face_vdm ← face_vandermonde self;
     run_result (d ← dot face_vdm (transpose face_vdm); la_inv d)).

(** [LocalDiscretization.multi_face_mass_matrix] *)
Definition multi_face_mass_matrix (self : ldis) : M (list (list F)) :=
  memoize_method "multi_face_mass_matrix"
    (fmm ← face_mass_matrix self;
     run_result (assemble_multi_face_mass_matrix self fmm)).

(** [LocalDiscretization.lifting_matrix] *)
Definition lifting_matrix (self : ldis) : M (list (list F)) :=
  memoize_method "lifting_matrix"
    (im ← inverse_mass_matrix self;
     mfm ← multi_face_mass_matrix self;
     run_result (dot im mfm)).
End Matrices.

(** *** Face matching *)

(** [FaceIndexShuffle] *)
Record FaceIndexShuffle : Type := {
  vert_perm : list Z;
  idx_map : list Z;
}.

(** [FaceIndexShuffle.__call__] *)
Definition FaceIndexShuffle_call {A} (self : FaceIndexShuffle)
  (indices : list A) : result (list A) :=
  mapM (py_index indices) (idx_map self).

(** [check_and_chop] *)
Definition check_and_chop `{FloatOps F} (pt : list F) : result (list F) :=
  last ← py_index pt (-1);
  _ ← py_assert (fltb (fabs (fsub last (fint (-1)))) (lit 1e-13));
  Ok (take (length pt - 1) pt).

(** [get_face_index_shuffle_lookup_map_for_nodes] *)
Definition get_face_index_shuffle_lookup_map_for_nodes
  `{FloatOps F, HedgeLib F} (self : ldis) (face_nodes : list (list F))
  : result (gmap (list Z) FaceIndexShuffle) :=
  vi ← vertex_indices self;
  fv ← face_vertices (ldis_geometry self) vi;
  first_face_vertex_node_index_lists ← py_index fv 0;
  unodes ← unit_nodes self;
  face_unit_vertices ←
    mapM (fun i => u ← py_index unodes i; check_and_chop u)
         first_face_vertex_node_index_lists;
  foldM (fun (res : gmap (list Z) FaceIndexShuffle) vert_perm =>
           permuted_face_unit_vertices ←
             mapM (py_index face_unit_vertices) vert_perm;
           amap ← identify_affine_map face_unit_vertices
                    permuted_face_unit_vertices;
           imap ← find_index_map_from_node_sets face_nodes
                    (map amap face_nodes);
           Ok (<[vert_perm := {| vert_perm := vert_perm; idx_map := imap |}]>
                 res))
        (generate_unique_permutations
           (py_range (Z.of_nat (dimensions self))))
        ∅.

(** [get_face_index_shuffle_lookup_map] *)
Definition get_face_index_shuffle_lookup_map `{FloatOps F, HedgeLib F}
  (self : ldis) : result (gmap (list Z) FaceIndexShuffle) :=
  unodes ← unit_nodes self;
  fi ← face_indices self;
  f0 ← py_index fi 0;
  face_unit_nodes ← mapM (fun i => u ← py_index unodes i; check_and_chop u) f0;
  get_face_index_shuffle_lookup_map_for_nodes self face_unit_nodes.

(** [tuple(idx_normalize_map[i] for i in face_2_vertices)] inside the
    [try]: a [KeyError] becomes [FaceVertexMismatch]. *)
Definition normalize_face_2_vertices (idx_normalize_map : gmap Z Z)
  (face_2_vertices : list Z) : result (list Z) :=
  match mapM (py_getitem idx_normalize_map) face_2_vertices with
  | Ok t => Ok t
  | Raise KeyError => Raise (FaceVertexMismatch "face vertices do not match")
  | Raise e => Raise e
  end.

(** [get_face_index_shuffle_backend] *)
Definition get_face_index_shuffle_backend
  (face_1_vertices face_2_vertices : list Z)
  (lookup_map : gmap (list Z) FaceIndexShuffle) : result FaceIndexShuffle :=
  let idx_normalize_map :=
    py_dict (map (fun p => (p.2, p.1)) (py_enumerate face_1_vertices)) in
  normalized_face_2_vertices ←
    normalize_face_2_vertices idx_normalize_map face_2_vertices;
  py_getitem lookup_map normalized_face_2_vertices.

(** [get_face_index_shuffle_to_match]: the lookup map is built (or fetched)
    first, as the argument of the call. *)
Definition get_face_index_shuffle_to_match `{FloatOps F, HedgeLib F}
  (self : ldis) (face_1_vertices face_2_vertices : list Z)
  : result FaceIndexShuffle :=
  lookup_map ← get_face_index_shuffle_lookup_map self;
  get_face_index_shuffle_backend face_1_vertices face_2_vertices lookup_map.

(** ** CUDA kernel generation

    The generators build a tree of [hedge.cuda.cgen] nodes; the nodes are
    kept as syntax.  [get_load_code] and [make_multiple_ifs], which return
    nodes built elsewhere, and [Block.extend_log_block] are kept as nodes
    that record their arguments. *)

#[local] Set Warnings "-register-all".

Inductive dtype : Type :=
  | uint8 | uint16 | uint32 | float32 | float64.

Inductive pyval : Type :=
  | PyStr (s : string)
  | PyInt (z : Z).

Inductive decl : Type :=
  | POD (t : dtype) (name : string)
  | Value (typename name : string)
  | Pointer (d : decl)
  | Const (d : decl)
  | ArrayOf (d : decl) (count : string)
  | CudaShared (d : decl)
  | CudaConstant (d : decl)
  | CudaGlobal (d : decl)
  | FunctionDeclaration (d : decl) (args : list decl).

Inductive cgen : Type :=
  | Decl (d : decl)
  | Line
  | Comment (text : string)
  | Define (name : string) (value : pyval)
  | ArrayInitializer (d : decl) (values : list Z)
  | Initializer (d : decl) (value : pyval)
  | Statement (text : string)
  | Assign (lvalue rvalue : string)
  | If (condition : string) (then_ : cgen)
  | For (start condition update : string) (body : cgen)
  | Block (contents : list cgen)
  | LogBlock (descr : string) (contents : list cgen)
  | LoadCode (dest base bytes descr : string)
  | MultipleIfs (conditions_and_blocks : list (string * cgen))
  | FunctionBody (fdecl : decl) (body : list cgen)
  | Module (contents : list cgen).

(** ["%d" % z] *)
Definition fmt_d (z : Z) : string := pretty z.

(** [a // b] on integers. *)
Definition py_floordiv (a b : Z) : result Z :=
  if decide (b = 0) then Raise ZeroDivisionError else Ok (a `div` b).

(** [range(start, stop, step)] *)
Definition py_range3 (start stop step : Z) : result (list Z) :=
  if decide (step = 0) then Raise ValueError
  else if 0 <? step
       then Ok (py_range_step (Z.to_nat (stop - start)) start stop step)
       else Ok (map Z.opp
                  (py_range_step (Z.to_nat (start - stop))
                     (- start) (- stop) (- step))).

(** The execution plan and the discretization data the generators read. *)
Record parallelism : Type := {
  p : Z;
  s : Z;
}.

Record microblock : Type := {
  aligned_floats : Z;
  elements : Z;
}.

Record lifting_plan : Type := {
  chunk_size : Z;
  chunks_per_microblock : Z;
  lplan_parallelism : parallelism;
  max_elements_touched_by_chunk : Z;
}.

(** [discr.flux_plan] of the first generator, [discr.given] of the second. *)
Record flux_plan (F : Type) : Type := {
  float_type : dtype;
  float_size : Z;
  (** [numpy.asarray(x, dtype=float_type)] on one entry *)
  astype : F -> F;
  dofs_per_el : Z;
  faces_per_el : Z;
  dofs_per_face : Z;
  face_dofs_per_el : Z;
  fplan_microblock : microblock;
  aligned_face_dofs_per_microblock : Z;
  flux_lifting_plan : lifting_plan;
  plan_ldis : ldis;
}.
Arguments float_type {F} _.
Arguments float_size {F} _.
Arguments astype {F} _ _.
Arguments dofs_per_el {F} _.
Arguments faces_per_el {F} _.
Arguments dofs_per_face {F} _.
Arguments face_dofs_per_el {F} _.
Arguments fplan_microblock {F} _.
Arguments aligned_face_dofs_per_microblock {F} _.
Arguments flux_lifting_plan {F} _.
Arguments plan_ldis {F} _.

Record discretization (F : Type) : Type := {
  discr_dimensions : Z;
  discr_flux_plan : flux_plan F;
  (** [discr.devdata.align_dtype] *)
  align_dtype : Z -> Z -> Z;
  (** [self.plan.parallelism] of the second generator *)
  plan_parallelism : parallelism;
}.
Arguments discr_dimensions {F} _.
Arguments discr_flux_plan {F} _.
Arguments align_dtype {F} _ _ _.
Arguments plan_parallelism {F} _.

(** What [get_kernel] hands to [cuda.SourceModule] and the names of the
    textures it binds. *)
Record kernel : Type := {
  source : cgen;
  texrefs : list string;
}.

(** *** [FluxLocalKernel] *)

(** The matrix [gpu_liftmat] and [gpu_lift_mat] put on the device. *)
Definition liftmat_source `{FloatOps F, HedgeLib F} (fplan : flux_plan F)
  (is_lift : bool) : result (list (list F)) :=
  if is_lift
  then lifting_matrix (M:=result) (plan_ldis fplan)
  else multi_face_mass_matrix (M:=result) (plan_ldis fplan).

(** [GPULiftMatrices]; [device_memory] is kept as the arguments of
    [pad_and_join]: the chunks and the size of a block in bytes. *)
Record GPULiftMatrices (F : Type) : Type := {
  device_memory : list (list (list F)) * Z;
  block_floats : Z;
  matrix_columns : Z;
}.
Arguments device_memory {F} _.
Arguments block_floats {F} _.
Arguments matrix_columns {F} _.

(** [FluxLocalKernel.gpu_liftmat] *)
Definition gpu_liftmat `{FloatOps F, HedgeLib F} (discr : discretization F)
  (is_lift : bool) : result (GPULiftMatrices F) :=
  let fplan := discr_flux_plan discr in
  let lplan := flux_lifting_plan fplan in
  let columns := face_dofs_per_el fplan in
  let columns := if decide (columns `mod` 2 = 0) then columns + 1
                 else columns in
  let block_floats :=
    align_dtype discr (columns * chunk_size lplan) (float_size fplan) in
  mat ← liftmat_source fplan is_lift;
  if elements (fplan_microblock fplan) <=? 0 then Raise ValueError
  else
    let vstacked_matrix :=
      vstack_copies (Z.to_nat (elements (fplan_microblock fplan))) mat in
    let vstacked_matrix :=
      if Z.of_nat (ncols vstacked_matrix) <? columns
      then hstack_zeros vstacked_matrix
             (Z.to_nat (columns - Z.of_nat (ncols vstacked_matrix)))
      else vstacked_matrix in
    starts ← py_range3 0
               (elements (fplan_microblock fplan) * dofs_per_el fplan)
               (chunk_size lplan);
    let chunks :=
      map (fun chunk_start =>
             map (map (astype fplan))
                 (py_slice vstacked_matrix chunk_start
                    (chunk_start + chunk_size lplan)))
          starts in
    Ok {| device_memory := (chunks, block_floats * float_size fplan);
          block_floats := block_floats;
          matrix_columns := columns |}.

(** The multiplier of the stored result in the first generator. *)
Definition inv_jac_multiplier (is_lift : bool) : string :=
  if is_lift
  then "tex1Dfetch(inverse_jacobians_tex,global_mb_nr*MB_EL_COUNT+dof_el)"
  else "1".

(** [get_batched_fetch_mat_mul_code] *)
Definition get_batched_fetch_mat_mul_code {F} (fplan : flux_plan F)
  : result (list cgen) :=
  let lplan := flux_lifting_plan fplan in
  let dofs := py_range (face_dofs_per_el fplan) in
  starts ← py_range3 0 (face_dofs_per_el fplan) (chunk_size lplan);
  Ok (flat_map
        (fun load_chunk_start =>
           [ Assign "dof_buffer[PAR_MB_NR][CHUNK_DOF]"
               ("tex1Dfetch(fluxes_on_faces_tex, global_mb_facedof_base"
                +:+ "+(chunk_start_el)*FACE_DOFS_PER_EL+"
                +:+ fmt_d load_chunk_start +:+ "+CHUNK_DOF)");
             Statement "__syncthreads()";
             Line ]
           ++ map (fun dof =>
                     Statement
                       ("result += smem_lift_mat[CHUNK_DOF*LIFTMAT_COLUMNS + "
                        +:+ fmt_d dof +:+ "]*dof_buffer[PAR_MB_NR]["
                        +:+ fmt_d (dof - load_chunk_start) +:+ "]"))
                  (py_slice dofs load_chunk_start
                     (load_chunk_start + chunk_size lplan))
           ++ [Line])
        starts).

(** [get_direct_tex_mat_mul_code] *)
Definition get_direct_tex_mat_mul_code {F} (fplan : flux_plan F)
  : list cgen :=
  map (fun j =>
         Statement
           ("result += tex1Dfetch(fluxes_on_faces_tex, "
            +:+ "global_mb_facedof_base+dof_el*FACE_DOFS_PER_EL+"
            +:+ fmt_d j +:+ ") * smem_lift_mat[CHUNK_DOF*LIFTMAT_COLUMNS + "
            +:+ fmt_d j +:+ "]"))
      (py_range (dofs_per_face fplan * faces_per_el fplan))
  ++ [Line].

(** [get_mat_mul_code] *)
Definition get_mat_mul_code {F} (fplan : flux_plan F) (el_fetch_count : Z)
  : result (list cgen) :=
  if decide (el_fetch_count = 1)
  then get_batched_fetch_mat_mul_code fplan
  else Ok (get_direct_tex_mat_mul_code fplan).

(** The loop over the sequential microblocks that one branch of the
    [make_multiple_ifs] holds. *)
Definition seq_mb_loop {F} (fplan : flux_plan F) (is_lift : bool)
  (fetch_count : Z) : result (string * cgen) :=
  mat_mul_code ← get_mat_mul_code fplan fetch_count;
  Ok ("chunk_el_count == " +:+ fmt_d fetch_count,
      For "unsigned short seq_mb_number = 0"
          "seq_mb_number < SEQ_MB_COUNT"
          "++seq_mb_number"
          (Block
             ([ Initializer (POD uint32 "global_mb_nr")
                  (PyStr ("GLOBAL_MB_NR_BASE + seq_mb_number*PAR_MB_COUNT"
                          +:+ " + PAR_MB_NR"));
                Initializer (POD uint32 "global_mb_dof_base")
                  (PyStr "global_mb_nr*MB_DOF_COUNT");
                Initializer (POD uint32 "global_mb_facedof_base")
                  (PyStr "global_mb_nr*MB_FACEDOF_COUNT");
                Line;
                Initializer (POD (float_type fplan) "result") (PyInt 0);
                Line ]
              ++ mat_mul_code
              ++ [ If "MB_DOF < DOFS_PER_EL*MB_EL_COUNT"
                     (Assign "flux[global_mb_dof_base+MB_DOF]"
                        ("result*" +:+ inv_jac_multiplier is_lift)) ]))).

(** The two lookup tables of chunk boundaries. *)
Definition chunk_start_el_lookup {F} (fplan : flux_plan F)
  : result (list Z) :=
  let lplan := flux_lifting_plan fplan in
  mapM (fun chk => py_floordiv (chk * chunk_size lplan) (dofs_per_el fplan))
       (py_range (chunks_per_microblock lplan)).

Definition chunk_stop_el_lookup {F} (fplan : flux_plan F)
  : result (list Z) :=
  let lplan := flux_lifting_plan fplan in
  mapM (fun chk =>
          q ← py_floordiv (chk * chunk_size lplan + chunk_size lplan - 1)
                (dofs_per_el fplan);
          Ok (Z.min (elements (fplan_microblock fplan)) (q + 1)))
       (py_range (chunks_per_microblock lplan)).

(** The function body of the first generator. *)
Definition apply_lift_mat_body {F} (fplan : flux_plan F) (is_lift : bool)
  : result (list cgen) :=
  let lplan := flux_lifting_plan fplan in
  branches ← mapM (seq_mb_loop fplan is_lift)
                (map (fun i => i + 1)
                     (py_range (max_elements_touched_by_chunk lplan)));
  Ok [ LogBlock "calculate responsibility data"
         [ Initializer (POD uint8 "dof_el") (PyStr "MB_DOF/DOFS_PER_EL");
           Line;
           If "THREAD_NUM==0"
             (Block
                [ Assign "chunk_start_el" "chunk_start_el_lookup[MB_CHUNK]";
                  Assign "chunk_stop_el" "chunk_stop_el_lookup[MB_CHUNK]";
                  Assign "chunk_el_count" "chunk_stop_el-chunk_start_el" ]);
           Statement "__syncthreads()" ];
       LoadCode "smem_lift_mat" "gmem_lift_mat + MB_CHUNK*LIFTMAT_CHUNK_BYTES"
         "LIFTMAT_CHUNK_BYTES" "load lift mat chunk";
       MultipleIfs branches ].

(** [FluxLocalKernel.get_kernel], up to the call of [cuda.SourceModule]. *)
Definition FluxLocalKernel_get_kernel `{FloatOps F, HedgeLib F}
  (discr : discretization F) (is_lift : bool) : result kernel :=
  let fplan := discr_flux_plan discr in
  let lplan := flux_lifting_plan fplan in
  liftmat_data ← gpu_liftmat discr is_lift;
  let float_type := float_type fplan in
  let f_decl :=
    CudaGlobal (FunctionDeclaration (Value "void" "apply_lift_mat")
      [ Pointer (POD float_type "flux");
        Pointer (POD uint8 "gmem_lift_mat");
        Pointer (POD float_type "debugbuf") ]) in
  starts ← chunk_start_el_lookup fplan;
  stops ← chunk_stop_el_lookup fplan;
  f_body ← apply_lift_mat_body fplan is_lift;
  let cmod :=
    [ Decl (Value "texture<float, 1, cudaReadModeElementType>"
              "fluxes_on_faces_tex") ]
    ++ (if is_lift
        then [ Decl (Value "texture<float, 1, cudaReadModeElementType>"
                       "inverse_jacobians_tex") ]
        else [])
    ++ [ Line;
         Define "DIMENSIONS" (PyInt (discr_dimensions discr));
         Define "DOFS_PER_EL" (PyInt (dofs_per_el fplan));
         Define "FACES_PER_EL" (PyInt (faces_per_el fplan));
         Define "DOFS_PER_FACE" (PyInt (dofs_per_face fplan));
         Define "FACE_DOFS_PER_EL" (PyStr "(DOFS_PER_FACE*FACES_PER_EL)");
         Line;
         Define "CHUNK_DOF" (PyStr "threadIdx.x");
         Define "PAR_MB_NR" (PyStr "threadIdx.y");
         Line;
         Define "MB_CHUNK" (PyStr "blockIdx.x");
         Define "MACROBLOCK_NR" (PyStr "blockIdx.y");
         Line;
         Define "CHUNK_DOF_COUNT" (PyInt (chunk_size lplan));
         Define "MB_CHUNK_COUNT" (PyInt (chunks_per_microblock lplan));
         Define "MB_DOF_COUNT" (PyInt (aligned_floats (fplan_microblock fplan)));
         Define "MB_FACEDOF_COUNT"
           (PyInt (aligned_face_dofs_per_microblock fplan));
         Define "MB_EL_COUNT" (PyInt (elements (fplan_microblock fplan)));
         Define "PAR_MB_COUNT" (PyInt (p (lplan_parallelism lplan)));
         Define "SEQ_MB_COUNT" (PyInt (s (lplan_parallelism lplan)));
         Line;
         Define "THREAD_NUM" (PyStr "(CHUNK_DOF+PAR_MB_NR*CHUNK_DOF_COUNT)");
         Define "COALESCING_THREAD_COUNT"
           (PyStr "(PAR_MB_COUNT*CHUNK_DOF_COUNT)");
         Line;
         Define "MB_DOF_BASE" (PyStr "(MB_CHUNK*CHUNK_DOF_COUNT)");
         Define "MB_DOF" (PyStr "(MB_DOF_BASE+CHUNK_DOF)");
         Define "GLOBAL_MB_NR_BASE"
           (PyStr "(MACROBLOCK_NR*PAR_MB_COUNT*SEQ_MB_COUNT)");
         Line;
         Define "LIFTMAT_COLUMNS" (PyInt (matrix_columns liftmat_data));
         Define "LIFTMAT_CHUNK_FLOATS" (PyInt (block_floats liftmat_data));
         Define "LIFTMAT_CHUNK_BYTES"
           (PyStr ("(LIFTMAT_CHUNK_FLOATS*" +:+ fmt_d (float_size fplan)
                   +:+ ")"));
         Line;
         Decl (CudaShared (ArrayOf (POD float_type "smem_lift_mat")
                             "LIFTMAT_CHUNK_FLOATS"));
         Decl (CudaShared (ArrayOf (ArrayOf (POD float_type "dof_buffer")
                                      "PAR_MB_COUNT")
                             "CHUNK_DOF_COUNT"));
         Decl (CudaShared (POD uint16 "chunk_start_el"));
         Decl (CudaShared (POD uint16 "chunk_stop_el"));
         Decl (CudaShared (POD uint16 "chunk_el_count"));
         Line;
         ArrayInitializer
           (CudaConstant (ArrayOf (POD uint16 "chunk_start_el_lookup")
                            "MB_CHUNK_COUNT"))
           starts;
         ArrayInitializer
           (CudaConstant (ArrayOf (POD uint16 "chunk_stop_el_lookup")
                            "MB_CHUNK_COUNT"))
           stops;
         FunctionBody f_decl f_body ] in
  Ok {| source := Module cmod;
        texrefs := "fluxes_on_faces_tex"
                   :: (if is_lift then ["inverse_jacobians_tex"] else []) |}.

(** *** [SMemFieldFluxLocalKernel] *)

(** [SMemFieldFluxLocalKernel.gpu_lift_mat], up to [cuda.matrix_to_array]. *)
Definition gpu_lift_mat `{FloatOps F, HedgeLib F} (discr : discretization F)
  (is_lift : bool) : result (list (list F)) :=
  let given := discr_flux_plan discr in
  mat ← liftmat_source given is_lift;
  Ok (map (map (astype given)) mat).

(** The multiplier of the stored result in the second generator. *)
Definition smem_inv_jac_multiplier (is_lift : bool) : string :=
  if is_lift
  then "tex1Dfetch(inverse_jacobians_tex,GLOBAL_MB_NR*MB_EL_COUNT+mb_el)"
  else "1".

(** [get_lift_code] *)
Definition get_lift_code {F} (given : flux_plan F) (is_lift : bool) : cgen :=
  Block
    [ Comment "everybody needs to be done with the old data";
      Statement "__syncthreads()";
      Line;
      For "unsigned i = MB_DOF"
          "i < ALIGNED_FACE_DOFS_PER_MB"
          "i += ALIGNED_DOFS_PER_MB"
          (Assign "smem_fluxes_on_faces[PAR_MB_NR][i]"
             "fluxes_on_faces[GLOBAL_MB_NR*ALIGNED_FACE_DOFS_PER_MB + i]");
      Line;
      Comment "all the new data must be loaded";
      Statement "__syncthreads()";
      Line;
      Initializer (POD (float_type given) "result") (PyInt 0);
      Line;
      If "MB_DOF < DOFS_PER_MB"
        (Block
           (map (fun j =>
                   Statement
                     ("result += tex2D(lift_mat_tex, EL_DOF, " +:+ fmt_d j
                      +:+ ") * smem_fluxes_on_faces[PAR_MB_NR]"
                      +:+ "[mb_el*FACE_DOFS_PER_EL+" +:+ fmt_d j +:+ "]"))
                (py_range (dofs_per_face given * faces_per_el given))
            ++ [ Line;
                 Assign "flux[GLOBAL_MB_NR*ALIGNED_DOFS_PER_MB + MB_DOF]"
                   ("result*" +:+ smem_inv_jac_multiplier is_lift) ])) ].

(** What the second [get_kernel] builds: the module, the textures bound
    and the array set on [lift_mat_tex]. *)
Record smem_kernel (F : Type) : Type := {
  smem_source : cgen;
  smem_texrefs : list string;
  lift_mat_tex_array : list (list F);
}.
Arguments smem_source {F} _.
Arguments smem_texrefs {F} _.
Arguments lift_mat_tex_array {F} _.

(** [SMemFieldFluxLocalKernel.get_kernel], up to the call of
    [cuda.SourceModule] and with the texture bindings that follow it. *)
Definition SMemFieldFluxLocalKernel_get_kernel `{FloatOps F, HedgeLib F}
  (discr : discretization F) (is_lift : bool) : result (smem_kernel F) :=
  let given := discr_flux_plan discr in
  let float_type := float_type given in
  let f_decl :=
    CudaGlobal (FunctionDeclaration (Value "void" "apply_lift_mat_smem")
      [ Pointer (POD float_type "flux");
        Pointer (POD float_type "fluxes_on_faces");
        Pointer (POD float_type "debugbuf") ]) in
  let f_body :=
    [ Initializer (Const (POD uint16 "mb_el")) (PyStr "MB_DOF / DOFS_PER_EL");
      Line;
      For "unsigned short seq_mb_number = 0"
          "seq_mb_number < SEQ_MB_COUNT"
          "++seq_mb_number"
          (get_lift_code given is_lift) ] in
  let cmod :=
    [ Decl (Value "texture<float, 2, cudaReadModeElementType>"
              "lift_mat_tex") ]
    ++ (if is_lift
        then [ Decl (Value "texture<float, 1, cudaReadModeElementType>"
                       "inverse_jacobians_tex") ]
        else [])
    ++ [ Line;
         Define "DIMENSIONS" (PyInt (discr_dimensions discr));
         Define "DOFS_PER_EL" (PyInt (dofs_per_el given));
         Define "FACES_PER_EL" (PyInt (faces_per_el given));
         Define "DOFS_PER_FACE" (PyInt (dofs_per_face given));
         Define "FACE_DOFS_PER_EL" (PyStr "(DOFS_PER_FACE*FACES_PER_EL)");
         Define "MB_EL_COUNT" (PyInt (elements (fplan_microblock given)));
         Line;
         Define "DOFS_PER_MB" (PyStr "(DOFS_PER_EL*MB_EL_COUNT)");
         Define "ALIGNED_DOFS_PER_MB"
           (PyInt (aligned_floats (fplan_microblock given)));
         Define "ALIGNED_FACE_DOFS_PER_MB"
           (PyInt (aligned_face_dofs_per_microblock given));
         Line;
         Define "MB_DOF" (PyStr "threadIdx.x");
         Define "PAR_MB_NR" (PyStr "threadIdx.y");
         Define "EL_DOF" (PyStr "(MB_DOF - mb_el*DOFS_PER_EL)");
         Line;
         Define "MACROBLOCK_NR" (PyStr "blockIdx.x");
         Line;
         Define "PAR_MB_COUNT" (PyInt (p (plan_parallelism discr)));
         Define "SEQ_MB_COUNT" (PyInt (s (plan_parallelism discr)));
         Line;
         Define "THREAD_NUM" (PyStr "(MB_DOF+PAR_MB_NR*ALIGNED_DOFS_PER_MB)");
         Line;
         Define "GLOBAL_MB_NR"
           (PyStr ("(MACROBLOCK_NR*PAR_MB_COUNT*SEQ_MB_COUNT "
                   +:+ "+ seq_mb_number*PAR_MB_COUNT + PAR_MB_NR)"));
         Line;
         Decl (CudaShared
                 (ArrayOf (ArrayOf (POD float_type "smem_fluxes_on_faces")
                             "PAR_MB_COUNT")
                    "ALIGNED_FACE_DOFS_PER_MB"));
         Line;
         FunctionBody f_decl f_body ] in
  lift_mat ← gpu_lift_mat discr is_lift;
  Ok {| smem_source := Module cmod;
        smem_texrefs := "lift_mat_tex"
                        :: (if is_lift then ["inverse_jacobians_tex"] else []);
        lift_mat_tex_array := lift_mat |}.

(** The stores into the output buffer: the [Assign] nodes of a tree whose
    left-hand side is an element of [flux]. *)
Definition is_flux_store (lvalue : string) : bool :=
  String.prefix "flux[" lvalue.

Fixpoint flux_stores (c : cgen) : list (string * string) :=
  match c with
  | Assign lvalue rvalue =>
      if is_flux_store lvalue then [(lvalue, rvalue)] else []
  | If _ then_ => flux_stores then_
  | For _ _ _ body => flux_stores body
  | Block contents | LogBlock _ contents | Module contents
  | FunctionBody _ contents => flat_map flux_stores contents
  | MultipleIfs branches => flat_map (fun cb => flux_stores cb.2) branches
  | _ => []
  end.

(** ** A rational instance of the library, for evaluation

    Stand-ins over [Q] for the imported functions, used to run the
    definitions on small inputs: the Gauss-Lobatto points are the ones of
    orders 1 and 2 (which are equidistant), the bases are monomials, the
    inverse is the one of a 1 x 1 matrix, affine maps are identified on
    points of dimension 0 and 1. *)

Definition Q_interpolate (xs ys : list Q) (x : Q) : Q :=
  fold_left Qplus
    (imap (fun j yj =>
             fold_left Qmult
               (imap (fun k xk =>
                        if Nat.eqb j k then 1%Q
                        else ((x - xk) / (nth j xs 0%Q - xk))%Q) xs)
               yj)
          ys)
    0%Q.

Definition Q_vec_eqb (a b : list Q) : bool :=
  bool_decide (length a = length b)
  && forallb (fun xy => Qeq_bool (fst xy) (snd xy)) (zip a b).

Definition Q_find_index (x : list Q) (nodes : list (list Q)) : result Z :=
  match list_find (fun y => Q_vec_eqb x y = true) nodes with
  | Some (i, _) => Ok (Z.of_nat i)
  | None => Raise AssertionError
  end.

Definition Q_identify_affine_map (from_points to_points : list (list Q))
  : result (list Q -> list Q) :=
  match from_points, to_points with
  | [[]], [[]] => Ok (fun x => x)
  | [[a]; [b]], [[c]; [d]] =>
      if Qeq_bool a b then Raise LinAlgError
      else Ok (fun x => map (fun xi => (c + (xi - a) * (d - c) / (b - a))%Q) x)
  | _, _ => Raise LinAlgError
  end.

#[global] Instance Q_lib : HedgeLib Q := {
  legendre_gauss_lobatto_points N := linspace (-1)%Q 1%Q (N + 1);
  newton_interpolation_function := Q_interpolate;
  normalize v := vdiv v (fsqrt (dot_row_col v v));
  affine_map_call m b x := vadd (map (fun r => dot_row_col r x) m) b;
  vector_legendre_function n x := Qpower (nth 0 x 0%Q) n;
  triangle_basis_function i j x :=
    (Qpower (nth 0 x 0) i * Qpower (nth 1 x 0) j)%Q;
  tetrahedron_basis_function i j k x :=
    (Qpower (nth 0 x 0) i * Qpower (nth 1 x 0) j * Qpower (nth 2 x 0) k)%Q;
  generic_vandermonde nodes fs := map (fun x => map (fun f => f x) fs) nodes;
  la_inv m :=
    match m with
    | [[a]] => if Qeq_bool a 0 then Raise LinAlgError else Ok [[Qinv a]]
    | _ => Raise LinAlgError
    end;
  identify_affine_map := Q_identify_affine_map;
  find_index_map_from_node_sets a b := mapM (fun x => Q_find_index x b) a;
}.

(** ** Notions used in the statements *)

(** The binomial coefficient, by Pascal's rule. *)
Fixpoint binomial (n k : nat) : nat :=
  match k, n with
  | O, _ => 1
  | S _, O => 0
  | S k', S n' => binomial n' k' + binomial n' (S k')
  end.

(** The element has fewer than [2^53] nodes: [node_count()] computes their
    number in a double, and the doubles hold every whole number up to
    [2^53]. *)
Definition node_count_fits (self : ldis) : Prop :=
  Z.of_nat (binomial (Z.to_nat (order self) + dimensions self)
                     (dimensions self))
  < 2 ^ 53.

(** The four assertions [abs(numpy.dot(directions[0], directions[1])) <
    1e-16] of the tetrahedron's node construction, one per face: they
    depend only on the arithmetic and on [normalize]. *)
Definition tetrahedron_directions_orthogonal `{FloatOps F, HedgeLib F}
  : bool :=
  match (vertices ← mapM tetrahedron_barycentric_to_equilateral
                       (wandering_element 4 (fint 1) (fint 0));
         face_vertices Tetrahedron vertices) with
  | Ok faces_vertices =>
      forallb (fun vs =>
                 match vs with
                 | [v1; v2; v3] =>
                     fltb (fabs (dot_row_col
                                   (normalize (vsub v2 v1))
                                   (normalize
                                      (vsub v3 (vdiv (vadd v1 v2) (fint 2))))))
                          (lit 1e-16)
                 | _ => false
                 end)
              faces_vertices
  | Raise _ => false
  end.

(** The test [abs(denom) > 1e-12] of the loop. *)
Definition exceeds_clamp `{FloatOps F} (denom : F) : Prop :=
  fgtb (fabs denom) (lit 1e-12) = true.

(** The value a memoized matrix method computes, by the name under which
    the decorator stores it. *)
Definition method_value `{FloatOps F, HedgeLib F} (self : ldis)
  (name : string) : option (result (list (list F))) :=
  if String.eqb name "vandermonde" then Some (vandermonde (M:=result) self)
  else if String.eqb name "inverse_mass_matrix"
  then Some (inverse_mass_matrix (M:=result) self)
  else if String.eqb name "face_vandermonde"
  then Some (face_vandermonde (M:=result) self)
  else if String.eqb name "face_mass_matrix"
  then Some (face_mass_matrix (M:=result) self)
  else if String.eqb name "multi_face_mass_matrix"
  then Some (multi_face_mass_matrix (M:=result) self)
  else if String.eqb name "lifting_matrix"
  then Some (lifting_matrix (M:=result) self)
  else None.

(** A cache that an object can have: every entry is the value its method
    computes.  The cache of a new object is empty. *)
Definition cache_ok `{FloatOps F, HedgeLib F} (self : ldis)
  (c : gmap string (list (list F))) : Prop :=
  forall name v, c !! name = Some v -> method_value self name = Some (Ok v).

(** A computation on the cache agrees with a value: from a cache the object
    can have it returns that value and leaves such a cache, or raises the
    same exception. *)
Definition agrees `{FloatOps F, HedgeLib F} {A} (self : ldis)
  (mc : cached F A) (mp : result A) : Prop :=
  forall c, cache_ok self c ->
    match mp with
    | Ok v => exists c', mc c = Ok (v, c') /\ cache_ok self c'
    | Raise e => mc c = Raise e
    end.

(** A row of the matrix on the device comes from a row of [mat]: the row,
    padded with zeros and converted to the float type of the plan. *)
Definition row_of_matrix `{FloatOps F} (fplan : flux_plan F)
  (mat : list (list F)) (row : list F) : Prop :=
  exists r extra, r ∈ mat
                  /\ row = map (astype fplan) (r ++ replicate extra (fint 0)).

(** Concrete elements used in the examples. *)
Definition interval_of_order (o : Z) : ldis :=
  {| cls := IntervalDiscretization; order := o; fancy_node_ordering := false |}.
Definition triangle_of_order (o : Z) : ldis :=
  {| cls := TriangleDiscretization; order := o; fancy_node_ordering := false |}.
Definition tetrahedron_of_order (o : Z) : ldis :=
  {| cls := TetrahedronDiscretization; order := o;
     fancy_node_ordering := false |}.

(** A small plan over an interval of order 1, used in the examples. *)
Definition example_discr : discretization Q :=
  {| discr_dimensions := 1;
     discr_flux_plan :=
       {| float_type := float32;
          float_size := 4;
          astype := fun x => x;
          dofs_per_el := 2;
          faces_per_el := 2;
          dofs_per_face := 1;
          face_dofs_per_el := 2;
          fplan_microblock := {| aligned_floats := 16; elements := 4 |};
          aligned_face_dofs_per_microblock := 16;
          flux_lifting_plan :=
            {| chunk_size := 3;
               chunks_per_microblock := 3;
               lplan_parallelism := {| p := 2; s := 2 |};
               max_elements_touched_by_chunk := 2 |};
          plan_ldis := interval_of_order 1 |};
     align_dtype := fun n size => 4 * ((n + 3) `div` 4);
     plan_parallelism := {| p := 2; s := 1 |} |}.

(** The sum of the entries of an index tuple. *)
Definition tuple_sum (t : list Z) : Z := foldr Z.add 0 t.

(** An index tuple of an element of [d] dimensions and order [n]: [d]
    non-negative integers whose sum is at most [n]. *)
Definition index_tuple (d : nat) (n : Z) (t : list Z) : Prop :=
  length t = d /\ Forall (fun x => 0 <= x) t /\ tuple_sum t <= n.

(** A triangle with the fancy node ordering, for the examples. *)
Definition fancy_triangle_of_order (o : Z) : ldis :=
  {| cls := TriangleDiscretization; order := o; fancy_node_ordering := true |}.

(** The tuples of the vertices, as [vertex_indices] lists them. *)
Definition vertex_tuples (self : ldis) : list (list Z) :=
  replicate (dimensions self) 0
  :: wandering_element (dimensions self) (order self) 0.

(** [face_idx in self.faces_for_node_tuple(node_tup)] *)
Definition on_face (self : ldis) (face_idx : Z) (node_tup : list Z) : Prop :=
  exists faces, faces_for_node_tuple self node_tup = Ok faces
                /\ face_idx ∈ faces.

(** The faces of a node tuple, none when [faces_for_node_tuple] raises. *)
Definition node_faces (self : ldis) (node_tup : list Z) : list Z :=
  match faces_for_node_tuple self node_tup with
  | Ok faces => faces
  | Raise _ => []
  end.

(** The entry [m[i, j]] of a two-dimensional array. *)
Definition entry {F} (m : list (list F)) (i j : nat) : option F :=
  r ← m !! i; r !! j.

(** A two-dimensional array of shape [(h, w)]. *)
Definition has_shape {F} (m : list (list F)) (h w : nat) : Prop :=
  length m = h /\ Forall (fun r => length r = w) m.

(** The array that [gpu_liftmat] cuts into chunks: [elements] copies of
    [mat] stacked, with zero columns appended up to [columns]. *)
Definition stacked_liftmat `{FloatOps F} (fplan : flux_plan F) (columns : Z)
  (mat : list (list F)) : list (list F) :=
  let vstacked_matrix :=
    vstack_copies (Z.to_nat (elements (fplan_microblock fplan))) mat in
  if Z.of_nat (ncols vstacked_matrix) <? columns
  then hstack_zeros vstacked_matrix
         (Z.to_nat (columns - Z.of_nat (ncols vstacked_matrix)))
  else vstacked_matrix.

(** A plan with one degree of freedom per chunk, used in the examples. *)
Definition example_single_dof_plan : flux_plan Q :=
  {| float_type := float32;
     float_size := 4;
     astype := fun x => x;
     dofs_per_el := 2;
     faces_per_el := 2;
     dofs_per_face := 1;
     face_dofs_per_el := 2;
     fplan_microblock := {| aligned_floats := 16; elements := 4 |};
     aligned_face_dofs_per_microblock := 16;
     flux_lifting_plan :=
       {| chunk_size := 1;
          chunks_per_microblock := 8;
          lplan_parallelism := {| p := 2; s := 2 |};
          max_elements_touched_by_chunk := 2 |};
     plan_ldis := interval_of_order 1 |}.

(** *** Quadrature *)

(** [range(start, stop)] *)
Definition py_range2 (start stop : Z) : list Z :=
  map (fun i => start + i) (py_range (stop - start)).

(** [PkSimplexDiscretization.QuadratureInfo]: the attributes that
    [__init__] sets, the points and weights being the ones that
    [get_simplex_cubature] returned for the volume and for the faces. *)
Record QuadratureInfo (F : Type) : Type := {
  qi_ldis : ldis;
  exact_to_degree : Z;
  volume_nodes : list (list F);
  volume_weights : list F;
  face_nodes : list (list F);
  face_weights : list F;
}.
Arguments qi_ldis {F} _.
Arguments exact_to_degree {F} _.
Arguments volume_nodes {F} _.
Arguments volume_weights {F} _.
Arguments face_nodes {F} _.
Arguments face_weights {F} _.

(** [QuadratureInfo.node_count], [face_count] and [face_node_count] *)
Definition QuadratureInfo_node_count {F} (self : QuadratureInfo F) : Z :=
  Z.of_nat (length (volume_nodes self)).

Definition QuadratureInfo_face_count {F} (self : QuadratureInfo F)
  : result Z :=
  face_count (qi_ldis self).

Definition QuadratureInfo_face_node_count {F} (self : QuadratureInfo F) : Z :=
  Z.of_nat (length (face_nodes self)).

(** [QuadratureInfo.face_indices] *)
Definition QuadratureInfo_face_indices {F} (self : QuadratureInfo F)
  : result (list (list Z)) :=
  let fnc := QuadratureInfo_face_node_count self in
  fc ← face_count (qi_ldis self);
  Ok (map (fun face_idx => py_range2 (fnc * face_idx) (fnc * (face_idx + 1)))
          (py_range fc)).

(** [QuadratureInfo.get_face_index_shuffle_lookup_map] and
    [get_face_index_shuffle_to_match] *)
Definition QuadratureInfo_get_face_index_shuffle_lookup_map
  `{FloatOps F, HedgeLib F} (self : QuadratureInfo F)
  : result (gmap (list Z) FaceIndexShuffle) :=
  get_face_index_shuffle_lookup_map_for_nodes (qi_ldis self) (face_nodes self).

Definition QuadratureInfo_get_face_index_shuffle_to_match
  `{FloatOps F, HedgeLib F} (self : QuadratureInfo F)
  (face_1_vertices face_2_vertices : list Z) : result FaceIndexShuffle :=
  lookup_map ← QuadratureInfo_get_face_index_shuffle_lookup_map self;
  get_face_index_shuffle_backend face_1_vertices face_2_vertices lookup_map.

(** A quadrature rule on a triangle with three face nodes, used in the
    examples. *)
Definition example_quadrature : QuadratureInfo Q :=
  {| qi_ldis := triangle_of_order 1;
     exact_to_degree := 2;
     volume_nodes := [];
     volume_weights := [];
     face_nodes := [[-1]; [0]; [1]]%Q;
     face_weights := [1; 1; 1]%Q |}.

(** A quadrature rule on an interval, whose faces are points. *)
Definition example_interval_quadrature : QuadratureInfo Q :=
  {| qi_ldis := interval_of_order 1;
     exact_to_degree := 1;
     volume_nodes := [[0]]%Q;
     volume_weights := [2]%Q;
     face_nodes := [[]];
     face_weights := [1]%Q |}.

(** *** Submeshes *)

(** [IntervalDiscretization.get_submesh_indices] *)
Definition interval_get_submesh_indices (self : ldis) : list (list Z) :=
  map (fun i => [i; i + 1]) (py_range (order self)).

(** [TriangleDiscretization.get_submesh_indices] *)
Definition triangle_get_submesh_indices (self : ldis)
  : result (list (list Z)) :=
  node_tups ← node_tuples self;
  let node_dict := node_tup_to_idx node_tups in
  foldM (fun result nt =>
           match nt with
           | [i; j] =>
               result ←
                 (if i + j <? order self
                  then a ← py_getitem node_dict [i; j];
                       b ← py_getitem node_dict [i + 1; j];
                       c ← py_getitem node_dict [i; j + 1];
                       Ok (result ++ [[a; b; c]])
                  else Ok result);
               if i + j <? order self - 1
               then a ← py_getitem node_dict [i + 1; j + 1];
                    b ← py_getitem node_dict [i; j + 1];
                    c ← py_getitem node_dict [i + 1; j];
                    Ok (result ++ [[a; b; c]])
               else Ok result
           | _ => Raise ValueError
           end)
        node_tups [].

(** [add_tuples] and [try_add_tet] of
    [TetrahedronDiscretization.get_submesh_indices]: a [KeyError] of one of
    the four lookups leaves the result as it is. *)
Definition add_tuples (a b : list Z) : list Z := zip_with Z.add a b.

Definition try_add_tet (node_dict : gmap (list Z) Z) (current : list Z)
  (res : list (list Z)) (d1 d2 d3 d4 : list Z) : result (list (list Z)) :=
  match mapM (py_getitem node_dict)
          [add_tuples current d1; add_tuples current d2;
           add_tuples current d3; add_tuples current d4] with
  | Ok tet => Ok (res ++ [tet])
  | Raise KeyError => Ok res
  | Raise e => Raise e
  end.

(** [TetrahedronDiscretization.get_submesh_indices] *)
Definition tetrahedron_get_submesh_indices (self : ldis)
  : result (list (list Z)) :=
  node_tups ← node_tuples self;
  let node_dict := node_tup_to_idx node_tups in
  foldM (fun result current =>
           let try_add_tet := try_add_tet node_dict current in
           result ← try_add_tet result [0; 0; 0] [1; 0; 0] [0; 1; 0] [0; 0; 1];
           result ← try_add_tet result [1; 0; 1] [1; 0; 0] [0; 0; 1] [0; 1; 0];
           result ← try_add_tet result [1; 0; 1] [0; 1; 1] [0; 1; 0] [0; 0; 1];
           result ← try_add_tet result [1; 0; 0] [0; 1; 0] [1; 0; 1] [1; 1; 0];
           result ← try_add_tet result [0; 1; 1] [0; 1; 0] [1; 1; 0] [1; 0; 1];
           try_add_tet result [0; 1; 1] [1; 1; 1] [1; 0; 1] [1; 1; 0])
        node_tups [].

Definition get_submesh_indices (self : ldis) : result (list (list Z)) :=
  match cls self with
  | IntervalDiscretization => Ok (interval_get_submesh_indices self)
  | TriangleDiscretization => triangle_get_submesh_indices self
  | TetrahedronDiscretization => tetrahedron_get_submesh_indices self
  end.

(** The simplices that [get_submesh_indices] adds at one node tuple, by the
    offsets of their corners: the number of each corner is looked up in
    [node_dict], and a simplex is added when all its corners are node
    tuples of the element. *)
Definition submesh_simplices (node_dict : gmap (list Z) Z) (n : Z)
  (patterns : list (list (list Z))) (current : list Z) : list (list Z) :=
  flat_map
    (fun ds =>
       if decide (Forall (fun d => tuple_sum current + tuple_sum d <= n) ds)
       then [map (fun d => default 0 (node_dict !! add_tuples current d)) ds]
       else [])
    patterns.

Definition triangle_patterns : list (list (list Z)) :=
  [ [[0; 0]; [1; 0]; [0; 1]];
    [[1; 1]; [0; 1]; [1; 0]] ].

Definition tetrahedron_patterns : list (list (list Z)) :=
  [ [[0; 0; 0]; [1; 0; 0]; [0; 1; 0]; [0; 0; 1]];
    [[1; 0; 1]; [1; 0; 0]; [0; 0; 1]; [0; 1; 0]];
    [[1; 0; 1]; [0; 1; 1]; [0; 1; 0]; [0; 0; 1]];
    [[1; 0; 0]; [0; 1; 0]; [1; 0; 1]; [1; 1; 0]];
    [[0; 1; 1]; [0; 1; 0]; [1; 1; 0]; [1; 0; 1]];
    [[0; 1; 1]; [1; 1; 1]; [1; 0; 1]; [1; 1; 0]] ].

(** A computation on the cache that keeps what is stored: every entry of
    the cache it starts from is still there, unchanged, when it returns. *)
Definition keeps_cache {F A} (mc : cached F A) : Prop :=
  forall c a c', mc c = Ok (a, c') ->
                 forall name v, c !! name = Some v -> c' !! name = Some v.

(** The multiply-add statements ["result += ..."] of a piece of generated
    code, in their order. *)
Definition mul_add_statements (code : list cgen) : list string :=
  omap (fun c =>
          match c with
          | Statement text =>
              if String.prefix "result += " text then Some text else None
          | _ => None
          end)
       code.

(** The node tuple of a point of face [f]: [b] is the index tuple of the
    point in the element of one dimension less that the face is. *)
Definition face_node_tuple (self : ldis) (f : nat) (b : list Z) : list Z :=
  match cls self, f, b with
  | IntervalDiscretization, O, _ => [0]
  | IntervalDiscretization, _, _ => [order self]
  | TriangleDiscretization, 0%nat, [m] => [m; 0]
  | TriangleDiscretization, 1%nat, [m] => [m; order self - m]
  | TriangleDiscretization, _, [n] => [0; n]
  | TetrahedronDiscretization, 0%nat, [m; n] => [m; n; 0]
  | TetrahedronDiscretization, 1%nat, [m; o] => [m; 0; o]
  | TetrahedronDiscretization, 2%nat, [n; o] => [0; n; o]
  | TetrahedronDiscretization, _, [m; n] => [m; n; order self - m - n]
  | _, _, _ => b
  end.

(** * Properties *)

(** ** The result monad *)

Lemma bind_Ok_inv {A B} (m : result A) (f : A -> result B) (b : B) :
  (m ≫= f) = Ok b -> exists a, m = Ok a /\ f a = Ok b.
Proof. destruct m as [a|e]; simpl; [eauto | discriminate]. Qed.

Ltac inv_bind H :=
  let a := fresh "a" in
  let Ha := fresh "Ha" in
  apply bind_Ok_inv in H; destruct H as (a & Ha & H).

Lemma mapM_result_length {A B} (f : A -> result B) (l : list A) (k : list B) :
  mapM f l = Ok k -> length k = length l.
Proof.
  revert k; induction l as [|x l IH]; intros k; simpl.
  - intros [= <-]; reflexivity.
  - intros Hk. inv_bind Hk. inv_bind Hk. injection Hk as <-.
    simpl; f_equal; eauto.
Qed.

Lemma mapM_result_Ok {A B} (f : A -> result B) (l : list A) :
  Forall (fun x => exists y, f x = Ok y) l -> exists k, mapM f l = Ok k.
Proof.
  induction 1 as [|x l [y Hy] _ [k Hk]]; simpl.
  - eexists; reflexivity.
  - rewrite Hy; simpl. rewrite Hk; simpl. eexists; reflexivity.
Qed.

(** ** Interval of order 0 *)

(** C10: an interval discretization of order 0 has exactly one node, at
    coordinate 0.5 (which is not 0), and that node, of index 0, lies on both
    faces: [face_indices] is [[0], [0]]. *)
Theorem interval_order_0_single_node `{FloatOps F, HedgeLib F} :
  (self ← IntervalDiscretization_init 0; unit_nodes self) = Ok [[lit 0.5]]
  /\ interval_nodes (interval_of_order 0) = [[lit 0.5]]
  /\ length (interval_nodes (F:=F) (interval_of_order 0)) = 1%nat
  /\ (self ← IntervalDiscretization_init 0; face_indices self)
     = Ok [[0]; [0]]
  /\ ~ (lit (F:=Q) 0.5 == 0)%Q.
Proof.
  repeat split; try reflexivity.
  intros Hq; vm_compute in Hq; discriminate.
Qed.

(** ** Construction *)

(** C8 as stated fails: the interval constructor accepts the order -1 and
    returns the object; it raises nothing, and so do the other two. *)
Lemma negative_order_is_accepted :
  IntervalDiscretization_init (-1) = Ok (interval_of_order (-1))
  /\ TriangleDiscretization_init (-1) false = Ok (triangle_of_order (-1))
  /\ TetrahedronDiscretization_init (-1) = Ok (tetrahedron_of_order (-1))
  /\ ~ (exists e, IntervalDiscretization_init (-1) = Raise e).
Proof.
  repeat split; intros [e He]; discriminate.
Qed.

(** C8, amended: the three constructors check nothing; for every order,
    negative ones included, they return an object that holds the order as
    given.  Construction through [GEOMETRY_TO_LDIS] fails, with [KeyError],
    exactly for a geometry class that is not a key of the table. *)
Theorem constructors_store_any_order (o : Z) (fancy : bool) :
  (exists self, IntervalDiscretization_init o = Ok self
                /\ cls self = IntervalDiscretization /\ order self = o)
  /\ (exists self, TriangleDiscretization_init o fancy = Ok self
                   /\ cls self = TriangleDiscretization /\ order self = o
                   /\ fancy_node_ordering self = fancy)
  /\ (exists self, TetrahedronDiscretization_init o = Ok self
                   /\ cls self = TetrahedronDiscretization /\ order self = o)
  /\ (forall g, exists self, make_ldis (Some g) o = Ok self /\ order self = o)
  /\ make_ldis None o = Raise KeyError.
Proof.
  repeat split; try (eexists; repeat split; reflexivity).
  intros []; eexists; split; reflexivity.
Qed.

(** ** The tuning constant [alpha] *)

Lemma py_index_nonneg {A} (l : list A) (i : Z) :
  0 <= i < Z.of_nat (length l) ->
  exists a, l !! Z.to_nat i = Some a /\ py_index l i = Ok a.
Proof.
  intros Hi. unfold py_index.
  destruct (Z.ltb_spec i 0) as [?|_]; [lia|].
  destruct (Z.ltb_spec i 0) as [?|_]; [lia|]. simpl.
  destruct (Z.leb_spec (Z.of_nat (length l)) i) as [?|_]; [lia|].
  destruct (l !! Z.to_nat i) as [a|] eqn:Hl; [eauto|].
  apply lookup_ge_None in Hl. lia.
Qed.

Lemma py_index_beyond {A} (l : list A) (i : Z) :
  Z.of_nat (length l) <= i -> py_index l i = Raise IndexError.
Proof.
  intros Hi. unfold py_index.
  destruct (Z.ltb_spec i 0) as [?|_]; [lia|].
  destruct (Z.ltb_spec i 0) as [?|_]; [lia|]. simpl.
  destruct (Z.leb_spec (Z.of_nat (length l)) i) as [_|?]; [reflexivity|lia].
Qed.

(** C4 as stated fails for the tetrahedron: at order 16, beyond the table,
    its [alpha] is 1 and not 5/3. *)
Lemma tetrahedron_alpha_default_is_not_five_thirds :
  tetrahedron_alpha (F:=Q) (tetrahedron_of_order 16) = Ok 1%Q
  /\ triangle_alpha (F:=Q) (triangle_of_order 16) = (5 # 3)%Q
  /\ tetrahedron_alpha (F:=Q) (tetrahedron_of_order 16)
     <> Ok (fdiv (fint 5) (fint 3)).
Proof.
  repeat split. intros Heq; vm_compute in Heq; discriminate.
Qed.

(** C4, amended: for an order from 1 to 15 [alpha] is the entry [order - 1]
    of the table of the element kind; beyond the table (order >= 16) it is
    5/3 for the triangle and 1 for the tetrahedron. *)
Theorem alpha_table_and_defaults `{FloatOps F} (tri tet : ldis) (o : Z) :
  order tri = o -> order tet = o -> 1 <= o ->
  if decide (o <= 15)
  then triangle_alpha_opt !! Z.to_nat (o - 1) = Some (triangle_alpha tri)
       /\ (Ok <$> tetrahedron_alpha_opt !! Z.to_nat (o - 1))
         = Some (tetrahedron_alpha tet)
  else triangle_alpha tri = fdiv (fint 5) (fint 3)
       /\ tetrahedron_alpha tet = Ok (fint 1).
Proof.
  intros Htri Htet Hpos. destruct (decide (o <= 15)) as [Hle|Hgt].
  - assert (Hlen3 : length (triangle_alpha_opt (F:=F)) = 15%nat)
      by reflexivity.
    assert (Hlen4 : length (tetrahedron_alpha_opt (F:=F)) = 15%nat)
      by reflexivity.
    destruct (py_index_nonneg (triangle_alpha_opt (F:=F)) (o - 1))
      as (a & Ha & Hia); [rewrite Hlen3; lia|].
    destruct (py_index_nonneg (tetrahedron_alpha_opt (F:=F)) (o - 1))
      as (b & Hb & Hib); [rewrite Hlen4; lia|].
    unfold triangle_alpha, tetrahedron_alpha.
    rewrite Htri, Htet, Hia, Hib, Ha, Hb, Hlen4.
    destruct (Z.ltb_spec (o - 1) (Z.of_nat 15)) as [_|?]; [|lia].
    split; reflexivity.
  - unfold triangle_alpha, tetrahedron_alpha.
    rewrite Htri, Htet.
    rewrite py_index_beyond by (change (length _) with 15%nat; lia).
    change (length (tetrahedron_alpha_opt (F:=F))) with 15%nat.
    destruct (Z.ltb_spec (o - 1) (Z.of_nat 15)) as [?|_]; [lia|].
    split; reflexivity.
Qed.

Lemma alpha_table_and_defaults_witness :
  (triangle_alpha_opt !! 2%nat
     = Some (triangle_alpha (F:=Q) (triangle_of_order 3))
   /\ (Ok <$> tetrahedron_alpha_opt !! 2%nat)
     = Some (tetrahedron_alpha (F:=Q) (tetrahedron_of_order 3)))
  /\ (triangle_alpha (F:=Q) (triangle_of_order 20) = fdiv (fint 5) (fint 3)
      /\ tetrahedron_alpha (F:=Q) (tetrahedron_of_order 20) = Ok (fint 1)).
Proof.
  split.
  - apply (alpha_table_and_defaults (F:=Q) (triangle_of_order 3)
             (tetrahedron_of_order 3) 3); [reflexivity | reflexivity | lia].
  - apply (alpha_table_and_defaults (F:=Q) (triangle_of_order 20)
             (tetrahedron_of_order 20) 20); [reflexivity | reflexivity | lia].
Defined.

(** ** Time step factor of the tetrahedron *)

Lemma py_max_fold_elem `{FloatOps F} (rest : list F) (x : F) :
  fold_left (fun m y => if fgtb y m then y else m) rest x ∈ x :: rest.
Proof.
  revert x; induction rest as [|y rest IH]; intros x; simpl.
  - apply list_elem_of_here.
  - specialize (IH (if fgtb y x then y else x)).
    apply elem_of_cons in IH as [->|IH].
    + destruct (fgtb y x).
      * apply list_elem_of_further, list_elem_of_here.
      * apply list_elem_of_here.
    + do 2 apply list_elem_of_further. exact IH.
Qed.

(** Over the rationals [py_max] is the greatest element. *)
Lemma py_max_Q_upper_bound (xs : list Q) (m : Q) :
  py_max xs = Ok m -> Forall (fun y => (y <= m)%Q) xs.
Proof.
  destruct xs as [|x rest]; simpl; [discriminate|]. intros [= <-].
  assert (Hgen : forall (l : list Q) (a : Q),
    (a <= fold_left (fun m y => if fgtb y m then y else m) l a)%Q
    /\ Forall (fun y =>
         (y <= fold_left (fun m y => if fgtb y m then y else m) l a)%Q) l).
  { induction l as [|y l IH]; intros a; simpl.
    - split; [apply Qle_refl | constructor].
    - destruct (IH (if negb (Qle_bool y a) then y else a)) as [H1 H2].
      destruct (Qle_bool y a) eqn:Hya; simpl in *.
      + apply Qle_bool_iff in Hya.
        split; [exact H1|]. constructor; [|exact H2].
        eapply Qle_trans; eassumption.
      + assert (a <= y)%Q.
        { destruct (Qlt_le_dec a y) as [Hlt|Hle]; [apply Qlt_le_weak, Hlt|].
          apply Qle_bool_iff in Hle. congruence. }
        split; [eapply Qle_trans; eassumption|].
        constructor; assumption. }
  destruct (Hgen rest x) as [H1 H2]. constructor; assumption.
Qed.

Lemma py_max_fold_upper_bound `{FloatOps F} (P : F -> Prop)
  (rest : list F) (x : F) :
  (forall a b, P a -> P b -> fgtb a b = true -> fgtb b a = false) ->
  (forall a b c, P a -> P b -> P c ->
                 fgtb a b = false -> fgtb b c = false -> fgtb a c = false) ->
  P x -> Forall P rest ->
  Forall (fun y => fgtb y (fold_left (fun m y => if fgtb y m then y else m)
                             rest x)
                   = false)
         (x :: rest).
Proof.
  intros Hasym Htrans. revert x.
  induction rest as [|y rest IH]; intros x Hx Hrest.
  - constructor; [|constructor]. simpl.
    destruct (fgtb x x) eqn:Hxx; [|reflexivity].
    rewrite (Hasym x x Hx Hx Hxx) in Hxx. discriminate.
  - apply Forall_cons in Hrest as [Hy Hrest]. cbn [fold_left].
    set (x' := if fgtb y x then y else x).
    assert (Hx' : P x') by (subst x'; destruct (fgtb y x); assumption).
    specialize (IH x' Hx' Hrest).
    set (m := fold_left _ rest x') in *.
    assert (Hm : P m).
    { pose proof (py_max_fold_elem rest x') as Hin. fold m in Hin.
      apply elem_of_cons in Hin as [->|Hin]; [exact Hx'|].
      rewrite Forall_forall in Hrest. apply Hrest, Hin. }
    apply Forall_cons in IH as [Hx'm Hall].
    subst x'. destruct (fgtb y x) eqn:Hyx.
    + constructor; [|constructor; assumption].
      apply (Htrans x y m Hx Hy Hm); [|exact Hx'm].
      apply Hasym; assumption.
    + constructor; [exact Hx'm|]. constructor; [|exact Hall].
      apply (Htrans y x m Hy Hx Hm); assumption.
Qed.

Lemma Q_fgtb_asym (a b : Q) : fgtb a b = true -> fgtb b a = false.
Proof.
  cbn [fgtb Q_ops]. intros Hab. apply negb_true_iff in Hab.
  apply negb_false_iff, Qle_bool_iff.
  destruct (Qlt_le_dec b a) as [Hlt|Hle]; [apply Qlt_le_weak, Hlt|].
  apply Qle_bool_iff in Hle. congruence.
Qed.

Lemma Q_fgtb_trans (a b c : Q) :
  fgtb a b = false -> fgtb b c = false -> fgtb a c = false.
Proof.
  cbn [fgtb Q_ops]. rewrite !negb_false_iff, !Qle_bool_iff.
  apply Qle_trans.
Qed.

(** C5: for a tetrahedron, [dt_geometric_factor] returns |jacobian| divided
    by the maximum of the |face_jacobian|, divided by 2 exactly when the
    order is 1 or 2 (with a warning) and as it is for every other order.
    The divisor is the greatest of the |face_jacobian|: one of them, and
    none is greater, when [>] orders these values (no NaN among them).  An
    element without face jacobians makes [max] raise [ValueError], and one
    whose face jacobians are all zero makes the division raise
    [ZeroDivisionError]. *)
Theorem tetrahedron_dt_factor_halved_for_orders_1_2 `{FloatOps F}
  (self : ldis) (vertices : list (list F)) (el : element F) :
  let faces := map fabs (face_jacobians el) in
  (face_jacobians el = [] ->
   tetrahedron_dt_geometric_factor self vertices el = Raise ValueError)
  /\ (face_jacobians el <> [] ->
      (forall a b, a ∈ faces -> b ∈ faces ->
                   fgtb a b = true -> fgtb b a = false) ->
      (forall a b c, a ∈ faces -> b ∈ faces -> c ∈ faces ->
                     fgtb a b = false -> fgtb b c = false ->
                     fgtb a c = false) ->
      exists m,
        py_max faces = Ok m
        /\ m ∈ faces
        /\ Forall (fun fj => fgtb fj m = false) faces
        /\ (feqb m (fint 0) = true ->
            tetrahedron_dt_geometric_factor self vertices el
            = Raise ZeroDivisionError)
        /\ (feqb m (fint 0) = false ->
            exists warnings,
              tetrahedron_dt_geometric_factor self vertices el
              = Ok (if decide (order self = 1 \/ order self = 2)
                    then fdiv (fdiv (fabs (map_jacobian el)) m) (fint 2)
                    else fdiv (fabs (map_jacobian el)) m,
                    warnings)
              /\ (warnings = [] <-> ~ (order self = 1 \/ order self = 2)))).
Proof.
  intros faces. subst faces. unfold tetrahedron_dt_geometric_factor. split.
  - intros ->. reflexivity.
  - intros Hne Hasym Htrans.
    destruct (face_jacobians el) as [|fj rest] eqn:Hfj; [contradiction|].
    cbn [map] in *. unfold py_max.
    set (m := fold_left _ _ _).
    assert (Hm : m ∈ fabs fj :: map fabs rest) by apply py_max_fold_elem.
    assert (Hub : Forall (fun y => fgtb y m = false)
                    (fabs fj :: map fabs rest)).
    { apply (py_max_fold_upper_bound
               (fun y => y ∈ fabs fj :: map fabs rest)).
      - exact Hasym.
      - exact Htrans.
      - left.
      - apply Forall_forall. intros y Hy. right. exact Hy. }
    exists m. split; [reflexivity|]. split; [exact Hm|].
    split; [exact Hub|].
    cbn [mbind result_bind]. unfold py_fdiv. split.
    + intros ->. reflexivity.
    + intros ->. cbn [mbind result_bind].
      destruct (decide (order self = 1 \/ order self = 2)) as [Hord|Hord].
      * rewrite bool_decide_eq_true_2
          by (rewrite !elem_of_cons; tauto).
        eexists. split; [reflexivity|].
        split; [discriminate | intros Hno; contradiction].
      * rewrite bool_decide_eq_false_2
          by (rewrite !elem_of_cons, elem_of_nil; tauto).
        exists []. split; [reflexivity|]. tauto.
Qed.

Lemma tetrahedron_dt_factor_witness :
  (exists warnings,
      tetrahedron_dt_geometric_factor (tetrahedron_of_order 1) []
        {| map_jacobian := (-6)%Q; face_jacobians := [-3; 4; 2; 1]%Q |}
      = Ok ((3 # 4)%Q, warnings)
      /\ warnings <> [])
  /\ tetrahedron_dt_geometric_factor (tetrahedron_of_order 3) []
       {| map_jacobian := (-6)%Q; face_jacobians := [-3; 4; 2; 1]%Q |}
     = Ok ((3 # 2)%Q, [])
  /\ tetrahedron_dt_geometric_factor (tetrahedron_of_order 1) []
       {| map_jacobian := (-6)%Q; face_jacobians := [0; 0; 0; 0]%Q |}
     = Raise ZeroDivisionError.
Proof.
  split; [|split].
  - destruct (proj2 (tetrahedron_dt_factor_halved_for_orders_1_2 (F:=Q)
                       (tetrahedron_of_order 1) []
                       {| map_jacobian := (-6)%Q;
                          face_jacobians := [-3; 4; 2; 1]%Q |}))
      as (m & Hmax & _ & _ & _ & Hok).
    + discriminate.
    + intros a b _ _. apply Q_fgtb_asym.
    + intros a b c _ _ _. apply Q_fgtb_trans.
    + vm_compute in Hmax. injection Hmax as <-.
      destruct (Hok eq_refl) as (warnings & Heq & Hwarn).
      exists warnings. split; [exact Heq|].
      intros Hnil. apply Hwarn in Hnil. apply Hnil. left. reflexivity.
  - destruct (proj2 (tetrahedron_dt_factor_halved_for_orders_1_2 (F:=Q)
                       (tetrahedron_of_order 3) []
                       {| map_jacobian := (-6)%Q;
                          face_jacobians := [-3; 4; 2; 1]%Q |}))
      as (m & Hmax & _ & _ & _ & Hok).
    + discriminate.
    + intros a b _ _. apply Q_fgtb_asym.
    + intros a b c _ _ _. apply Q_fgtb_trans.
    + vm_compute in Hmax. injection Hmax as <-.
      destruct (Hok eq_refl) as (warnings & Heq & Hwarn).
      assert (warnings = []) as ->.
      { apply Hwarn. cbn. intros [Ho|Ho]; discriminate. }
      exact Heq.
  - destruct (proj2 (tetrahedron_dt_factor_halved_for_orders_1_2 (F:=Q)
                       (tetrahedron_of_order 1) []
                       {| map_jacobian := (-6)%Q;
                          face_jacobians := [0; 0; 0; 0]%Q |}))
      as (m & Hmax & _ & _ & Hzero & _).
    + discriminate.
    + intros a b _ _. apply Q_fgtb_asym.
    + intros a b c _ _ _. apply Q_fgtb_trans.
    + vm_compute in Hmax. injection Hmax as <-.
      apply Hzero. reflexivity.
Defined.

(** ** The blend of the tetrahedron's warped nodes *)

Lemma tetrahedron_blend_loop_divides `{FloatOps F} (bp : list F) (opp : Z)
  (fvi : list Z) (denoms : list F) (blend : F) :
  mapM (blend_denominator bp opp) fvi = Ok denoms ->
  Forall exceeds_clamp denoms ->
  tetrahedron_blend_loop bp opp fvi blend = Ok (fold_left fdiv denoms blend).
Proof.
  revert denoms blend; induction fvi as [|i fvi IH]; intros denoms blend; simpl.
  - intros [= <-] _; reflexivity.
  - intros Hd Hall. inv_bind Hd. inv_bind Hd. injection Hd as <-.
    apply Forall_cons in Hall as [Ha1 Hall].
    rewrite Ha; simpl. unfold exceeds_clamp in Ha1. rewrite Ha1.
    apply IH; assumption.
Qed.

Lemma tetrahedron_blend_loop_clamps `{FloatOps F} (bp : list F) (opp : Z)
  (pre post : list Z) (i : Z) (denoms : list F) (denom blend : F) :
  mapM (blend_denominator bp opp) pre = Ok denoms ->
  Forall exceeds_clamp denoms ->
  blend_denominator bp opp i = Ok denom ->
  ~ exceeds_clamp denom ->
  tetrahedron_blend_loop bp opp (pre ++ i :: post) blend = Ok (lit 0.5).
Proof.
  revert denoms blend; induction pre as [|j pre IH]; intros denoms blend; simpl.
  - intros _ _ Hi Hsmall. rewrite Hi; simpl.
    unfold exceeds_clamp in Hsmall.
    destruct (fgtb (fabs denom) (lit 1e-12)); [contradiction|reflexivity].
  - intros Hd Hall Hi Hsmall. inv_bind Hd. inv_bind Hd. injection Hd as <-.
    apply Forall_cons in Hall as [Ha1 Hall].
    rewrite Ha; simpl. unfold exceeds_clamp in Ha1. rewrite Ha1.
    eapply IH; eassumption.
Qed.

(** C3: in the tetrahedron's node construction the blend of a node for a
    face starts from the product of the face's barycentric coordinates
    times (1 + alpha*bp[opp])**2 and is divided, for the face vertices in
    turn, by bp[i] + 0.5*bp[opp] as long as that denominator exceeds 1e-12
    in absolute value; at the first denominator that does not, the blend is
    0.5 and the denominators of the remaining vertices are not looked at. *)
Theorem tetrahedron_blend_clamp `{FloatOps F} (alpha : F) (bp face_bp : list F)
  (opp : Z) (prod bo : F) :
  py_reduce fmul face_bp = Ok prod ->
  py_index bp opp = Ok bo ->
  let blend0 := fmul prod (fsquare (fadd (fint 1) (fmul alpha bo))) in
  (forall fvi denoms,
      mapM (blend_denominator bp opp) fvi = Ok denoms ->
      Forall exceeds_clamp denoms ->
      tetrahedron_blend alpha bp fvi opp face_bp
      = Ok (fold_left fdiv denoms blend0))
  /\ (forall pre i post denoms denom,
        mapM (blend_denominator bp opp) pre = Ok denoms ->
        Forall exceeds_clamp denoms ->
        blend_denominator bp opp i = Ok denom ->
        ~ exceeds_clamp denom ->
        tetrahedron_blend alpha bp (pre ++ i :: post) opp face_bp
        = Ok (lit 0.5)).
Proof.
  intros Hprod Hbo blend0. unfold tetrahedron_blend.
  rewrite Hprod, Hbo; simpl. split.
  - intros fvi denoms Hd Hall.
    apply tetrahedron_blend_loop_divides; assumption.
  - intros pre i post denoms denom Hd Hall Hi Hsmall.
    eapply tetrahedron_blend_loop_clamps; eassumption.
Qed.

Lemma tetrahedron_blend_clamp_witness :
  tetrahedron_blend (F:=Q) 0%Q [1 # 4; 1 # 4; 1 # 4; 1 # 4]%Q [0; 1; 2] 3
    [1 # 4; 1 # 4; 1 # 4]%Q
  = Ok (fold_left fdiv [3 # 8; 3 # 8; 3 # 8] (1 # 64))%Q
  /\ tetrahedron_blend (F:=Q) 0%Q [1 # 2; 0; 1 # 2; 0]%Q [0; 1; 2] 3
       [1 # 2; 0; 1 # 2]%Q
     = Ok (1 # 2)%Q.
Proof.
  split.
  - refine (proj1 (tetrahedron_blend_clamp (F:=Q) 0%Q
              [1 # 4; 1 # 4; 1 # 4; 1 # 4]%Q [1 # 4; 1 # 4; 1 # 4]%Q 3
              (1 # 64)%Q (1 # 4)%Q _ _) [0; 1; 2] [3 # 8; 3 # 8; 3 # 8]%Q _ _).
    + reflexivity.
    + reflexivity.
    + reflexivity.
    + repeat constructor.
  - refine (proj2 (tetrahedron_blend_clamp (F:=Q) 0%Q
              [1 # 2; 0; 1 # 2; 0]%Q [1 # 2; 0; 1 # 2]%Q 3
              0%Q 0%Q _ _) [0] 1 [2] [1 # 2]%Q 0%Q _ _ _ _).
    + reflexivity.
    + reflexivity.
    + reflexivity.
    + repeat constructor.
    + reflexivity.
    + unfold exceeds_clamp; vm_compute; discriminate.
Defined.

(** ** Face matching *)

Lemma py_dict_list_to_map `{Countable K} {V} (pairs : list (K * V)) :
  py_dict pairs = list_to_map (reverse pairs).
Proof.
  unfold py_dict, list_to_map.
  generalize (∅ : gmap K V) as m.
  induction pairs as [|kv pairs IH]; intros m; simpl; [reflexivity|].
  rewrite reverse_cons, foldr_app; simpl. apply IH.
Qed.

Lemma enumerate_values {A} (g : nat -> Z) (l : list A) :
  (map (fun p : Z * A => (p.2, p.1)) (imap (fun i a => (g i, a)) l)).*1 = l.
Proof.
  revert g; induction l as [|a l IH]; intros g; [reflexivity|].
  rewrite imap_cons; simpl. f_equal. apply (IH (g ∘ S)).
Qed.

Lemma idx_normalize_map_None (face_1_vertices : list Z) (v : Z) :
  py_dict (map (fun p : Z * Z => (p.2, p.1)) (py_enumerate face_1_vertices))
    !! v = None
  <-> v ∉ face_1_vertices.
Proof.
  rewrite py_dict_list_to_map, <- not_elem_of_list_to_map.
  rewrite fmap_reverse, elem_of_reverse.
  unfold py_enumerate. rewrite enumerate_values. reflexivity.
Qed.

Lemma idx_normalize_map_lookup (face_1_vertices : list Z) (i : nat) (v : Z) :
  NoDup face_1_vertices ->
  face_1_vertices !! i = Some v ->
  py_dict (map (fun p : Z * Z => (p.2, p.1)) (py_enumerate face_1_vertices))
    !! v = Some (Z.of_nat i).
Proof.
  intros Hnd Hi. rewrite py_dict_list_to_map.
  apply elem_of_list_to_map_1.
  - rewrite fmap_reverse, reverse_Permutation.
    unfold py_enumerate. rewrite enumerate_values. exact Hnd.
  - apply elem_of_reverse.
    apply (list_elem_of_fmap_2 (fun p : Z * Z => (p.2, p.1))
             _ (Z.of_nat i, v)).
    unfold py_enumerate.
    apply (elem_of_lookup_imap_2 (fun i a => (Z.of_nat i, a))). exact Hi.
Qed.

Lemma py_getitem_Some `{Countable K} {V} (d : gmap K V) (k : K) (x : V) :
  d !! k = Some x -> py_getitem d k = Ok x.
Proof. intros Hk; unfold py_getitem; rewrite Hk; reflexivity. Qed.

Lemma py_getitem_None `{Countable K} {V} (d : gmap K V) (k : K) :
  d !! k = None -> py_getitem d k = Raise KeyError.
Proof. intros Hk; unfold py_getitem; rewrite Hk; reflexivity. Qed.

(** The lookups of a tuple of keys: all found, or [KeyError] at the first
    one that is missing. *)
Lemma mapM_getitem_Ok `{Countable K} {V} (d : gmap K V) (keys : list K) :
  Forall (fun k => is_Some (d !! k)) keys ->
  exists t, mapM (py_getitem d) keys = Ok t
            /\ Forall2 (fun k x => d !! k = Some x) keys t.
Proof.
  induction 1 as [|k keys [x Hx] _ (t & Ht & Hall)]; simpl.
  - exists []; split; [reflexivity | constructor].
  - rewrite (py_getitem_Some _ _ _ Hx); simpl. rewrite Ht; simpl.
    exists (x :: t); split; [reflexivity | constructor; assumption].
Qed.

Lemma mapM_getitem_raises `{Countable K} {V} (d : gmap K V) (keys : list K)
  (e : exn) :
  mapM (py_getitem d) keys = Raise e ->
  e = KeyError /\ exists k, k ∈ keys /\ d !! k = None.
Proof.
  induction keys as [|k keys IH]; simpl; [discriminate|].
  destruct (d !! k) as [x|] eqn:Hk.
  - rewrite (py_getitem_Some _ _ _ Hk); simpl.
    destruct (mapM (py_getitem d) keys) as [t|e'] eqn:Ht; simpl;
      [discriminate|].
    intros [= <-]. destruct (IH eq_refl) as (-> & k' & Hin & Hnone).
    split; [reflexivity|]. exists k'; split; [right; exact Hin | exact Hnone].
  - rewrite (py_getitem_None _ _ Hk); simpl. intros [= <-].
    split; [reflexivity|]. exists k; split; [left | exact Hk].
Qed.

Lemma mapM_getitem_missing `{Countable K} {V} (d : gmap K V) (keys : list K)
  (k : K) :
  k ∈ keys -> d !! k = None -> mapM (py_getitem d) keys = Raise KeyError.
Proof.
  intros Hin Hnone.
  destruct (mapM (py_getitem d) keys) as [t|e] eqn:Ht.
  - exfalso. revert t Ht. induction Hin as [k keys|k k' keys Hin IH];
      intros t; simpl.
    + rewrite (py_getitem_None _ _ Hnone); discriminate.
    + intros Ht. inv_bind Ht. inv_bind Ht. eauto.
  - apply mapM_getitem_raises in Ht as [-> _]; reflexivity.
Qed.

Lemma get_face_index_shuffle_backend_mismatch
  (face_1_vertices face_2_vertices : list Z)
  (lookup_map : gmap (list Z) FaceIndexShuffle) :
  (exists value,
      get_face_index_shuffle_backend face_1_vertices face_2_vertices lookup_map
      = Raise (FaceVertexMismatch value))
  <-> exists v, v ∈ face_2_vertices /\ v ∉ face_1_vertices.
Proof.
  unfold get_face_index_shuffle_backend, normalize_face_2_vertices. split.
  - intros [value Hraise].
    destruct (mapM _ face_2_vertices) as [t|e] eqn:Ht; simpl in Hraise.
    + unfold py_getitem in Hraise.
      destruct (lookup_map !! t); discriminate.
    + apply mapM_getitem_raises in Ht as (_ & v & Hin & Hnone).
      exists v; split; [exact Hin|]. apply idx_normalize_map_None, Hnone.
  - intros (v & Hin & Hout). apply idx_normalize_map_None in Hout.
    rewrite (mapM_getitem_missing _ _ _ Hin Hout); simpl. eauto.
Qed.

Lemma get_face_index_shuffle_backend_present
  (face_1_vertices face_2_vertices : list Z)
  (lookup_map : gmap (list Z) FaceIndexShuffle) :
  (forall v, v ∈ face_2_vertices -> v ∈ face_1_vertices) ->
  exists key,
    Forall2 (fun v j =>
               py_dict (map (fun p : Z * Z => (p.2, p.1))
                          (py_enumerate face_1_vertices)) !! v = Some j)
            face_2_vertices key
    /\ get_face_index_shuffle_backend face_1_vertices face_2_vertices
         lookup_map
       = py_getitem lookup_map key.
Proof.
  intros Hsub.
  destruct (mapM_getitem_Ok
              (py_dict (map (fun p : Z * Z => (p.2, p.1))
                          (py_enumerate face_1_vertices)))
              face_2_vertices) as (key & Hkey & Hall).
  { apply Forall_forall. intros v Hv. apply not_eq_None_Some.
    intros Hnone. apply idx_normalize_map_None in Hnone.
    apply Hnone, Hsub, Hv. }
  exists key; split; [exact Hall|].
  unfold get_face_index_shuffle_backend, normalize_face_2_vertices.
  rewrite Hkey; reflexivity.
Qed.

Lemma py_range_lookup (n i : nat) :
  (i < n)%nat -> py_range (Z.of_nat n) !! i = Some (Z.of_nat i).
Proof.
  intros Hi. unfold py_range. rewrite Nat2Z.id.
  change (map Z.of_nat (seq 0 n)) with (Z.of_nat <$> seq 0 n).
  rewrite list_lookup_fmap, lookup_seq_lt by exact Hi. reflexivity.
Qed.

Lemma py_range_length (n : Z) : length (py_range n) = Z.to_nat n.
Proof. unfold py_range. rewrite length_map, length_seq. reflexivity. Qed.

(** The normalized tuple of a permutation of distinct vertices is a
    permutation of [0, 1, ...]. *)
Lemma normalized_vertices_permutation
  (face_1_vertices face_2_vertices key : list Z) :
  NoDup face_1_vertices ->
  face_2_vertices ≡ₚ face_1_vertices ->
  Forall2 (fun v j =>
             py_dict (map (fun p : Z * Z => (p.2, p.1))
                        (py_enumerate face_1_vertices)) !! v = Some j)
          face_2_vertices key ->
  py_range (Z.of_nat (length face_1_vertices)) ≡ₚ key.
Proof.
  intros Hnd Hperm Hall.
  set (d := py_dict _) in Hall.
  set (pos := fun v : Z => default 0 (d !! v)).
  assert (Hkey : key = pos <$> face_2_vertices).
  { clear Hperm. induction Hall as [|v j vs js Hv _ IH]; [reflexivity|].
    simpl. f_equal; [|exact IH]. unfold pos. rewrite Hv; reflexivity. }
  assert (Hpos : pos <$> face_1_vertices
                 = py_range (Z.of_nat (length face_1_vertices))).
  { apply list_eq; intros i. rewrite list_lookup_fmap.
    destruct (face_1_vertices !! i) as [v|] eqn:Hi; simpl.
    - rewrite py_range_lookup by (eapply lookup_lt_Some; eassumption).
      unfold pos, d. rewrite (idx_normalize_map_lookup _ _ _ Hnd Hi).
      reflexivity.
    - symmetry. apply lookup_ge_None.
      rewrite py_range_length, Nat2Z.id. apply lookup_ge_None, Hi. }
  rewrite Hkey, <- Hpos. symmetry. apply fmap_Permutation, Hperm.
Qed.

Lemma foldM_insert_keys {K V} `{Countable K} {B}
  (step : gmap K V -> B -> result (gmap K V)) (key : B -> K)
  (bs : list B) (m0 m : gmap K V) :
  (forall res b res', step res b = Ok res' ->
                      exists v, res' = <[key b := v]> res) ->
  foldM step bs m0 = Ok m ->
  forall k, is_Some (m !! k) <-> k ∈ map key bs \/ is_Some (m0 !! k).
Proof.
  intros Hstep. revert m0; induction bs as [|b bs IH]; intros m0; simpl.
  - intros [= <-] k. rewrite elem_of_nil. tauto.
  - intros Hm k. inv_bind Hm.
    destruct (Hstep _ _ _ Ha) as [v ->].
    rewrite (IH _ Hm k), elem_of_cons, lookup_insert_is_Some.
    destruct (decide (key b = k)) as [->|Hne]; [tauto|].
    split; [intros [?|[?|[_ ?]]] | intros [[?|?]|?]]; auto; congruence.
Qed.

(** The keys of the lookup table are the permutations of
    [0, ..., dimensions - 1]. *)
Lemma get_face_index_shuffle_lookup_map_keys `{FloatOps F, HedgeLib F}
  (self : ldis) (m : gmap (list Z) FaceIndexShuffle) :
  get_face_index_shuffle_lookup_map self = Ok m ->
  forall k, is_Some (m !! k)
            <-> k ∈ permutations (py_range (Z.of_nat (dimensions self))).
Proof.
  unfold get_face_index_shuffle_lookup_map,
    get_face_index_shuffle_lookup_map_for_nodes.
  intros Hm k. do 9 inv_bind Hm.
  eapply (foldM_insert_keys _ (fun vp => vp)) with (k := k) in Hm.
  - rewrite Hm, map_id, lookup_empty.
    unfold generate_unique_permutations.
    split; [intros [?|[? ?]]; [assumption|discriminate] | auto].
  - intros res vp res' Hstep. do 3 inv_bind Hstep.
    injection Hstep as <-. eauto.
Qed.

(** C7 as stated fails: every vertex of (5, 5) occurs in (5, 6), yet no
    shuffle is returned for a triangle; the lookup of the normalized tuple
    (0, 0) raises [KeyError]. *)
Lemma repeated_vertex_raises_KeyError :
  (forall v : Z, v ∈ [5; 5] -> v ∈ [5; 6])
  /\ get_face_index_shuffle_to_match (F:=Q) (triangle_of_order 1)
       [5; 6] [5; 5] = Raise KeyError
  /\ ~ (exists shuffle,
          get_face_index_shuffle_to_match (F:=Q) (triangle_of_order 1)
            [5; 6] [5; 5] = Ok shuffle).
Proof.
  assert (Hrun : get_face_index_shuffle_to_match (F:=Q) (triangle_of_order 1)
                   [5; 6] [5; 5] = Raise KeyError)
    by (vm_compute; reflexivity).
  split; [|split].
  - intros v Hv. rewrite !elem_of_cons, elem_of_nil in *. tauto.
  - exact Hrun.
  - intros [shuffle Hs]. rewrite Hrun in Hs. discriminate.
Qed.

(** C7, amended: once the lookup table of the element has been built,
    [get_face_index_shuffle_to_match] raises [FaceVertexMismatch] if and
    only if some vertex of [face_2_vertices] does not occur in
    [face_1_vertices].  When every vertex occurs, it returns a shuffle or
    raises [KeyError], never [FaceVertexMismatch]; it returns a shuffle
    whenever [face_1_vertices] holds [dimensions] distinct vertices and
    [face_2_vertices] is a rearrangement of them. *)
Theorem face_vertex_mismatch_iff_unknown_vertex `{FloatOps F, HedgeLib F}
  (self : ldis) (face_1_vertices face_2_vertices : list Z)
  (lookup_map : gmap (list Z) FaceIndexShuffle) :
  get_face_index_shuffle_lookup_map self = Ok lookup_map ->
  ((exists value,
       get_face_index_shuffle_to_match self face_1_vertices face_2_vertices
       = Raise (FaceVertexMismatch value))
   <-> exists v, v ∈ face_2_vertices /\ v ∉ face_1_vertices)
  /\ ((forall v, v ∈ face_2_vertices -> v ∈ face_1_vertices) ->
      (exists shuffle,
          get_face_index_shuffle_to_match self face_1_vertices
            face_2_vertices = Ok shuffle)
      \/ get_face_index_shuffle_to_match self face_1_vertices
           face_2_vertices = Raise KeyError)
  /\ (NoDup face_1_vertices ->
      length face_1_vertices = dimensions self ->
      face_2_vertices ≡ₚ face_1_vertices ->
      exists shuffle,
        get_face_index_shuffle_to_match self face_1_vertices face_2_vertices
        = Ok shuffle).
Proof.
  intros Hmap. unfold get_face_index_shuffle_to_match. rewrite Hmap; simpl.
  split; [|split].
  - apply get_face_index_shuffle_backend_mismatch.
  - intros Hsub.
    destruct (get_face_index_shuffle_backend_present _ _ lookup_map Hsub)
      as (key & _ & ->).
    unfold py_getitem. destruct (lookup_map !! key); eauto.
  - intros Hnd Hlen Hperm.
    destruct (get_face_index_shuffle_backend_present
                face_1_vertices face_2_vertices lookup_map)
      as (key & Hkey & ->).
    { intros v Hv. rewrite <- Hperm. exact Hv. }
    pose proof (normalized_vertices_permutation _ _ _ Hnd Hperm Hkey) as Hp.
    rewrite Hlen in Hp. apply permutations_Permutation in Hp.
    apply (get_face_index_shuffle_lookup_map_keys self lookup_map Hmap) in Hp.
    destruct Hp as [shuffle Hs]. exists shuffle.
    apply py_getitem_Some, Hs.
Qed.

Lemma face_vertex_mismatch_witness :
  exists shuffle,
    get_face_index_shuffle_to_match (F:=Q) (triangle_of_order 1)
      [5; 6] [6; 5] = Ok shuffle.
Proof.
  destruct (get_face_index_shuffle_lookup_map (F:=Q) (triangle_of_order 1))
    as [m|e] eqn:Hm.
  - refine (proj2 (proj2 (face_vertex_mismatch_iff_unknown_vertex (F:=Q)
              (triangle_of_order 1) [5; 6] [6; 5] m Hm)) _ _ _).
    + repeat constructor; rewrite ?elem_of_cons, ?elem_of_nil; lia.
    + reflexivity.
    + apply Permutation_swap.
  - vm_compute in Hm. discriminate.
Defined.

(** ** Memoized matrices *)

Lemma cache_ok_empty `{FloatOps F, HedgeLib F} (self : ldis) :
  cache_ok self ∅.
Proof. intros name v Hv. rewrite lookup_empty in Hv. discriminate. Qed.

Lemma agrees_run_result `{FloatOps F, HedgeLib F} {A} (self : ldis)
  (r : result A) :
  agrees self (run_result (M:=cached F) r) r.
Proof. intros c Hc. destruct r as [a|e]; simpl; eauto. Qed.

Lemma agrees_bind `{FloatOps F, HedgeLib F} {A B} (self : ldis)
  (mc : cached F A) (mp : result A) (fc : A -> cached F B)
  (fp : A -> result B) :
  agrees self mc mp ->
  (forall a, agrees self (fc a) (fp a)) ->
  agrees self (mc ≫= fc) (mp ≫= fp).
Proof.
  intros Hm Hf c Hc. specialize (Hm c Hc).
  assert (Hrun : (mc ≫= fc) c
                 = match mc c with
                   | Ok (a, c') => fc a c'
                   | Raise e => Raise e
                   end) by reflexivity.
  rewrite Hrun. destruct mp as [a|e]; simpl.
  - destruct Hm as (c' & -> & Hc'). apply (Hf a c' Hc').
  - rewrite Hm. reflexivity.
Qed.

Lemma agrees_memoize_method `{FloatOps F, HedgeLib F} (self : ldis)
  (name : string) (bc : cached F (list (list F)))
  (bp : result (list (list F))) :
  method_value self name = Some bp ->
  agrees self bc bp ->
  agrees self (memoize_method name bc) bp.
Proof.
  intros Hname Hb c Hc. simpl.
  destruct (c !! name) as [v|] eqn:Hhit.
  - apply Hc in Hhit. rewrite Hname in Hhit. injection Hhit as ->. eauto.
  - specialize (Hb c Hc). destruct bp as [v|e].
    + destruct Hb as (c' & -> & Hc'). eexists; split; [reflexivity|].
      intros name' v' Hv'. apply lookup_insert_Some in Hv'.
      destruct Hv' as [[<- <-]|[_ Hv']]; [exact Hname | exact (Hc' _ _ Hv')].
    + rewrite Hb. reflexivity.
Qed.

Lemma vandermonde_agrees `{FloatOps F, HedgeLib F} (self : ldis) :
  agrees self (vandermonde (M:=cached F) self)
              (vandermonde (M:=result) self).
Proof.
  apply (agrees_memoize_method self "vandermonde"); [reflexivity|].
  apply agrees_run_result.
Qed.

Lemma inverse_mass_matrix_agrees `{FloatOps F, HedgeLib F} (self : ldis) :
  agrees self (inverse_mass_matrix (M:=cached F) self)
              (inverse_mass_matrix (M:=result) self).
Proof.
  apply (agrees_memoize_method self "inverse_mass_matrix"); [reflexivity|].
  apply agrees_bind; [apply vandermonde_agrees|].
  intros v. apply agrees_run_result.
Qed.

Lemma face_vandermonde_agrees `{FloatOps F, HedgeLib F} (self : ldis) :
  agrees self (face_vandermonde (M:=cached F) self)
              (face_vandermonde (M:=result) self).
Proof.
  apply (agrees_memoize_method self "face_vandermonde"); [reflexivity|].
  apply agrees_run_result.
Qed.

Lemma face_mass_matrix_agrees `{FloatOps F, HedgeLib F} (self : ldis) :
  agrees self (face_mass_matrix (M:=cached F) self)
              (face_mass_matrix (M:=result) self).
Proof.
  apply (agrees_memoize_method self "face_mass_matrix"); [reflexivity|].
  apply agrees_bind; [apply face_vandermonde_agrees|].
  intros v. apply agrees_run_result.
Qed.

Lemma multi_face_mass_matrix_agrees `{FloatOps F, HedgeLib F} (self : ldis) :
  agrees self (multi_face_mass_matrix (M:=cached F) self)
              (multi_face_mass_matrix (M:=result) self).
Proof.
  apply (agrees_memoize_method self "multi_face_mass_matrix"); [reflexivity|].
  apply agrees_bind; [apply face_mass_matrix_agrees|].
  intros v. apply agrees_run_result.
Qed.

Lemma lifting_matrix_agrees `{FloatOps F, HedgeLib F} (self : ldis) :
  agrees self (lifting_matrix (M:=cached F) self)
              (lifting_matrix (M:=result) self).
Proof.
  apply (agrees_memoize_method self "lifting_matrix"); [reflexivity|].
  apply agrees_bind; [apply inverse_mass_matrix_agrees|].
  intros im. apply agrees_bind; [apply multi_face_mass_matrix_agrees|].
  intros mfm. apply agrees_run_result.
Qed.

Lemma agrees_returns `{FloatOps F, HedgeLib F} {A} (self : ldis)
  (mc : cached F A) (mp : result A) (c c' : gmap string (list (list F)))
  (v : A) :
  agrees self mc mp -> cache_ok self c -> mc c = Ok (v, c') ->
  mp = Ok v /\ cache_ok self c'.
Proof.
  intros Hag Hc Hrun. specialize (Hag c Hc). destruct mp as [w|e].
  - destruct Hag as (c'' & Hrun' & Hc''). rewrite Hrun in Hrun'.
    injection Hrun' as -> ->. auto.
  - rewrite Hrun in Hag. discriminate.
Qed.

Lemma lifting_matrix_value `{FloatOps F, HedgeLib F} (self : ldis) :
  lifting_matrix (M:=result) self
  = (im ← inverse_mass_matrix (M:=result) self;
     mfm ← multi_face_mass_matrix (M:=result) self;
     dot im mfm).
Proof. reflexivity. Qed.

Lemma inverse_mass_matrix_value `{FloatOps F, HedgeLib F} (self : ldis) :
  inverse_mass_matrix (M:=result) self
  = (v ← vandermonde (M:=result) self; dot v (transpose v)).
Proof. reflexivity. Qed.

(** C1: for every element kind and order, on an object whose cache holds
    only values its methods computed (a new object's cache is empty), the
    matrix that [lifting_matrix()] returns is the [numpy.dot] of the matrix
    that [inverse_mass_matrix()] then returns and of the one that
    [multi_face_mass_matrix()] then returns, and the inverse mass matrix is
    the product of the Vandermonde matrix and its transpose. *)
Theorem lifting_is_inverse_mass_dot_multi_face_mass `{FloatOps F, HedgeLib F}
  (self : ldis) (c c1 : gmap string (list (list F))) (L : list (list F)) :
  cache_ok self c ->
  lifting_matrix (M:=cached F) self c = Ok (L, c1) ->
  exists V IM MFM c2 c3,
    vandermonde (M:=result) self = Ok V
    /\ dot V (transpose V) = Ok IM
    /\ inverse_mass_matrix (M:=cached F) self c1 = Ok (IM, c2)
    /\ multi_face_mass_matrix (M:=cached F) self c2 = Ok (MFM, c3)
    /\ dot IM MFM = Ok L.
Proof.
  intros Hc Hrun.
  destruct (agrees_returns self _ _ c c1 L (lifting_matrix_agrees self)
              Hc Hrun) as [Hpure Hc1].
  rewrite lifting_matrix_value in Hpure.
  apply bind_Ok_inv in Hpure as (IM & HIM & Hpure).
  apply bind_Ok_inv in Hpure as (MFM & HMFM & Hdot).
  assert (HIM' := HIM). rewrite inverse_mass_matrix_value in HIM'.
  apply bind_Ok_inv in HIM' as (V & HV & HVV).
  pose proof (inverse_mass_matrix_agrees self c1 Hc1) as Hag1.
  rewrite HIM in Hag1. destruct Hag1 as (c2 & Hrun1 & Hc2).
  pose proof (multi_face_mass_matrix_agrees self c2 Hc2) as Hag2.
  rewrite HMFM in Hag2. destruct Hag2 as (c3 & Hrun2 & Hc3).
  exists V, IM, MFM, c2, c3. repeat split; assumption.
Qed.

Lemma lifting_is_inverse_mass_dot_multi_face_mass_witness :
  exists c1 V IM MFM c2 c3,
    lifting_matrix (M:=cached Q) (interval_of_order 1) ∅
    = Ok ([[2; 0]; [0; 2]]%Q, c1)
    /\ vandermonde (M:=result) (interval_of_order 1) = Ok V
    /\ dot V (transpose V) = Ok IM
    /\ inverse_mass_matrix (M:=cached Q) (interval_of_order 1) c1
       = Ok (IM, c2)
    /\ multi_face_mass_matrix (M:=cached Q) (interval_of_order 1) c2
       = Ok (MFM, c3)
    /\ dot IM MFM = Ok [[2; 0]; [0; 2]]%Q.
Proof.
  assert (Hrun : exists c1,
             lifting_matrix (M:=cached Q) (interval_of_order 1) ∅
             = Ok ([[2; 0]; [0; 2]]%Q, c1))
    by (vm_compute; eexists; reflexivity).
  destruct Hrun as [c1 Hrun].
  destruct (lifting_is_inverse_mass_dot_multi_face_mass (F:=Q)
              (interval_of_order 1) ∅ c1 _ (cache_ok_empty _) Hrun)
    as (V & IM & MFM & c2 & c3 & HV & HVV & H1 & H2 & Hdot).
  exists c1, V, IM, MFM, c2, c3. repeat split; assumption.
Defined.

(** ** The generated kernels *)

Lemma flat_map_all_nil {A B} (f : A -> list B) (l : list A) :
  Forall (fun x => f x = []) l -> flat_map f l = [].
Proof.
  induction 1 as [|x l Hx _ IH]; simpl; [reflexivity|].
  rewrite Hx, IH. reflexivity.
Qed.

Lemma flux_stores_statements (g : Z -> string) (l : list Z) :
  flat_map flux_stores (map (fun j => Statement (g j)) l) = [].
Proof.
  apply flat_map_all_nil, Forall_forall. intros c Hc.
  apply list_elem_of_fmap in Hc as (j & -> & _). reflexivity.
Qed.

Lemma flux_stores_mat_mul_code {F} (fplan : flux_plan F) (fetch_count : Z)
  (code : list cgen) :
  get_mat_mul_code fplan fetch_count = Ok code ->
  flat_map flux_stores code = [].
Proof.
  unfold get_mat_mul_code, get_batched_fetch_mat_mul_code,
    get_direct_tex_mat_mul_code.
  destruct (decide (fetch_count = 1)) as [_|_].
  - intros Hcode. inv_bind Hcode. injection Hcode as <-.
    apply flat_map_all_nil, Forall_forall. intros c Hc.
    apply list_elem_of_In, in_flat_map in Hc as (start & _ & Hc).
    destruct Hc as [<-|[<-|[<-|Hc]]]; try reflexivity.
    apply in_app_or in Hc as [Hc|Hc].
    { apply in_map_iff in Hc as (dof & <- & _). reflexivity. }
    destruct Hc as [<-|[]]. reflexivity.
  - intros [= <-]. rewrite flat_map_app, flux_stores_statements.
    reflexivity.
Qed.

(** Each branch of the first kernel stores once into [flux]. *)
Lemma seq_mb_loop_store {F} (fplan : flux_plan F) (is_lift : bool)
  (fetch_count : Z) (branch : string * cgen) :
  seq_mb_loop fplan is_lift fetch_count = Ok branch ->
  flux_stores branch.2
  = [("flux[global_mb_dof_base+MB_DOF]",
      "result*" +:+ inv_jac_multiplier is_lift)].
Proof.
  unfold seq_mb_loop. intros Hb. inv_bind Hb. injection Hb as <-.
  cbn [snd flux_stores flat_map app].
  rewrite flat_map_app, (flux_stores_mat_mul_code _ _ _ Ha). reflexivity.
Qed.

Lemma seq_mb_loops_stores {F} (fplan : flux_plan F) (is_lift : bool)
  (fetch_counts : list Z) (branches : list (string * cgen)) :
  mapM (seq_mb_loop fplan is_lift) fetch_counts = Ok branches ->
  flat_map (fun cb : string * cgen => flux_stores cb.2) branches
  = replicate (length fetch_counts)
      ("flux[global_mb_dof_base+MB_DOF]",
       "result*" +:+ inv_jac_multiplier is_lift).
Proof.
  revert branches; induction fetch_counts as [|fc fcs IH]; intros branches;
    simpl.
  - intros [= <-]. reflexivity.
  - intros Hb. inv_bind Hb. inv_bind Hb. injection Hb as <-.
    cbn [flat_map]. rewrite (seq_mb_loop_store _ _ _ _ Ha), (IH _ Ha0).
    reflexivity.
Qed.

Lemma FluxLocalKernel_get_kernel_stores `{FloatOps F, HedgeLib F}
  (discr : discretization F) (is_lift : bool) (k : kernel) :
  FluxLocalKernel_get_kernel discr is_lift = Ok k ->
  flux_stores (source k)
  = replicate
      (Z.to_nat (max_elements_touched_by_chunk
                   (flux_lifting_plan (discr_flux_plan discr))))
      ("flux[global_mb_dof_base+MB_DOF]",
       "result*" +:+ inv_jac_multiplier is_lift)
  /\ texrefs k
     = "fluxes_on_faces_tex"
       :: (if is_lift then ["inverse_jacobians_tex"] else []).
Proof.
  unfold FluxLocalKernel_get_kernel. intros Hk.
  apply bind_Ok_inv in Hk as (liftmat_data & _ & Hk).
  apply bind_Ok_inv in Hk as (starts & _ & Hk).
  apply bind_Ok_inv in Hk as (stops & _ & Hk).
  apply bind_Ok_inv in Hk as (f_body & Hbody & Hk).
  injection Hk as <-. split; [|reflexivity].
  unfold apply_lift_mat_body in Hbody.
  apply bind_Ok_inv in Hbody as (branches & Hbranches & Hbody).
  injection Hbody as <-.
  apply seq_mb_loops_stores in Hbranches.
  rewrite length_map, py_range_length in Hbranches.
  destruct is_lift; cbn [source flux_stores flat_map app];
    cbn; rewrite Hbranches, ?app_nil_r; reflexivity.
Qed.

Lemma get_lift_code_stores {F} (given : flux_plan F) (is_lift : bool) :
  flux_stores (get_lift_code given is_lift)
  = [("flux[GLOBAL_MB_NR*ALIGNED_DOFS_PER_MB + MB_DOF]",
      "result*" +:+ smem_inv_jac_multiplier is_lift)].
Proof.
  unfold get_lift_code. cbn [flux_stores flat_map app].
  rewrite flat_map_app, flux_stores_statements. reflexivity.
Qed.

Lemma SMemFieldFluxLocalKernel_get_kernel_stores `{FloatOps F, HedgeLib F}
  (discr : discretization F) (is_lift : bool) (k : smem_kernel F) :
  SMemFieldFluxLocalKernel_get_kernel discr is_lift = Ok k ->
  flux_stores (smem_source k)
  = [("flux[GLOBAL_MB_NR*ALIGNED_DOFS_PER_MB + MB_DOF]",
      "result*" +:+ smem_inv_jac_multiplier is_lift)]
  /\ smem_texrefs k
     = "lift_mat_tex" :: (if is_lift then ["inverse_jacobians_tex"] else [])
  /\ exists mat,
       liftmat_source (discr_flux_plan discr) is_lift = Ok mat
       /\ lift_mat_tex_array k = map (map (astype (discr_flux_plan discr))) mat.
Proof.
  unfold SMemFieldFluxLocalKernel_get_kernel, gpu_lift_mat. intros Hk.
  apply bind_Ok_inv in Hk as (lift_mat & Hmat & Hk).
  apply bind_Ok_inv in Hmat as (mat & Hsrc & Hmat).
  injection Hmat as <-. injection Hk as <-.
  split; [|split; [reflexivity | eauto]].
  cbn [smem_source].
  destruct is_lift; cbn [flux_stores flat_map app];
    rewrite get_lift_code_stores; reflexivity.
Qed.

Lemma gpu_liftmat_rows `{FloatOps F, HedgeLib F} (discr : discretization F)
  (is_lift : bool) (g : GPULiftMatrices F) :
  gpu_liftmat discr is_lift = Ok g ->
  exists mat,
    liftmat_source (discr_flux_plan discr) is_lift = Ok mat
    /\ Forall (Forall (row_of_matrix (discr_flux_plan discr) mat))
         (device_memory g).1.
Proof.
  unfold gpu_liftmat. intros Hg.
  apply bind_Ok_inv in Hg as (mat & Hsrc & Hg).
  exists mat; split; [exact Hsrc|].
  destruct (elements (fplan_microblock (discr_flux_plan discr)) <=? 0);
    [discriminate|].
  apply bind_Ok_inv in Hg as (starts & _ & Hg). injection Hg as <-.
  cbn [device_memory fst].
  set (n := Z.to_nat (elements (fplan_microblock (discr_flux_plan discr)))).
  assert (Hstack : forall r, r ∈ vstack_copies n mat -> r ∈ mat).
  { intros r Hr. unfold vstack_copies in Hr.
    apply list_elem_of_In, in_concat in Hr as (m & Hm & Hr).
    apply list_elem_of_In, elem_of_replicate_inv in Hm as ->.
    apply list_elem_of_In, Hr. }
  apply Forall_forall. intros chunk Hchunk.
  apply list_elem_of_fmap in Hchunk as (start & -> & _).
  apply Forall_forall. intros row Hrow.
  apply list_elem_of_fmap in Hrow as (r' & -> & Hr').
  unfold py_slice in Hr'. apply subseteq_take, subseteq_drop in Hr'.
  destruct (_ <? _).
  - unfold hstack_zeros in Hr'.
    apply list_elem_of_fmap in Hr' as (r & -> & Hr).
    exists r, (Z.to_nat
                 ((if decide (face_dofs_per_el (discr_flux_plan discr)
                              `mod` 2 = 0)
                   then face_dofs_per_el (discr_flux_plan discr) + 1
                   else face_dofs_per_el (discr_flux_plan discr))
                  - Z.of_nat (ncols (vstack_copies n mat)))).
    split; [apply Hstack, Hr | reflexivity].
  - exists r', O. split; [apply Hstack, Hr' |].
    simpl. rewrite app_nil_r. reflexivity.
Qed.

Lemma py_range_step_slices {A} (l : list A) (fuel : nat)
  (start stop step : Z) :
  0 < step -> 0 <= start ->
  (Z.to_nat (stop - start) <= fuel)%nat ->
  Z.of_nat (length l) <= stop ->
  concat (map (fun s => py_slice l s (s + step))
              (py_range_step fuel start stop step))
  = drop (Z.to_nat start) l.
Proof.
  intros Hstep. revert start.
  induction fuel as [|fuel IH]; intros start Hstart Hfuel Hlen.
  - simpl. symmetry. apply drop_ge. lia.
  - cbn [py_range_step].
    destruct (Z.ltb_spec start stop) as [Hlt|Hge].
    + cbn [map concat]. rewrite IH by lia.
      unfold py_slice.
      replace (Z.to_nat (start + step - start)) with (Z.to_nat step) by lia.
      replace (Z.to_nat (start + step))
        with (Z.to_nat start + Z.to_nat step)%nat by lia.
      rewrite <- drop_drop. apply take_drop.
    + simpl. symmetry. apply drop_ge. lia.
Qed.

Lemma vstack_copies_length {F} (n : nat) (m : list (list F)) :
  length (vstack_copies n m) = (n * length m)%nat.
Proof.
  unfold vstack_copies. induction n as [|n IH]; [reflexivity|].
  simpl. rewrite length_app, IH. reflexivity.
Qed.

Lemma stacked_liftmat_length `{FloatOps F} (fplan : flux_plan F)
  (columns : Z) (mat : list (list F)) :
  length (stacked_liftmat fplan columns mat)
  = (Z.to_nat (elements (fplan_microblock fplan)) * length mat)%nat.
Proof.
  unfold stacked_liftmat, hstack_zeros. destruct (_ <? _);
    rewrite ?length_map; apply vstack_copies_length.
Qed.

(** The chunks that [gpu_liftmat] uploads, put end to end, are the stacked
    matrix, when the chunk size is positive and the matrix has at most
    [dofs_per_el()] rows. *)
Lemma gpu_liftmat_concat `{FloatOps F, HedgeLib F} (discr : discretization F)
  (is_lift : bool) (g : GPULiftMatrices F) (mat : list (list F)) :
  gpu_liftmat discr is_lift = Ok g ->
  liftmat_source (discr_flux_plan discr) is_lift = Ok mat ->
  0 < chunk_size (flux_lifting_plan (discr_flux_plan discr)) ->
  Z.of_nat (nrows mat) <= dofs_per_el (discr_flux_plan discr) ->
  concat (device_memory g).1
  = map (map (astype (discr_flux_plan discr)))
      (stacked_liftmat (discr_flux_plan discr) (matrix_columns g) mat).
Proof.
  intros Hg Hsrc Hchunk Hrows. unfold gpu_liftmat in Hg.
  set (fplan := discr_flux_plan discr) in *.
  set (c := chunk_size (flux_lifting_plan fplan)) in *.
  set (e := elements (fplan_microblock fplan)) in *.
  set (columns := if decide (face_dofs_per_el fplan `mod` 2 = 0)
                  then face_dofs_per_el fplan + 1
                  else face_dofs_per_el fplan) in *.
  rewrite Hsrc in Hg. cbn [mbind result_bind] in Hg.
  destruct (Z.leb_spec e 0) as [?|He]; [discriminate|].
  fold (stacked_liftmat fplan columns mat) in Hg.
  unfold py_range3 in Hg. rewrite decide_False in Hg by lia.
  destruct (Z.ltb_spec 0 c) as [_|?]; [|lia].
  cbn [mbind result_bind] in Hg.
  apply (f_equal (fun r => match r with
                           | Ok x => Some x
                           | Raise _ => None
                           end)) in Hg.
  cbv beta iota in Hg. apply (inj Some) in Hg. subst g.
  cbn [matrix_columns device_memory fst].
  rewrite <- (map_map (fun s => py_slice _ s (s + c))
                (map (map (astype fplan)))).
  rewrite <- concat_map. f_equal.
  apply (py_range_step_slices (stacked_liftmat fplan columns mat)
           _ 0 (e * dofs_per_el fplan) c); [lia | lia | lia |].
  rewrite stacked_liftmat_length. unfold nrows in Hrows. nia.
Qed.

(** The first kernel is generated for the matrix that [gpu_liftmat] puts
    on the device: [LIFTMAT_COLUMNS] is its number of columns. *)
Lemma FluxLocalKernel_get_kernel_liftmat `{FloatOps F, HedgeLib F}
  (discr : discretization F) (is_lift : bool) (k : kernel) :
  FluxLocalKernel_get_kernel discr is_lift = Ok k ->
  exists g cmod,
    gpu_liftmat discr is_lift = Ok g
    /\ source k = Module cmod
    /\ Define "LIFTMAT_COLUMNS" (PyInt (matrix_columns g)) ∈ cmod.
Proof.
  unfold FluxLocalKernel_get_kernel. intros Hk.
  apply bind_Ok_inv in Hk as (liftmat_data & Hdata & Hk).
  apply bind_Ok_inv in Hk as (starts & _ & Hk).
  apply bind_Ok_inv in Hk as (stops & _ & Hk).
  apply bind_Ok_inv in Hk as (f_body & _ & Hk).
  injection Hk as <-. exists liftmat_data. eexists.
  split; [exact Hdata|]. split; [reflexivity|].
  apply list_elem_of_further, elem_of_app. right.
  repeat first [apply list_elem_of_here | apply list_elem_of_further].
Qed.

Lemma inverse_jacobians_tex_bound_iff (tex : string) (is_lift : bool) :
  tex <> "inverse_jacobians_tex" ->
  "inverse_jacobians_tex"
    ∈ tex :: (if is_lift then ["inverse_jacobians_tex"] else [])
  <-> is_lift = true.
Proof.
  intros Hne. destruct is_lift; rewrite !elem_of_cons, ?elem_of_nil.
  - split; [reflexivity | auto].
  - split; [intros [Hx|[]]; congruence | discriminate].
Qed.



(** ** Node counts *)

(** C2 at order 0: for the triangle and the tetrahedron [node_count()] is 1,
    the binomial coefficient, but [unit_nodes()] returns no node list: the
    division [i / self.order] of [equidistant_barycentric_nodes] raises
    [ZeroDivisionError], whatever the imported functions compute. *)
Theorem simplex_order_0_unit_nodes_raise `{FloatOps F, HedgeLib F} :
  node_count (triangle_of_order 0) = Ok 1
  /\ unit_nodes (F:=F) (triangle_of_order 0) = Raise ZeroDivisionError
  /\ node_count (tetrahedron_of_order 0) = Ok 1
  /\ unit_nodes (F:=F) (tetrahedron_of_order 0) = Raise ZeroDivisionError
  /\ (forall fancy, exists self,
        TriangleDiscretization_init 0 fancy = Ok self
        /\ forall nodes, unit_nodes (F:=F) self <> Ok nodes).
Proof.
  split; [reflexivity|]. split; [vm_compute; reflexivity|].
  split; [reflexivity|]. split; [vm_compute; reflexivity|].
  intros fancy. eexists; split; [reflexivity|]. intros nodes.
  destruct fancy; vm_compute; discriminate.
Qed.

Lemma binomial_beyond (n k : nat) : (n < k)%nat -> binomial n k = O.
Proof.
  revert k; induction n as [|n IH]; intros [|k] Hlt; simpl; try lia.
  rewrite !IH by lia. reflexivity.
Qed.

Lemma binomial_diag (n : nat) : binomial n n = 1%nat.
Proof.
  induction n as [|n IH]; simpl; [reflexivity|].
  rewrite IH, binomial_beyond by lia. reflexivity.
Qed.

Lemma binomial_0 (n : nat) : binomial n 0 = 1%nat.
Proof. destruct n; reflexivity. Qed.

Lemma binomial_1 (n : nat) : binomial n 1 = n.
Proof.
  induction n as [|n IH]; [reflexivity|].
  change (binomial (S n) 1) with (binomial n 0 + binomial n 1)%nat.
  rewrite binomial_0, IH. lia.
Qed.

Lemma binomial_2 (n : nat) :
  (2 * binomial (S (S n)) 2 = (n + 1) * (n + 2))%nat.
Proof.
  induction n as [|n IH]; [reflexivity|].
  change (binomial (S (S (S n))) 2)
    with (binomial (S (S n)) 1 + binomial (S (S n)) 2)%nat.
  rewrite binomial_1. lia.
Qed.

Lemma binomial_3 (n : nat) :
  (6 * binomial (S (S (S n))) 3 = (n + 1) * (n + 2) * (n + 3))%nat.
Proof.
  induction n as [|n IH]; [reflexivity|].
  change (binomial (S (S (S (S n)))) 3)
    with (binomial (S (S (S n))) 2 + binomial (S (S (S n))) 3)%nat.
  pose proof (binomial_2 (S n)) as H2. lia.
Qed.

Lemma round_half_even_exact (q den : Z) :
  0 < den -> round_half_even (q * den) den = q.
Proof.
  intros Hden. unfold round_half_even.
  rewrite Z.div_mul, Z.mod_mul by lia.
  destruct (Z.ltb_spec (2 * 0) den); [reflexivity | lia].
Qed.

Lemma quotient_exponent_exact (q d : Z) :
  0 < q < 2 ^ 53 -> 0 < d -> quotient_exponent (q * d) d <= 0.
Proof.
  intros Hq Hd. unfold quotient_exponent.
  assert (Hlog : Z.log2 q <= 52).
  { assert (Z.log2 q < 53); [|lia]. apply Z.log2_lt_pow2; lia. }
  pose proof (Z.log2_mul_above q d ltac:(lia) ltac:(lia)) as Habove.
  set (k := Z.log2 (q * d) - Z.log2 d) in *.
  destruct (Z.leb_spec 0 k) as [Hk|Hk].
  - destruct (Z.ltb_spec (q * d) (d * 2 ^ k)) as [Hlt|Hge]; [lia|].
    assert (Hpow : 2 ^ k <= q) by nia.
    assert (k <= Z.log2 q); [|lia].
    apply Z.log2_le_pow2; lia.
  - destruct (_ <? _); lia.
Qed.

(** The float quotient of two integers is the exact one when that is a
    whole number below [2^53] in absolute value. *)
Lemma py_int_truediv_exact (q b : Z) :
  b <> 0 -> Z.abs q < 2 ^ 53 -> py_int_truediv (q * b) b = Ok q.
Proof.
  intros Hb Hq. unfold py_int_truediv.
  rewrite decide_False by exact Hb.
  destruct (decide (q * b = 0)) as [Hz|Hnz].
  { f_equal. nia. }
  assert (Hq0 : q <> 0) by (intros ->; lia).
  rewrite Z.abs_mul.
  pose proof (quotient_exponent_exact (Z.abs q) (Z.abs b) ltac:(lia)
                ltac:(lia)) as He.
  set (e := quotient_exponent (Z.abs q * Z.abs b) (Z.abs b)) in *.
  assert (Hsign : Z.sgn (q * b) * Z.sgn b * Z.abs q = q).
  { rewrite Z.sgn_mul.
    replace (Z.sgn q * Z.sgn b * Z.sgn b * Z.abs q)
      with ((Z.sgn b * Z.sgn b) * (Z.sgn q * Z.abs q)) by ring.
    rewrite <- Z.abs_sgn, (Z.mul_comm (Z.sgn q)), <- Z.abs_sgn.
    destruct b; try contradiction; simpl; lia. }
  destruct (Z.leb_spec 0 e) as [Hpos|Hneg].
  - assert (e = 0) as -> by lia.
    rewrite Z.pow_0_r, !Z.mul_1_r, round_half_even_exact by lia.
    destruct (Z.leb_spec (2 ^ 1024) (Z.abs q)) as [Hbig|_].
    + assert (2 ^ 53 < 2 ^ 1024) by (apply Z.pow_lt_mono_r; lia). lia.
    + f_equal. exact Hsign.
  - assert (Hp : 0 < 2 ^ (- e)) by (apply Z.pow_pos_nonneg; lia).
    replace (Z.abs q * Z.abs b * 2 ^ (- e))
      with (Z.abs q * 2 ^ (- e) * Z.abs b) by ring.
    rewrite round_half_even_exact by lia.
    rewrite Z.div_mul by lia. f_equal. exact Hsign.
Qed.

(** [node_count()] is the binomial coefficient of [order + dimensions] over
    [dimensions], for every order >= 0 of the three kinds at which that
    number is below [2^53]. *)
Lemma node_count_binomial (self : ldis) :
  0 <= order self ->
  node_count_fits self ->
  node_count self
  = Ok (Z.of_nat (binomial (Z.to_nat (order self) + dimensions self)
                           (dimensions self))).
Proof.
  intros Hpos Hfit. unfold node_count_fits in Hfit.
  unfold node_count, dimensions in *.
  set (n := Z.to_nat (order self)) in *.
  assert (Ho : order self = Z.of_nat n) by (subst n; lia).
  clearbody n. rewrite Ho. destruct (cls self).
  - change (py_range (Z.of_nat 1)) with [0].
    rewrite Nat.add_comm in Hfit |- *. change (1 + n)%nat with (S n) in *.
    rewrite binomial_1 in *.
    cbn [map py_reduce fold_left mbind result_bind].
    change (factorial 1) with 1.
    replace (Z.of_nat n + 1 + 0) with (Z.of_nat (S n) * 1) by lia.
    apply py_int_truediv_exact; lia.
  - change (py_range (Z.of_nat 2)) with [0; 1].
    rewrite (Nat.add_comm n 2) in Hfit |- *.
    change (2 + n)%nat with (S (S n)) in *.
    pose proof (binomial_2 n) as H2.
    cbn [map py_reduce fold_left mbind result_bind].
    change (factorial 2) with 2.
    replace ((Z.of_nat n + 1 + 0) * (Z.of_nat n + 1 + 1))
      with (Z.of_nat (binomial (S (S n)) 2) * 2) by lia.
    apply py_int_truediv_exact; lia.
  - change (py_range (Z.of_nat 3)) with [0; 1; 2].
    rewrite (Nat.add_comm n 3) in Hfit |- *.
    change (3 + n)%nat with (S (S (S n))) in *.
    pose proof (binomial_3 n) as H3.
    cbn [map py_reduce fold_left mbind result_bind].
    change (factorial 3) with 6.
    replace ((Z.of_nat n + 1 + 0) * (Z.of_nat n + 1 + 1)
             * (Z.of_nat n + 1 + 2))
      with (Z.of_nat (binomial (S (S (S n))) 3) * 6) by lia.
    apply py_int_truediv_exact; lia.
Qed.

(** The number of tuples generated, by Pascal's rule. *)
Lemma py_range_succ (n : nat) :
  py_range (Z.of_nat (S n)) = 0 :: map Z.succ (py_range (Z.of_nat n)).
Proof.
  unfold py_range. rewrite !Nat2Z.id. simpl. f_equal.
  rewrite <- seq_shift, !map_map. apply map_ext. intros i. lia.
Qed.

Lemma tuples_count_negative (n : Z) (d : nat) :
  n < 0 ->
  generate_nonnegative_integer_tuples_summing_to_at_most n (S d) = [].
Proof.
  intros Hn. simpl. unfold py_range.
  replace (Z.to_nat (n + 1)) with O by lia. reflexivity.
Qed.

Lemma tuples_count_zero (d : nat) :
  length (generate_nonnegative_integer_tuples_summing_to_at_most 0 d) = 1%nat.
Proof.
  induction d as [|d IH]; [reflexivity|].
  simpl. rewrite app_nil_r, length_map. exact IH.
Qed.

Lemma tuples_count_pascal (n d : nat) :
  length (generate_nonnegative_integer_tuples_summing_to_at_most
            (Z.of_nat (S n)) (S d))
  = (length (generate_nonnegative_integer_tuples_summing_to_at_most
               (Z.of_nat (S n)) d)
     + length (generate_nonnegative_integer_tuples_summing_to_at_most
                 (Z.of_nat n) (S d)))%nat.
Proof.
  cbn [generate_nonnegative_integer_tuples_summing_to_at_most].
  replace (Z.of_nat (S n) + 1) with (Z.of_nat (S (S n))) by lia.
  replace (Z.of_nat n + 1) with (Z.of_nat (S n)) by lia.
  rewrite (py_range_succ (S n)). cbn [flat_map].
  rewrite length_app, length_map, Z.sub_0_r. f_equal.
  rewrite !length_flat_map, map_map. f_equal.
  apply map_ext. intros i. rewrite !length_map.
  replace (Z.of_nat (S n) - Z.succ i) with (Z.of_nat n - i) by lia.
  reflexivity.
Qed.

Lemma tuples_count (n d : nat) :
  length (generate_nonnegative_integer_tuples_summing_to_at_most
            (Z.of_nat n) d)
  = binomial (n + d) d.
Proof.
  revert n; induction d as [|d IHd]; intros n.
  - rewrite binomial_0. reflexivity.
  - induction n as [|n IHn].
    + rewrite tuples_count_zero. symmetry. apply binomial_diag.
    + rewrite tuples_count_pascal, IHd, IHn.
      change (binomial (S n + S d) (S d))
        with (binomial (n + S d) d + binomial (n + S d) (S d))%nat.
      replace (S n + d)%nat with (n + S d)%nat by lia.
      reflexivity.
Qed.

Lemma tuples_length (n : Z) (d : nat) :
  Forall (fun t => length t = d)
    (generate_nonnegative_integer_tuples_summing_to_at_most n d).
Proof.
  revert n; induction d as [|d IH]; intros n; simpl.
  - repeat constructor.
  - apply Forall_forall. intros t Ht.
    apply list_elem_of_In, in_flat_map in Ht as (i & _ & Ht).
    apply in_map_iff in Ht as (base & <- & Hbase).
    rewrite length_app; simpl.
    pose proof (IH (n - i)) as Hall.
    rewrite Forall_forall in Hall.
    rewrite (Hall base) by (apply list_elem_of_In, Hbase). lia.
Qed.

(** The node tuples are as many as [node_count()] says, for every order
    >= 0 with fewer than [2^53] nodes (with the default node ordering of the
    triangle). *)
Lemma node_tuples_count (self : ldis) :
  0 <= order self ->
  node_count_fits self ->
  (cls self = TriangleDiscretization -> fancy_node_ordering self = false) ->
  exists node_tups,
    node_tuples self = Ok node_tups
    /\ node_count self = Ok (Z.of_nat (length node_tups)).
Proof.
  intros Hpos Hfit Hfancy. rewrite (node_count_binomial self Hpos Hfit).
  unfold node_tuples, triangle_node_tuples, dimensions.
  set (n := Z.to_nat (order self)).
  assert (Ho : order self = Z.of_nat n) by (subst n; lia).
  destruct (cls self); [| rewrite (Hfancy eq_refl) |];
    simpl; eexists; (split; [reflexivity|]); do 2 f_equal.
  - unfold interval_node_tuples.
    rewrite length_map, py_range_length, Nat.add_comm.
    change (1 + n)%nat with (S n). rewrite binomial_1. lia.
  - rewrite Ho. symmetry. apply (tuples_count n 2).
  - unfold tetrahedron_node_tuples. rewrite Ho. symmetry.
    apply (tuples_count n 3).
Qed.

Lemma TriangleWarper_init_loop_info `{FloatOps F, HedgeLib F} (a : F)
  (o : Z) :
  exists w e1 e2 e3,
    TriangleWarper_init a o = Ok w
    /\ loop_info w = [([0; 1], e1, 2); ([1; 2], e2, 0); ([0; 2], e3, 1)].
Proof. do 4 eexists. split; reflexivity. Qed.

Lemma TriangleWarper_call_Ok `{FloatOps F} (w : TriangleWarper F)
  (e1 e2 e3 : list F) (x y z : F) :
  loop_info w = [([0; 1], e1, 2); ([1; 2], e2, 0); ([0; 2], e3, 1)] ->
  exists shift, TriangleWarper_call w [x; y; z] = Ok shift.
Proof.
  intros Hinfo. unfold TriangleWarper_call. rewrite Hinfo.
  eexists. reflexivity.
Qed.

Lemma equidistant_barycentric_node_Ok `{FloatOps F} (self : ldis)
  (indices : list Z) :
  order self <> 0 ->
  exists divided,
    equidistant_barycentric_node (F:=F) self indices
    = Ok (fsub (fint 1) (py_sum divided) :: divided)
    /\ length divided = length indices.
Proof.
  intros Hord. unfold equidistant_barycentric_node.
  destruct (mapM_result_Ok (fun i => py_truediv (F:=F) i (order self))
              indices) as [divided Hdiv].
  { apply Forall_forall. intros i _. unfold py_truediv.
    destruct (decide (order self = 0)); [contradiction | eauto]. }
  rewrite Hdiv. exists divided. split; [reflexivity|].
  apply mapM_result_length in Hdiv. exact Hdiv.
Qed.

(** For order >= 1, [unit_nodes()] of a triangle returns as many nodes as
    [node_count()] says, when they are fewer than [2^53]. *)
Lemma triangle_unit_nodes_count `{FloatOps F, HedgeLib F} (self : ldis) :
  cls self = TriangleDiscretization ->
  fancy_node_ordering self = false ->
  1 <= order self ->
  node_count_fits self ->
  exists nodes,
    unit_nodes (F:=F) self = Ok nodes
    /\ node_count self = Ok (Z.of_nat (length nodes)).
Proof.
  intros Hcls Hfancy Hord Hfit.
  destruct (node_tuples_count self ltac:(lia) Hfit (fun _ => Hfancy))
    as (node_tups & Htups & Hcount).
  unfold unit_nodes, triangle_equilateral_nodes. rewrite Hcls, Htups.
  destruct (TriangleWarper_init_loop_info (triangle_alpha self) (order self))
    as (w & e1 & e2 & e3 & -> & Hinfo).
  cbn [mbind result_bind].
  match goal with |- context [mapM ?f node_tups] =>
    destruct (mapM_result_Ok f node_tups) as [nodes Hnodes] end.
  { assert (Hlen : Forall (fun t => length t = 2%nat) node_tups).
    { unfold node_tuples, triangle_node_tuples in Htups.
      rewrite Hcls, Hfancy in Htups. injection Htups as <-.
      apply (tuples_length (order self) 2). }
    eapply Forall_impl; [exact Hlen|]. intros t Ht.
    destruct (equidistant_barycentric_node_Ok (F:=F) self t ltac:(lia))
      as (divided & -> & Hdiv).
    rewrite Ht in Hdiv.
    destruct divided as [|a [|b [|? ?]]]; try discriminate.
    destruct (TriangleWarper_call_Ok w e1 e2 e3
                (fsub (fint 1) (py_sum [a; b])) a b Hinfo) as [shift Hs].
    cbn [mbind result_bind triangle_barycentric_to_equilateral].
    rewrite Hs. eexists. reflexivity. }
  rewrite Hnodes. eexists. split; [reflexivity|].
  rewrite length_map, (mapM_result_length _ _ _ Hnodes). exact Hcount.
Qed.

(** The same for the interval, for every order >= 0, when
    [legendre_gauss_lobatto_points(N)] returns [N + 1] points. *)
Lemma interval_unit_nodes_count `{FloatOps F, HedgeLib F} (self : ldis) :
  cls self = IntervalDiscretization ->
  0 <= order self ->
  node_count_fits self ->
  (forall N, 1 <= N ->
             length (legendre_gauss_lobatto_points (F:=F) N)
             = Z.to_nat (N + 1)) ->
  exists nodes,
    unit_nodes (F:=F) self = Ok nodes
    /\ node_count self = Ok (Z.of_nat (length nodes)).
Proof.
  intros Hcls Hord Hfit Hlgl. unfold unit_nodes. rewrite Hcls.
  eexists. split; [reflexivity|].
  rewrite (node_count_binomial self Hord Hfit). unfold dimensions.
  rewrite Hcls, Nat.add_comm. change (1 + ?n)%nat with (S n).
  rewrite binomial_1. do 2 f_equal. unfold interval_nodes.
  destruct (decide (order self = 0)) as [->|Hne]; [reflexivity|].
  rewrite length_map, Hlgl by lia. lia.
Qed.

Lemma tetrahedron_blend_loop_Ok `{FloatOps F} (bp : list F) (opp : Z)
  (fvi : list Z) (blend : F) :
  Forall (fun i => exists d, blend_denominator bp opp i = Ok d) fvi ->
  exists b, tetrahedron_blend_loop bp opp fvi blend = Ok b.
Proof.
  intros Hall. revert blend.
  induction Hall as [|i fvi [d Hd] _ IH]; intros blend; simpl.
  - eauto.
  - rewrite Hd; simpl. destruct (fgtb _ _); [apply IH | eauto].
Qed.

Lemma py_index_Ok {A} (l : list A) (i : Z) :
  0 <= i < Z.of_nat (length l) -> exists a, py_index l i = Ok a.
Proof. intros Hi. destruct (py_index_nonneg l i Hi) as (a & _ & Ha). eauto. Qed.

Lemma TriangleWarper_call_shape `{FloatOps F} (w : TriangleWarper F)
  (e1 e2 e3 : list F) (x y z : F) :
  loop_info w = [([0; 1], e1, 2); ([1; 2], e2, 0); ([0; 2], e3, 1)] ->
  exists a1 a2 a3,
    TriangleWarper_call w [x; y; z]
    = Ok (vadd (vadd (vscale a1 e1) (vscale a2 e2)) (vscale a3 e3)).
Proof.
  intros Hinfo. unfold TriangleWarper_call. rewrite Hinfo.
  do 3 eexists. reflexivity.
Qed.

Lemma TriangleWarper_init_edges `{FloatOps F, HedgeLib F} (a : F) (o : Z) :
  (forall v : list F, length (normalize v) = length v) ->
  exists w e1 e2 e3,
    TriangleWarper_init a o = Ok w
    /\ loop_info w = [([0; 1], e1, 2); ([1; 2], e2, 0); ([0; 2], e3, 1)]
    /\ length e1 = 2%nat /\ length e2 = 2%nat /\ length e3 = 2%nat.
Proof.
  intros Hnorm. do 4 eexists.
  split; [reflexivity|]. split; [reflexivity|].
  rewrite !Hnorm. repeat split; reflexivity.
Qed.

(** One node of the tetrahedron is shifted without an exception. *)
Lemma tetrahedron_shift_node_Ok `{FloatOps F} (tri_warp : TriangleWarper F)
  (alpha : F) (fvi : list Z) (d0 d1 e1 e2 e3 bp ep : list F) (opp : Z) :
  loop_info tri_warp
    = [([0; 1], e1, 2); ([1; 2], e2, 0); ([0; 2], e3, 1)] ->
  length e1 = 2%nat -> length e2 = 2%nat -> length e3 = 2%nat ->
  length bp = 4%nat ->
  length fvi = 3%nat ->
  Forall (fun i => 0 <= i < 4) fvi ->
  0 <= opp < 4 ->
  exists r,
    tetrahedron_shift_node tri_warp alpha fvi [d0; d1] opp (bp, ep) = Ok r.
Proof.
  intros Hinfo H1 H2 H3 Hbp Hfvi Hrange Hopp.
  unfold tetrahedron_shift_node.
  destruct (mapM_result_Ok (py_index bp) fvi) as [face_bp Hface].
  { eapply Forall_impl; [exact Hrange|]. intros i Hi. cbv beta in Hi.
    apply py_index_Ok. rewrite Hbp. lia. }
  rewrite Hface; simpl.
  pose proof (mapM_result_length _ _ _ Hface) as Hlen. rewrite Hfvi in Hlen.
  destruct face_bp as [|x [|y [|z [|? ?]]]]; try discriminate.
  unfold tetrahedron_blend. cbn [py_reduce mbind result_bind].
  destruct (py_index_Ok bp opp) as [bo ->]; [rewrite Hbp; lia|].
  cbn [mbind result_bind].
  destruct (tetrahedron_blend_loop_Ok bp opp fvi
              (fmul (fold_left fmul [y; z] x)
                 (fsquare (fadd (fint 1) (fmul alpha bo)))))
    as [blend ->].
  { eapply Forall_impl; [exact Hrange|]. intros i Hi. cbv beta in Hi.
    unfold blend_denominator.
    destruct (py_index_Ok bp i) as [bi ->]; [rewrite Hbp; lia|].
    destruct (py_index_Ok bp opp) as [bo' ->]; [rewrite Hbp; lia|].
    simpl. eauto. }
  cbn [mbind result_bind].
  destruct (TriangleWarper_call_shape tri_warp e1 e2 e3 x y z Hinfo)
    as (a1 & a2 & a3 & ->).
  cbn [mbind result_bind].
  destruct e1 as [|? [|? [|? ?]]]; try discriminate.
  destruct e2 as [|? [|? [|? ?]]]; try discriminate.
  destruct e3 as [|? [|? [|? ?]]]; try discriminate.
  simpl. eauto.
Qed.

(** All nodes are shifted for one face without an exception. *)
Lemma tetrahedron_warp_face_Ok `{FloatOps F, HedgeLib F}
  (tri_warp : TriangleWarper F) (alpha : F) (fvi : list Z)
  (v1 v2 v3 e1 e2 e3 : list F) (bary_points equi_points : list (list F))
  (opp : Z) :
  loop_info tri_warp
    = [([0; 1], e1, 2); ([1; 2], e2, 0); ([0; 2], e3, 1)] ->
  length e1 = 2%nat -> length e2 = 2%nat -> length e3 = 2%nat ->
  length fvi = 3%nat ->
  Forall (fun i => 0 <= i < 4) fvi ->
  opposite_vertex (py_range (3 + 1)) fvi = Ok opp ->
  0 <= opp < 4 ->
  fltb (fabs (dot_row_col (normalize (vsub v2 v1))
                (normalize (vsub v3 (vdiv (vadd v1 v2) (fint 2))))))
       (lit 1e-16) = true ->
  Forall (fun bp => length bp = 4%nat) bary_points ->
  length equi_points = length bary_points ->
  exists shifted,
    tetrahedron_warp_face tri_warp alpha (py_range (3 + 1)) bary_points
      equi_points (fvi, [v1; v2; v3]) = Ok shifted
    /\ length shifted = length bary_points.
Proof.
  intros Hinfo H1 H2 H3 Hfvi Hrange Hopp Hopp4 Horth Hbary Hlen.
  unfold tetrahedron_warp_face. rewrite Horth, Hopp.
  cbn [py_assert mbind result_bind].
  match goal with |- context [mapM ?f (zip bary_points equi_points)] =>
    destruct (mapM_result_Ok f (zip bary_points equi_points))
      as [shifted Hs] end.
  { apply Forall_forall. intros [bp ep] Hin.
    apply elem_of_zip_l in Hin. rewrite Forall_forall in Hbary.
    eapply tetrahedron_shift_node_Ok; eauto. }
  exists shifted. split; [exact Hs|].
  rewrite (mapM_result_length _ _ _ Hs), length_zip. lia.
Qed.

Lemma tetrahedron_alpha_Ok `{FloatOps F} (self : ldis) :
  1 <= order self -> exists a : F, tetrahedron_alpha self = Ok a.
Proof.
  intros Hord. unfold tetrahedron_alpha.
  change (length (tetrahedron_alpha_opt (F:=F))) with 15%nat.
  destruct (Z.ltb_spec (order self - 1) (Z.of_nat 15)); [|eauto].
  apply py_index_Ok. change (length _) with 15%nat. lia.
Qed.

Lemma tetrahedron_barycentric_to_equilateral_Ok `{FloatOps F}
  (bary_points : list (list F)) :
  Forall (fun bp => length bp = 4%nat) bary_points ->
  exists equi_points,
    mapM tetrahedron_barycentric_to_equilateral bary_points = Ok equi_points.
Proof.
  intros Hall. apply mapM_result_Ok.
  eapply Forall_impl; [exact Hall|]. intros bp Hbp. cbv beta in Hbp.
  destruct bp as [|? [|? [|? [|? [|? ?]]]]]; try discriminate.
  eexists. reflexivity.
Qed.

Lemma tetrahedron_bary_points_Ok `{FloatOps F} (self : ldis) :
  cls self = TetrahedronDiscretization ->
  1 <= order self ->
  node_count_fits self ->
  exists bary_points : list (list F),
    equidistant_barycentric_nodes self = Ok bary_points
    /\ Forall (fun bp => length bp = 4%nat) bary_points
    /\ node_count self = Ok (Z.of_nat (length bary_points)).
Proof.
  intros Hcls Hord Hfit.
  destruct (node_tuples_count self ltac:(lia) Hfit)
    as (node_tups & Htups & Hcount).
  { rewrite Hcls. discriminate. }
  assert (Hlen : Forall (fun t => length t = 3%nat) node_tups).
  { unfold node_tuples in Htups. rewrite Hcls in Htups.
    injection Htups as <-. apply (tuples_length (order self) 3). }
  unfold equidistant_barycentric_nodes. rewrite Htups.
  cbn [mbind result_bind].
  assert (Hnode : Forall (fun t =>
            exists bp, equidistant_barycentric_node (F:=F) self t = Ok bp
                       /\ length bp = 4%nat) node_tups).
  { eapply Forall_impl; [exact Hlen|]. intros t Ht. cbv beta in Ht.
    destruct (equidistant_barycentric_node_Ok (F:=F) self t ltac:(lia))
      as (divided & -> & Hdiv).
    eexists. split; [reflexivity|]. simpl. lia. }
  clear Hlen Htups. revert Hcount. generalize (node_count self).
  induction Hnode as [|t ts (bp & Hbp & Hbp4) _ IH]; intros nc Hcount.
  - exists []. repeat split; [constructor | exact Hcount].
  - destruct (IH (Ok (Z.of_nat (length ts))) eq_refl)
      as (bps & Hbps & Hall & _).
    simpl. rewrite Hbp, Hbps. simpl. exists (bp :: bps).
    split; [reflexivity|]. split; [constructor; assumption|].
    rewrite Hcount. simpl. do 2 f_equal.
    apply mapM_result_length in Hbps. lia.
Qed.

(** For order >= 1, [unit_nodes()] of a tetrahedron returns as many nodes as
    [node_count()] says, when they are fewer than [2^53], [normalize] keeps
    the length of a vector and the four orthogonality assertions of the
    construction hold in the arithmetic at hand. *)
Lemma tetrahedron_unit_nodes_count `{FloatOps F, HedgeLib F} (self : ldis) :
  cls self = TetrahedronDiscretization ->
  1 <= order self ->
  node_count_fits self ->
  (forall v : list F, length (normalize v) = length v) ->
  tetrahedron_directions_orthogonal (F:=F) = true ->
  exists nodes,
    unit_nodes (F:=F) self = Ok nodes
    /\ node_count self = Ok (Z.of_nat (length nodes)).
Proof.
  intros Hcls Hord Hfit Hnorm Horth.
  unfold unit_nodes, tetrahedron_equilateral_nodes. rewrite Hcls.
  destruct (tetrahedron_alpha_Ok (F:=F) self Hord) as [a ->].
  cbn [mbind result_bind].
  assert (Hv : exists vA vB vC vD,
             mapM tetrahedron_barycentric_to_equilateral
               (wandering_element 4 (fint 1) (fint 0))
             = Ok [vA; vB; vC; vD]) by (do 4 eexists; reflexivity).
  destruct Hv as (vA & vB & vC & vD & Hv).
  unfold tetrahedron_directions_orthogonal in Horth.
  rewrite Hv in *. cbn [mbind result_bind] in *.
  change (face_vertices Tetrahedron (py_range (3 + 1)))
    with (Ok [[0; 1; 2]; [0; 1; 3]; [0; 2; 3]; [1; 2; 3]]).
  change (face_vertices Tetrahedron [vA; vB; vC; vD])
    with (Ok [[vA; vB; vC]; [vA; vB; vD]; [vA; vC; vD]; [vB; vC; vD]])
    in *.
  cbn [mbind result_bind forallb] in *.
  apply andb_prop in Horth as [Ho1 Horth].
  apply andb_prop in Horth as [Ho2 Horth].
  apply andb_prop in Horth as [Ho3 Horth].
  apply andb_prop in Horth as [Ho4 _].
  destruct (tetrahedron_bary_points_Ok (F:=F) self Hcls Hord Hfit)
    as (bary & -> & Hbary & Hcount).
  cbn [mbind result_bind].
  destruct (tetrahedron_barycentric_to_equilateral_Ok bary Hbary)
    as [equi Hequi].
  rewrite Hequi. cbn [mbind result_bind].
  apply mapM_result_length in Hequi.
  destruct (TriangleWarper_init_edges a (order self) Hnorm)
    as (w & e1 & e2 & e3 & -> & Hinfo & H1 & H2 & H3).
  cbn [mbind result_bind zip zip_with foldM].
  destruct (tetrahedron_warp_face_Ok w a [0; 1; 2] vA vB vC e1 e2 e3
              bary equi 3 Hinfo H1 H2 H3 eq_refl)
    as (s1 & -> & Hs1); auto; try lia.
  { repeat constructor; lia. }
  cbn [mbind result_bind].
  destruct (tetrahedron_warp_face_Ok w a [0; 1; 3] vA vB vD e1 e2 e3
              bary s1 2 Hinfo H1 H2 H3 eq_refl)
    as (s2 & -> & Hs2); auto; try lia.
  { repeat constructor; lia. }
  cbn [mbind result_bind].
  destruct (tetrahedron_warp_face_Ok w a [0; 2; 3] vA vC vD e1 e2 e3
              bary s2 1 Hinfo H1 H2 H3 eq_refl)
    as (s3 & -> & Hs3); auto; try lia.
  { repeat constructor; lia. }
  cbn [mbind result_bind].
  destruct (tetrahedron_warp_face_Ok w a [1; 2; 3] vB vC vD e1 e2 e3
              bary s3 0 Hinfo H1 H2 H3 eq_refl)
    as (s4 & -> & Hs4); auto; try lia.
  { repeat constructor; lia. }
  eexists. split; [reflexivity|].
  rewrite length_map, Hs4. exact Hcount.
Qed.

(** The hypotheses of the three lemmas hold for the rational instance, and
    the node lists have the expected sizes there. *)
Example rational_instance_node_counts :
  tetrahedron_directions_orthogonal (F:=Q) = true
  /\ (length <$> unit_nodes (F:=Q) (interval_of_order 2)) = Ok 3%nat
  /\ (length <$> unit_nodes (F:=Q) (triangle_of_order 3)) = Ok 10%nat
  /\ (length <$> unit_nodes (F:=Q) (tetrahedron_of_order 2)) = Ok 10%nat
  /\ node_count (triangle_of_order 3) = Ok 10
  /\ node_count (tetrahedron_of_order 2) = Ok 10.
Proof. repeat split; vm_compute; reflexivity. Qed.

(** * Further properties of the code *)

(** ** Node numbering *)

Lemma node_count_small_negative (self : ldis) :
  - Z.of_nat (dimensions self) <= order self < 0 ->
  node_count self = Ok 0.
Proof.
  intros Hord. unfold node_count, dimensions in *.
  destruct (cls self); simpl in Hord.
  - assert (Ho : order self = -1) by lia. rewrite Ho. reflexivity.
  - assert (Ho : order self = -1 \/ order self = -2) by lia.
    destruct Ho as [-> | ->]; reflexivity.
  - assert (Ho : order self = -1 \/ order self = -2 \/ order self = -3)
      by lia.
    destruct Ho as [-> | [-> | ->]]; reflexivity.
Qed.

Lemma node_tuples_negative (self : ldis) :
  order self < 0 -> node_tuples self = Ok [].
Proof.
  intros Hord. unfold node_tuples, interval_node_tuples, triangle_node_tuples,
    tetrahedron_node_tuples.
  rewrite !tuples_count_negative by exact Hord.
  unfold py_range. replace (Z.to_nat (order self + 1)) with O by lia.
  destruct (cls self); [reflexivity | | reflexivity].
  destruct (fancy_node_ordering self); reflexivity.
Qed.

(** [node_count()] in closed form: the binomial coefficient of
    [order + dimensions] over [dimensions] for every order >= 0 at which
    that number is below [2^53], and 0 for an order from [-dimensions] to
    -1, where one factor of the product is 0.  The bound is needed, since
    the quotient is computed in a double: a triangle of order [2^27] has
    [(2^27 + 1) * (2^27 + 2) / 2] nodes, and [node_count()] returns one
    less. *)
Theorem node_count_closed_form (self : ldis) :
  (- Z.of_nat (dimensions self) <= order self ->
   node_count_fits self ->
   node_count self
   = Ok (if decide (0 <= order self)
         then Z.of_nat (binomial (Z.to_nat (order self) + dimensions self)
                                 (dimensions self))
         else 0))
  /\ node_count (triangle_of_order (2 ^ 27))
     = Ok ((2 ^ 27 + 1) * (2 ^ 27 + 2) / 2 - 1).
Proof.
  split.
  - intros Hord Hfit. destruct (decide (0 <= order self)) as [Hpos|Hneg].
    + apply node_count_binomial; assumption.
    + apply node_count_small_negative. lia.
  - vm_compute. reflexivity.
Qed.

Lemma node_count_closed_form_witness :
  node_count (tetrahedron_of_order 4) = Ok 35
  /\ node_count (triangle_of_order (-2)) = Ok 0.
Proof.
  split.
  - apply (proj1 (node_count_closed_form (tetrahedron_of_order 4))).
    + vm_compute; discriminate.
    + vm_compute; reflexivity.
  - apply (proj1 (node_count_closed_form (triangle_of_order (-2)))).
    + vm_compute; discriminate.
    + vm_compute; reflexivity.
Defined.

(** [node_tuples()] has [node_count()] entries for every order >=
    [-dimensions] at which the element has fewer than [2^53] nodes: none
    for a negative order. *)
Theorem node_tuples_length_is_node_count (self : ldis) :
  - Z.of_nat (dimensions self) <= order self ->
  node_count_fits self ->
  (cls self = TriangleDiscretization -> 0 <= order self ->
   fancy_node_ordering self = false) ->
  exists node_tups,
    node_tuples self = Ok node_tups
    /\ node_count self = Ok (Z.of_nat (length node_tups))
    /\ (order self < 0 -> node_tups = []).
Proof.
  intros Hord Hfit Hfancy. destruct (decide (0 <= order self)) as [Hpos|Hneg].
  - destruct (node_tuples_count self Hpos Hfit) as (nts & Hnts & Hcount).
    { intros Hcls. apply Hfancy; assumption. }
    exists nts. repeat split; [assumption | assumption | intros; lia].
  - exists []. rewrite node_tuples_negative by lia.
    rewrite node_count_small_negative by lia. repeat split.
Qed.

Lemma node_tuples_length_witness :
  exists node_tups,
    node_tuples (triangle_of_order 2) = Ok node_tups
    /\ node_count (triangle_of_order 2) = Ok (Z.of_nat (length node_tups))
    /\ (2 < 0 -> node_tups = []).
Proof.
  apply (node_tuples_length_is_node_count (triangle_of_order 2)).
  - vm_compute; discriminate.
  - vm_compute; reflexivity.
  - reflexivity.
Defined.

Lemma node_tuples_entries_length (self : ldis) (node_tups : list (list Z)) :
  (cls self = TriangleDiscretization -> fancy_node_ordering self = false) ->
  node_tuples self = Ok node_tups ->
  Forall (fun t => length t = dimensions self) node_tups.
Proof.
  intros Hfancy. unfold node_tuples, triangle_node_tuples, dimensions.
  destruct (cls self).
  - intros [= <-]. unfold interval_node_tuples.
    apply Forall_forall. intros t Ht.
    apply list_elem_of_fmap in Ht as (i & -> & _). reflexivity.
  - rewrite (Hfancy eq_refl). intros [= <-].
    apply (tuples_length (order self) 2).
  - intros [= <-]. apply (tuples_length (order self) 3).
Qed.

(** [equidistant_barycentric_nodes()] (with the default node ordering):
    at order 0 the division by the order raises [ZeroDivisionError], for
    each of the three kinds; for a negative order there is no node and
    nothing is divided; for an order >= 1 it yields one node of
    [dimensions + 1] coordinates for each node tuple, [node_count()] nodes
    when they are fewer than [2^53]. *)
Theorem equidistant_barycentric_nodes_by_order `{FloatOps F} (self : ldis) :
  (cls self = TriangleDiscretization -> fancy_node_ordering self = false) ->
  (order self = 0 ->
   equidistant_barycentric_nodes (F:=F) self = Raise ZeroDivisionError)
  /\ (order self < 0 -> equidistant_barycentric_nodes (F:=F) self = Ok [])
  /\ (1 <= order self ->
      exists nodes : list (list F),
        equidistant_barycentric_nodes self = Ok nodes
        /\ (length <$> node_tuples self) = Ok (length nodes)
        /\ (node_count_fits self ->
            node_count self = Ok (Z.of_nat (length nodes)))
        /\ Forall (fun bp => length bp = S (dimensions self)) nodes).
Proof.
  intros Hfancy. split; [|split].
  - intros Ho. unfold equidistant_barycentric_nodes, node_tuples,
      triangle_node_tuples, interval_node_tuples, tetrahedron_node_tuples,
      equidistant_barycentric_node.
    destruct (cls self); [| rewrite (Hfancy eq_refl) |];
      rewrite Ho; reflexivity.
  - intros Ho. unfold equidistant_barycentric_nodes.
    rewrite node_tuples_negative by exact Ho. reflexivity.
  - intros Hord.
    assert (Htups : exists node_tups, node_tuples self = Ok node_tups).
    { unfold node_tuples, triangle_node_tuples.
      destruct (cls self); [| rewrite (Hfancy eq_refl) |]; eauto. }
    destruct Htups as [node_tups Htups].
    pose proof (node_tuples_entries_length self node_tups Hfancy Htups)
      as Hlen.
    assert (Hnode : Forall (fun t =>
              exists bp, equidistant_barycentric_node (F:=F) self t = Ok bp
                         /\ length bp = S (dimensions self)) node_tups).
    { eapply Forall_impl; [exact Hlen|]. intros t Ht. cbv beta in Ht.
      destruct (equidistant_barycentric_node_Ok (F:=F) self t ltac:(lia))
        as (divided & -> & Hdiv).
      eexists. split; [reflexivity|]. simpl. lia. }
    assert (Hmap : exists nodes,
               mapM (equidistant_barycentric_node (F:=F) self) node_tups
               = Ok nodes
               /\ length nodes = length node_tups
               /\ Forall (fun bp => length bp = S (dimensions self)) nodes).
    { clear Hlen Htups.
      induction Hnode as [|t ts (bp & Hbp & Hbpd) _
                            (bps & Hbps & Hl & Hall)].
      - exists []. repeat split. constructor.
      - exists (bp :: bps). simpl. rewrite Hbp, Hbps. simpl.
        split; [reflexivity|]. split; [lia|]. constructor; assumption. }
    destruct Hmap as (nodes & Hnodes & Hl & Hall).
    exists nodes. unfold equidistant_barycentric_nodes. rewrite Htups.
    cbn [mbind result_bind fmap result_fmap].
    split; [exact Hnodes|]. split; [rewrite Hl; reflexivity|].
    split; [|exact Hall].
    intros Hfit.
    destruct (node_tuples_count self ltac:(lia) Hfit Hfancy)
      as (node_tups' & Htups' & Hcount).
    rewrite Htups in Htups'. injection Htups' as <-.
    rewrite Hl. exact Hcount.
Qed.

Lemma equidistant_barycentric_nodes_witness :
  equidistant_barycentric_nodes (F:=Q) (interval_of_order 0)
  = Raise ZeroDivisionError
  /\ exists nodes : list (list Q),
       equidistant_barycentric_nodes (triangle_of_order 2) = Ok nodes
       /\ node_count (triangle_of_order 2) = Ok (Z.of_nat (length nodes))
       /\ Forall (fun bp => length bp = 3%nat) nodes.
Proof.
  split.
  - apply (equidistant_barycentric_nodes_by_order (F:=Q)
             (interval_of_order 0)); [discriminate | reflexivity].
  - destruct (proj2 (proj2 (equidistant_barycentric_nodes_by_order (F:=Q)
                              (triangle_of_order 2) ltac:(reflexivity))))
      as (nodes & Hnodes & _ & Hcount & Hall).
    + vm_compute; discriminate.
    + exists nodes. split; [exact Hnodes|]. split; [|exact Hall].
      apply Hcount. vm_compute; reflexivity.
Defined.

(** [unit_nodes()] returns [node_count()] nodes on an element with fewer
    than [2^53] nodes: for the interval at every order >= 0 (when the
    Gauss-Lobatto routine returns [N + 1] points for order [N]), for the
    triangle with its default ordering at every order >= 1, and for the
    tetrahedron at every order >= 1 (when [normalize] keeps the length of a
    vector and the orthogonality assertions of the construction hold in the
    arithmetic). *)
Theorem unit_nodes_length_is_node_count `{FloatOps F, HedgeLib F}
  (self : ldis) :
  match cls self with
  | IntervalDiscretization =>
      0 <= order self
      /\ forall N, 1 <= N ->
           length (legendre_gauss_lobatto_points (F:=F) N) = Z.to_nat (N + 1)
  | _ => 1 <= order self
  end ->
  node_count_fits self ->
  (cls self = TriangleDiscretization -> fancy_node_ordering self = false) ->
  (cls self = TetrahedronDiscretization ->
   (forall v : list F, length (normalize v) = length v)
   /\ tetrahedron_directions_orthogonal (F:=F) = true) ->
  exists nodes,
    unit_nodes (F:=F) self = Ok nodes
    /\ node_count self = Ok (Z.of_nat (length nodes)).
Proof.
  intros Hord Hfit Hfancy Htet.
  destruct (cls self) eqn:Hcls.
  - destruct Hord as [Hord Hlgl].
    apply interval_unit_nodes_count; assumption.
  - apply triangle_unit_nodes_count; auto.
  - destruct (Htet eq_refl) as [Hnorm Horth].
    apply tetrahedron_unit_nodes_count; assumption.
Qed.

Lemma unit_nodes_length_witness :
  (exists nodes,
      unit_nodes (F:=Q) (tetrahedron_of_order 2) = Ok nodes
      /\ node_count (tetrahedron_of_order 2) = Ok (Z.of_nat (length nodes)))
  /\ (exists nodes,
        unit_nodes (F:=Q) (interval_of_order 3) = Ok nodes
        /\ node_count (interval_of_order 3) = Ok (Z.of_nat (length nodes))).
Proof.
  split.
  - apply (unit_nodes_length_is_node_count (F:=Q) (tetrahedron_of_order 2)).
    + vm_compute; discriminate.
    + vm_compute; reflexivity.
    + discriminate.
    + intros _. split; [|vm_compute; reflexivity].
      intros v. unfold normalize, Q_lib, vdiv. apply length_map.
  - apply (unit_nodes_length_is_node_count (F:=Q) (interval_of_order 3)).
    + split; [vm_compute; discriminate|].
      intros N HN. unfold legendre_gauss_lobatto_points, Q_lib, linspace.
      rewrite length_map. apply py_range_length.
    + vm_compute; reflexivity.
    + discriminate.
    + discriminate.
Defined.

Lemma py_index_negative {A} (l : list A) (i : Z) :
  - Z.of_nat (length l) <= i < 0 ->
  exists a, l !! Z.to_nat (i + Z.of_nat (length l)) = Some a
            /\ py_index l i = Ok a.
Proof.
  intros Hi. unfold py_index.
  destruct (Z.ltb_spec i 0) as [_|?]; [|lia].
  destruct (Z.ltb_spec (i + Z.of_nat (length l)) 0) as [?|_]; [lia|]. simpl.
  destruct (Z.leb_spec (Z.of_nat (length l)) (i + Z.of_nat (length l)))
    as [?|_]; [lia|].
  destruct (l !! Z.to_nat (i + Z.of_nat (length l))) as [a|] eqn:Hl; [eauto|].
  apply lookup_ge_None in Hl. lia.
Qed.

Lemma py_index_below {A} (l : list A) (i : Z) :
  i < - Z.of_nat (length l) -> py_index l i = Raise IndexError.
Proof.
  intros Hi. unfold py_index.
  destruct (Z.ltb_spec i 0) as [_|?]; [|lia].
  destruct (Z.ltb_spec (i + Z.of_nat (length l)) 0) as [_|?]; [|lia].
  reflexivity.
Qed.

(** The lookup [alpha_opt[self.order-1]] at orders below 1: from order -14
    to 0 the negative index counts from the end of the table, so that order
    0 takes the last entry; at order -15 and below the index is out of
    range, which gives the triangle its default [5/3] and makes the
    tetrahedron's construction raise [IndexError]. *)
Theorem alpha_lookup_below_order_1 `{FloatOps F} (tri tet : ldis) (o : Z) :
  order tri = o -> order tet = o -> o <= 0 ->
  if decide (-14 <= o)
  then triangle_alpha_opt !! Z.to_nat (o + 14) = Some (triangle_alpha tri)
       /\ (Ok <$> tetrahedron_alpha_opt !! Z.to_nat (o + 14))
         = Some (tetrahedron_alpha tet)
  else triangle_alpha tri = fdiv (fint 5) (fint 3)
       /\ tetrahedron_alpha tet = Raise IndexError.
Proof.
  intros Htri Htet Ho.
  assert (Hlen3 : length (triangle_alpha_opt (F:=F)) = 15%nat) by reflexivity.
  assert (Hlen4 : length (tetrahedron_alpha_opt (F:=F)) = 15%nat)
    by reflexivity.
  unfold triangle_alpha, tetrahedron_alpha. rewrite Htri, Htet, Hlen4.
  destruct (Z.ltb_spec (o - 1) (Z.of_nat 15)) as [_|?]; [|lia].
  destruct (decide (-14 <= o)) as [Hin|Hout].
  - destruct (py_index_negative (triangle_alpha_opt (F:=F)) (o - 1))
      as (a & Ha & ->); [rewrite Hlen3; lia|].
    destruct (py_index_negative (tetrahedron_alpha_opt (F:=F)) (o - 1))
      as (b & Hb & ->); [rewrite Hlen4; lia|].
    rewrite Hlen3 in Ha. rewrite Hlen4 in Hb.
    replace (o - 1 + Z.of_nat 15) with (o + 14) in Ha, Hb by lia.
    rewrite Ha, Hb. split; reflexivity.
  - rewrite !py_index_below by (rewrite ?Hlen3, ?Hlen4; lia).
    split; reflexivity.
Qed.

Lemma alpha_lookup_below_order_1_witness :
  (triangle_alpha_opt !! 14%nat
     = Some (triangle_alpha (F:=Q) (triangle_of_order 0))
   /\ (Ok <$> tetrahedron_alpha_opt !! 14%nat)
     = Some (tetrahedron_alpha (F:=Q) (tetrahedron_of_order 0)))
  /\ (triangle_alpha (F:=Q) (triangle_of_order (-20)) = fdiv (fint 5) (fint 3)
      /\ tetrahedron_alpha (F:=Q) (tetrahedron_of_order (-20))
         = Raise IndexError).
Proof.
  split.
  - apply (alpha_lookup_below_order_1 (F:=Q) (triangle_of_order 0)
             (tetrahedron_of_order 0) 0); [reflexivity | reflexivity | lia].
  - apply (alpha_lookup_below_order_1 (F:=Q) (triangle_of_order (-20))
             (tetrahedron_of_order (-20)) (-20));
      [reflexivity | reflexivity | lia].
Defined.

(** ** The node tuples *)

Lemma elem_of_py_range (n i : Z) : i ∈ py_range n <-> 0 <= i < n.
Proof.
  unfold py_range. split.
  - intros Hi. apply list_elem_of_fmap in Hi as (k & -> & Hk).
    apply elem_of_seq in Hk. lia.
  - intros Hi. apply list_elem_of_fmap. exists (Z.to_nat i).
    split; [lia|]. apply elem_of_seq. lia.
Qed.

Lemma NoDup_py_range (n : Z) : NoDup (py_range n).
Proof.
  unfold py_range. apply NoDup_fmap_2; [|apply NoDup_seq].
  intros a b Hab. lia.
Qed.

Lemma flat_map_bind {A B} (f : A -> list B) (l : list A) :
  flat_map f l = l ≫= f.
Proof.
  induction l as [|x l IH]; [reflexivity|]. simpl. rewrite IH. reflexivity.
Qed.

Lemma elem_of_flat_map {A B} (f : A -> list B) (l : list A) (y : B) :
  y ∈ flat_map f l <-> exists x, y ∈ f x /\ x ∈ l.
Proof. rewrite flat_map_bind. apply list_elem_of_bind. Qed.

Lemma tuple_sum_app (a b : list Z) :
  tuple_sum (a ++ b) = tuple_sum a + tuple_sum b.
Proof.
  unfold tuple_sum. induction a as [|x a IH]; simpl; [reflexivity|].
  rewrite IH. lia.
Qed.

Lemma tuple_sum_nonneg (t : list Z) :
  Forall (fun x => 0 <= x) t -> 0 <= tuple_sum t.
Proof.
  unfold tuple_sum. induction 1 as [|x t Hx _ IH]; simpl; lia.
Qed.

(** The tuples the generator yields. *)
Lemma tuples_elem (n : Z) (d : nat) (t : list Z) :
  t ∈ generate_nonnegative_integer_tuples_summing_to_at_most n (S d)
  <-> index_tuple (S d) n t.
Proof.
  unfold index_tuple.
  revert n t; induction d as [|d IH]; intros n t.
  - cbn [generate_nonnegative_integer_tuples_summing_to_at_most].
    rewrite elem_of_flat_map. split.
    + intros (i & Ht & Hi). apply elem_of_py_range in Hi.
      apply list_elem_of_fmap in Ht as (base & -> & Hbase).
      apply list_elem_of_singleton in Hbase as ->. simpl.
      repeat split; [repeat constructor; lia | unfold tuple_sum; simpl; lia].
    + intros (Hlen & Hall & Hsum).
      destruct t as [|i [|? ?]]; try discriminate.
      apply Forall_cons in Hall as [Hi _].
      unfold tuple_sum in Hsum; simpl in Hsum.
      exists i; split; [|apply elem_of_py_range; lia].
      apply list_elem_of_fmap. exists []; split; [reflexivity|].
      apply list_elem_of_singleton; reflexivity.
  - change (generate_nonnegative_integer_tuples_summing_to_at_most n (S (S d)))
      with (flat_map
              (fun i =>
                 map (fun base => base ++ [i])
                   (generate_nonnegative_integer_tuples_summing_to_at_most
                      (n - i) (S d)))
              (py_range (n + 1))).
    rewrite elem_of_flat_map. split.
    + intros (i & Ht & Hi). apply elem_of_py_range in Hi.
      apply list_elem_of_fmap in Ht as (base & -> & Hbase).
      apply IH in Hbase as (Hlen & Hall & Hsum).
      rewrite length_app, tuple_sum_app.
      change (tuple_sum [i]) with (i + 0).
      change (length [i]) with 1%nat.
      repeat split.
      * lia.
      * apply Forall_app; split; [exact Hall | repeat constructor; lia].
      * lia.
    + intros (Hlen & Hall & Hsum).
      destruct (decide (t = [])) as [->|Hne]; [discriminate|].
      destruct (exists_last Hne) as (base & i & ->).
      rewrite length_app in Hlen; simpl in Hlen.
      apply Forall_app in Hall as [Hbase Hi].
      apply Forall_cons in Hi as [Hi _].
      rewrite tuple_sum_app in Hsum.
      change (tuple_sum [i]) with (i + 0) in Hsum.
      pose proof (tuple_sum_nonneg base Hbase) as Hpos.
      exists i; split; [|apply elem_of_py_range; lia].
      apply list_elem_of_fmap. exists base; split; [reflexivity|].
      apply IH. repeat split; [lia | exact Hbase | lia].
Qed.

Lemma tuples_NoDup (n : Z) (d : nat) :
  NoDup (generate_nonnegative_integer_tuples_summing_to_at_most n d).
Proof.
  revert n; induction d as [|d IH]; intros n.
  - simpl. apply NoDup_singleton.
  - cbn [generate_nonnegative_integer_tuples_summing_to_at_most].
    rewrite flat_map_bind. apply NoDup_bind.
    + intros i j t _ _ Hi Hj.
      apply list_elem_of_fmap in Hi as (bi & -> & _).
      apply list_elem_of_fmap in Hj as (bj & Heq & _).
      apply app_inj_tail in Heq as [_ ->]. reflexivity.
    + intros i _. apply NoDup_fmap_2; [|apply IH].
      intros a b Hab. apply app_inj_tail in Hab as [-> _]. reflexivity.
    + apply NoDup_py_range.
Qed.

Lemma interval_node_tuples_generated (self : ldis) :
  interval_node_tuples self
  = generate_nonnegative_integer_tuples_summing_to_at_most (order self) 1.
Proof.
  unfold interval_node_tuples. simpl.
  induction (py_range (order self + 1)) as [|i l IH]; [reflexivity|].
  simpl. rewrite IH. reflexivity.
Qed.

Lemma plain_node_tuples (self : ldis) :
  (cls self = TriangleDiscretization -> fancy_node_ordering self = false) ->
  node_tuples self
  = Ok (generate_nonnegative_integer_tuples_summing_to_at_most
          (order self) (dimensions self)).
Proof.
  intros Hfancy. unfold node_tuples, triangle_node_tuples, dimensions.
  destruct (cls self).
  - rewrite interval_node_tuples_generated. reflexivity.
  - rewrite (Hfancy eq_refl). reflexivity.
  - reflexivity.
Qed.

Lemma dimensions_succ (self : ldis) :
  exists d, dimensions self = S d.
Proof. unfold dimensions. destruct (cls self); eauto. Qed.

(** [node_tuples()] with the default ordering, for each of the three kinds
    and every order: the tuples are distinct, and they are exactly the
    tuples of [dimensions] non-negative integers whose sum is at most the
    order (so there is none for a negative order). *)
Theorem node_tuples_are_the_index_tuples (self : ldis) :
  (cls self = TriangleDiscretization -> fancy_node_ordering self = false) ->
  exists node_tups,
    node_tuples self = Ok node_tups
    /\ NoDup node_tups
    /\ forall t, t ∈ node_tups
                 <-> index_tuple (dimensions self) (order self) t.
Proof.
  intros Hfancy. rewrite (plain_node_tuples self Hfancy).
  eexists; split; [reflexivity|]. split; [apply tuples_NoDup|].
  intros t. destruct (dimensions_succ self) as [d ->]. apply tuples_elem.
Qed.

Lemma node_tuples_are_the_index_tuples_witness :
  exists node_tups,
    node_tuples (tetrahedron_of_order 2) = Ok node_tups
    /\ NoDup node_tups
    /\ forall t, t ∈ node_tups <-> index_tuple 3 2 t.
Proof.
  apply (node_tuples_are_the_index_tuples (tetrahedron_of_order 2)).
  discriminate.
Defined.

(** ** The fancy node ordering of the triangle *)

Lemma mapM_result_map {A B} (f : A -> result B) (g : A -> B) (l : list A) :
  Forall (fun x => f x = Ok (g x)) l -> mapM f l = Ok (map g l).
Proof.
  induction 1 as [|x l Hx _ IH]; simpl; [reflexivity|].
  rewrite Hx; simpl. rewrite IH; reflexivity.
Qed.

(** Lists selected from [l] by tests of which each element passes exactly
    one make up a rearrangement of [l]. *)
Lemma filter_partition_Permutation {A B} (keys : list B)
  (test : A -> B -> bool) (l : list A) :
  (forall x, x ∈ l ->
             flat_map (fun k => if test x k then [x] else []) keys = [x]) ->
  flat_map (fun k => filter (fun x => test x k) l) keys ≡ₚ l.
Proof.
  induction l as [|x l IH]; intros Hone.
  - rewrite flat_map_all_nil; [reflexivity|].
    apply Forall_forall. intros k _. reflexivity.
  - assert (Hsplit : forall ks,
              flat_map (fun k => filter (fun y => test y k) (x :: l)) ks
              ≡ₚ flat_map (fun k => if test x k then [x] else []) ks
                 ++ flat_map (fun k => filter (fun y => test y k) l) ks).
    { induction ks as [|k ks IHks]; [reflexivity|].
      cbn [flat_map]. rewrite IHks. clear IHks.
      destruct (test x k) eqn:Hk.
      - rewrite filter_cons_True by (rewrite Hk; exact I).
        cbn [app]. constructor.
        rewrite !(assoc_L (++)). apply Permutation_app_tail.
        apply Permutation_app_comm.
      - rewrite filter_cons_False by (rewrite Hk; intros []).
        cbn [app].
        rewrite !(assoc_L (++)). apply Permutation_app_tail.
        apply Permutation_app_comm. }
    rewrite Hsplit, (Hone x) by left. cbn [app]. constructor.
    apply IH. intros y Hy. apply Hone. right; exact Hy.
Qed.

Lemma triangle_fancy_node_tuples (self : ldis) :
  cls self = TriangleDiscretization ->
  fancy_node_ordering self = true ->
  (order self = 0 -> node_tuples self = Raise AssertionError)
  /\ (order self <> 0 ->
      exists node_tups,
        node_tuples self = Ok node_tups
        /\ node_tups
           ≡ₚ generate_nonnegative_integer_tuples_summing_to_at_most
                (order self) 2).
Proof.
  intros Hcls Hfancy. split.
  - intros Ho. destruct self as [c o f]. simpl in Hcls, Hfancy, Ho.
    subst c o f. vm_compute. reflexivity.
  - intros Hne. unfold node_tuples, triangle_node_tuples.
    rewrite Hcls, Hfancy. cbn [negb].
    set (node_tups := generate_nonnegative_integer_tuples_summing_to_at_most
                        (order self) 2).
    set (tag := fun nt : list Z =>
           match nt with
           | [m; n] =>
               ((if decide (n = 0) then [0] else [])
                ++ (if decide (n + m = order self) then [1] else [])
                ++ (if decide (m = 0) then [2] else []), nt)
           | _ => ([], nt)
           end).
    assert (Hshape : forall nt, nt ∈ node_tups -> exists m n, nt = [m; n]).
    { intros nt Hnt. apply tuples_elem in Hnt as (Hlen & _ & _).
      destruct nt as [|m [|n [|? ?]]]; try discriminate. eauto. }
    rewrite (mapM_result_map _ tag).
    2:{ apply Forall_forall. intros nt Hnt.
        destruct (Hshape nt Hnt) as (m & n & ->). reflexivity. }
    cbn [mbind result_bind]. cbv zeta.
    set (keys := [[]; [0]; [0; 1]; [1]; [1; 2]; [2]; [0; 2]]).
    set (res := _ ++ _).
    assert (Hres : res ≡ₚ node_tups).
    { subst res. rewrite <- !map_app.
      assert (Hsnd : map snd (map tag node_tups) = node_tups).
      { rewrite map_map. rewrite <- (map_id node_tups) at 2.
        apply map_ext. intros nt.
        destruct nt as [|m [|n [|? ?]]]; reflexivity. }
      rewrite <- Hsnd at 8. apply Permutation_map.
      rewrite <- (filter_partition_Permutation keys
                    (fun pr k => same_frozenset pr.1 k) (map tag node_tups))
        at 8.
      - cbn [keys flat_map]. rewrite app_nil_r. reflexivity.
      - intros pr Hpr. apply list_elem_of_fmap in Hpr as (nt & -> & Hnt).
        destruct (Hshape nt Hnt) as (m & n & ->). cbn [tag].
        destruct (decide (n = 0)) as [Hn|Hn];
          destruct (decide (n + m = order self)) as [Hnm|Hnm];
          destruct (decide (m = 0)) as [Hm|Hm];
          try (exfalso; lia);
          generalize ([m; n]); intros nt; vm_compute; reflexivity. }
    assert (Hset : (list_to_set res : gset (list Z)) = list_to_set node_tups)
      by (apply list_to_set_perm_L, Hres).
    rewrite (bool_decide_true _ Hset).
    rewrite (bool_decide_true _ (Permutation_length Hres)).
    cbn [py_assert mbind result_bind].
    exists res. split; [reflexivity | exact Hres].
Qed.

(** With [fancy_node_ordering], the node tuples of the triangle are a
    rearrangement of the generated ones at every order but 0; at order 0 the
    only node lies on all three faces, is in none of the seven groups, and
    the assertion on the regrouped list fails. *)
Theorem fancy_node_ordering_rearranges (self : ldis) :
  cls self = TriangleDiscretization ->
  fancy_node_ordering self = true ->
  (order self = 0 -> node_tuples self = Raise AssertionError)
  /\ (order self <> 0 ->
      exists node_tups,
        node_tuples self = Ok node_tups
        /\ NoDup node_tups
        /\ node_tups
           ≡ₚ generate_nonnegative_integer_tuples_summing_to_at_most
                (order self) 2).
Proof.
  intros Hcls Hfancy.
  destruct (triangle_fancy_node_tuples self Hcls Hfancy) as [Hzero Hother].
  split; [exact Hzero|]. intros Hne.
  destruct (Hother Hne) as (node_tups & Htups & Hperm).
  exists node_tups. repeat split; [exact Htups | | exact Hperm].
  rewrite Hperm. apply tuples_NoDup.
Qed.

Lemma fancy_node_ordering_rearranges_witness :
  node_tuples (fancy_triangle_of_order 0) = Raise AssertionError
  /\ exists node_tups,
       node_tuples (fancy_triangle_of_order 3) = Ok node_tups
       /\ NoDup node_tups
       /\ node_tups
          ≡ₚ generate_nonnegative_integer_tuples_summing_to_at_most 3 2.
Proof.
  split.
  - apply (fancy_node_ordering_rearranges (fancy_triangle_of_order 0));
      reflexivity.
  - apply (fancy_node_ordering_rearranges (fancy_triangle_of_order 3));
      [reflexivity | reflexivity | discriminate].
Defined.

(** The node tuples in whichever ordering: a rearrangement of the generated
    ones. *)
Lemma node_tuples_Permutation (self : ldis) (node_tups : list (list Z)) :
  node_tuples self = Ok node_tups ->
  node_tups ≡ₚ generate_nonnegative_integer_tuples_summing_to_at_most
                 (order self) (dimensions self).
Proof.
  intros Htups.
  assert (Hcase : (cls self = TriangleDiscretization
                   /\ fancy_node_ordering self = true)
                  \/ (cls self = TriangleDiscretization ->
                      fancy_node_ordering self = false)).
  { destruct (cls self), (fancy_node_ordering self); auto;
      right; discriminate. }
  destruct Hcase as [[Hcls Hf]|Hplain].
  - destruct (triangle_fancy_node_tuples self Hcls Hf) as [Hzero Hother].
    destruct (decide (order self = 0)) as [Ho|Ho].
    + rewrite (Hzero Ho) in Htups. discriminate.
    + destruct (Hother Ho) as (l & Hl & Hperm).
      rewrite Hl in Htups. injection Htups as <-.
      unfold dimensions. rewrite Hcls. exact Hperm.
  - rewrite (plain_node_tuples self Hplain) in Htups.
    injection Htups as <-. reflexivity.
Qed.

Lemma node_tuples_elem_of (self : ldis) (node_tups : list (list Z)) :
  node_tuples self = Ok node_tups ->
  NoDup node_tups
  /\ forall t, t ∈ node_tups
               <-> index_tuple (dimensions self) (order self) t.
Proof.
  intros Htups. pose proof (node_tuples_Permutation self node_tups Htups) as Hp.
  split.
  - rewrite Hp. apply tuples_NoDup.
  - intros t. rewrite Hp.
    destruct (dimensions_succ self) as [d ->]. apply tuples_elem.
Qed.

(** ** The table from node tuples to node numbers *)

Lemma node_tup_to_idx_None (l : list (list Z)) (t : list Z) :
  node_tup_to_idx l !! t = None <-> t ∉ l.
Proof.
  unfold node_tup_to_idx.
  rewrite py_dict_list_to_map, <- not_elem_of_list_to_map.
  rewrite fmap_reverse, elem_of_reverse.
  unfold py_enumerate. rewrite enumerate_values. reflexivity.
Qed.

Lemma node_tup_to_idx_lookup (l : list (list Z)) (i : nat) (t : list Z) :
  NoDup l -> l !! i = Some t -> node_tup_to_idx l !! t = Some (Z.of_nat i).
Proof.
  intros Hnd Hi. unfold node_tup_to_idx. rewrite py_dict_list_to_map.
  apply elem_of_list_to_map_1.
  - rewrite fmap_reverse, reverse_Permutation.
    unfold py_enumerate. rewrite enumerate_values. exact Hnd.
  - apply elem_of_reverse.
    apply (list_elem_of_fmap_2 (fun p : Z * list Z => (p.2, p.1))
             _ (Z.of_nat i, t)).
    unfold py_enumerate.
    apply (elem_of_lookup_imap_2 (fun i a => (Z.of_nat i, a))). exact Hi.
Qed.

Lemma node_tup_to_idx_Some (l : list (list Z)) (t : list Z) (j : Z) :
  node_tup_to_idx l !! t = Some j -> 0 <= j /\ l !! Z.to_nat j = Some t.
Proof.
  unfold node_tup_to_idx. rewrite py_dict_list_to_map. intros Hj.
  apply elem_of_list_to_map_2 in Hj. rewrite elem_of_reverse in Hj.
  apply list_elem_of_fmap in Hj as ([k u] & [= -> ->] & Hin).
  unfold py_enumerate in Hin.
  apply elem_of_lookup_imap_1 in Hin as (i & a & [= -> ->] & Hi).
  rewrite Nat2Z.id. split; [lia | exact Hi].
Qed.

Lemma node_tup_to_idx_is_Some (l : list (list Z)) (t : list Z) :
  t ∈ l -> is_Some (node_tup_to_idx l !! t).
Proof.
  intros Hin. apply not_eq_None_Some. intros Hnone.
  apply node_tup_to_idx_None in Hnone. contradiction.
Qed.

(** ** Vertices *)

Lemma tuple_sum_replicate_0 (k : nat) : tuple_sum (replicate k 0) = 0.
Proof. unfold tuple_sum. induction k as [|k IH]; simpl; lia. Qed.

Lemma vertex_tuples_are_index_tuples (self : ldis) :
  0 <= order self ->
  Forall (index_tuple (dimensions self) (order self)) (vertex_tuples self).
Proof.
  intros Hord. unfold vertex_tuples, index_tuple. constructor.
  - rewrite length_replicate, tuple_sum_replicate_0.
    repeat split; [|exact Hord].
    apply Forall_replicate. lia.
  - unfold wandering_element. apply Forall_forall. intros t Ht.
    apply list_elem_of_fmap in Ht as (i & -> & Hi).
    apply elem_of_seq in Hi.
    rewrite !length_app, !length_replicate, !tuple_sum_app,
      !tuple_sum_replicate_0.
    change (tuple_sum [order self]) with (order self + 0).
    change (length [order self]) with 1%nat.
    repeat split; [lia | | lia].
    repeat (apply Forall_app; split);
      [apply Forall_replicate; lia | repeat constructor; exact Hord
       | apply Forall_replicate; lia].
Qed.

Lemma vertex_tuples_length (self : ldis) :
  Z.of_nat (length (vertex_tuples self)) = vertex_count self.
Proof.
  unfold vertex_tuples, wandering_element, vertex_count. simpl.
  rewrite length_map, length_seq. lia.
Qed.

(** [vertex_indices()], whichever the ordering of the nodes: for an order
    >= 0 it returns one node number per vertex, [vertex_count()] in all, and
    the node tuple at that number is the tuple of the vertex (all zeros for
    the first, the order in one place for the others); for a negative order
    there is no node and the first lookup raises [KeyError]. *)
Theorem vertex_indices_locate_the_vertices (self : ldis)
  (node_tups : list (list Z)) :
  node_tuples self = Ok node_tups ->
  (0 <= order self ->
   exists vi,
     vertex_indices self = Ok vi
     /\ Z.of_nat (length vi) = vertex_count self
     /\ Forall2 (fun i vt => 0 <= i /\ node_tups !! Z.to_nat i = Some vt)
                vi (vertex_tuples self))
  /\ (order self < 0 -> vertex_indices self = Raise KeyError).
Proof.
  intros Htups. destruct (node_tuples_elem_of self node_tups Htups)
    as [Hnd Helem].
  unfold vertex_indices. rewrite Htups. cbn [mbind result_bind].
  fold (vertex_tuples self). split.
  - intros Hord.
    destruct (mapM_getitem_Ok (node_tup_to_idx node_tups) (vertex_tuples self))
      as (vi & Hvi & Hall).
    { eapply Forall_impl; [apply vertex_tuples_are_index_tuples, Hord|].
      intros t Ht. apply node_tup_to_idx_is_Some, Helem, Ht. }
    exists vi. split; [exact Hvi|]. split.
    + rewrite <- vertex_tuples_length. f_equal. symmetry.
      eapply Forall2_length, Hall.
    + apply Forall2_flip. eapply Forall2_impl; [exact Hall|].
      intros vt i Hi. apply node_tup_to_idx_Some, Hi.
  - intros Hord.
    apply (mapM_getitem_missing _ _ (replicate (dimensions self) 0)).
    + unfold vertex_tuples. left.
    + apply node_tup_to_idx_None. rewrite Helem. unfold index_tuple.
      rewrite tuple_sum_replicate_0. lia.
Qed.

Lemma vertex_indices_locate_the_vertices_witness :
  exists vi,
    vertex_indices (fancy_triangle_of_order 2) = Ok vi
    /\ Z.of_nat (length vi) = 3
    /\ Forall2 (fun i vt =>
                  0 <= i
                  /\ [[1; 0]; [2; 0]; [1; 1]; [0; 2]; [0; 1]; [0; 0]]
                       !! Z.to_nat i = Some vt)
               vi [[0; 0]; [2; 0]; [0; 2]].
Proof.
  refine (proj1 (vertex_indices_locate_the_vertices
                   (fancy_triangle_of_order 2) _ _) _).
  - vm_compute. reflexivity.
  - vm_compute. discriminate.
Defined.

(** ** Faces *)

(** The face numbers of a node tuple lie in [0, dimensions]. *)
Lemma faces_for_node_tuple_range (self : ldis) (nt fs : list Z) :
  faces_for_node_tuple self nt = Ok fs ->
  Forall (fun g => 0 <= g < Z.of_nat (S (dimensions self))) fs.
Proof.
  unfold faces_for_node_tuple, interval_faces_for_node_tuple,
    triangle_faces_for_node_tuple, tetrahedron_faces_for_node_tuple, dimensions.
  destruct (cls self).
  - intros [= <-]. repeat case_decide; repeat constructor; lia.
  - destruct nt as [|m [|n [|? ?]]]; try discriminate. intros [= <-].
    repeat case_decide; repeat constructor; lia.
  - destruct nt as [|m [|n [|o [|? ?]]]]; try discriminate. intros [= <-].
    repeat case_decide; repeat constructor; lia.
Qed.

Lemma faces_for_node_tuple_Ok (self : ldis) (nt : list Z) :
  length nt = dimensions self ->
  exists fs, faces_for_node_tuple self nt = Ok fs.
Proof.
  unfold faces_for_node_tuple, triangle_faces_for_node_tuple,
    tetrahedron_faces_for_node_tuple, dimensions.
  destruct (cls self); intros Hlen.
  - eauto.
  - destruct nt as [|m [|n [|? ?]]]; try discriminate. eauto.
  - destruct nt as [|m [|n [|o [|? ?]]]]; try discriminate. eauto.
Qed.

Lemma append_to_face_Ok (faces : list (list Z)) (g idx : Z) (fi : list Z) :
  0 <= g < Z.of_nat (length faces) ->
  faces !! Z.to_nat g = Some fi ->
  append_to_face faces g idx = Ok (<[Z.to_nat g := fi ++ [idx]]> faces).
Proof.
  intros Hg Hfi. unfold append_to_face.
  destruct (py_index_nonneg faces g Hg) as (fi' & Hfi' & ->).
  cbn [mbind result_bind].
  destruct (Z.ltb_spec g 0) as [?|_]; [lia|]. congruence.
Qed.

(** The inner loop of [face_indices]: the number of the node is appended
    to the list of each face the node lies on. *)
Lemma face_indices_inner_loop (T : gmap (list Z) Z) (nt : list Z) (idx : Z)
  (face_idxs : list Z) (faces : list (list Z)) :
  T !! nt = Some idx ->
  Forall (fun g => 0 <= g < Z.of_nat (length faces)) face_idxs ->
  foldM (fun faces face_idx =>
           _ ← py_index faces face_idx;
           idx ← py_getitem T nt;
           append_to_face faces face_idx idx)
        face_idxs faces
  = Ok (imap (fun f l =>
                l ++ flat_map (fun g => if decide (g = Z.of_nat f)
                                        then [idx] else [])
                       face_idxs)
             faces).
Proof.
  intros Hidx.
  set (step := fun (faces : list (list Z)) (face_idx : Z) =>
                 _ ← py_index faces face_idx;
                 idx ← py_getitem T nt;
                 append_to_face faces face_idx idx).
  revert faces.
  induction face_idxs as [|g gs IH]; intros faces Hall.
  - simpl. f_equal. apply list_eq. intros f.
    rewrite list_lookup_imap. destruct (faces !! f); simpl; [|reflexivity].
    rewrite app_nil_r. reflexivity.
  - apply Forall_cons in Hall as [Hg Hgs].
    cbn [foldM].
    destruct (py_index_nonneg faces g Hg) as (fi & Hfi & Hpy).
    assert (Hstep : step faces g = Ok (<[Z.to_nat g := fi ++ [idx]]> faces)).
    { unfold step. rewrite Hpy. cbn [mbind result_bind].
      rewrite (py_getitem_Some _ _ _ Hidx). cbn [mbind result_bind].
      apply append_to_face_Ok; assumption. }
    rewrite Hstep. cbn [mbind result_bind].
    rewrite IH by (rewrite length_insert; exact Hgs).
    f_equal. apply list_eq. intros f.
    rewrite !list_lookup_imap. cbn [flat_map].
    destruct (decide (f = Z.to_nat g)) as [->|Hne].
    + rewrite list_lookup_insert_eq by lia.
      rewrite Hfi. simpl. rewrite decide_True by lia.
      rewrite <- (assoc_L (++)). reflexivity.
    + rewrite list_lookup_insert_ne by congruence.
      destruct (faces !! f); simpl; [|reflexivity].
      rewrite decide_False by lia. reflexivity.
Qed.

(** The outer loop of [face_indices], over node tuples that have a number
    in the table. *)
Lemma face_indices_outer_loop (self : ldis) (T : gmap (list Z) Z)
  (tups : list (list Z)) (faces : list (list Z)) :
  length faces = S (dimensions self) ->
  Forall (fun nt => length nt = dimensions self /\ is_Some (T !! nt)) tups ->
  foldM (fun faces node_tup =>
           face_idxs ← faces_for_node_tuple self node_tup;
           foldM (fun faces face_idx =>
                    _ ← py_index faces face_idx;
                    idx ← py_getitem T node_tup;
                    append_to_face faces face_idx idx)
                 face_idxs faces)
        tups faces
  = Ok (imap (fun f l =>
                l ++ flat_map
                       (fun nt =>
                          flat_map (fun g => if decide (g = Z.of_nat f)
                                             then [default 0 (T !! nt)]
                                             else [])
                            (node_faces self nt))
                       tups)
             faces).
Proof.
  set (step := fun (faces : list (list Z)) (node_tup : list Z) =>
                 face_idxs ← faces_for_node_tuple self node_tup;
                 foldM (fun faces face_idx =>
                          _ ← py_index faces face_idx;
                          idx ← py_getitem T node_tup;
                          append_to_face faces face_idx idx)
                       face_idxs faces).
  intros Hlen Hall. revert faces Hlen.
  induction Hall as [|nt tups [Hnt [idx Hidx]] _ IH]; intros faces Hlen.
  - simpl. f_equal. apply list_eq. intros f.
    rewrite list_lookup_imap. destruct (faces !! f); simpl; [|reflexivity].
    rewrite app_nil_r. reflexivity.
  - cbn [foldM].
    destruct (faces_for_node_tuple_Ok self nt Hnt) as [fs Hfs].
    assert (Hstep : step faces nt
                    = Ok (imap (fun f l =>
                                  l ++ flat_map
                                         (fun g => if decide (g = Z.of_nat f)
                                                   then [idx] else [])
                                         fs)
                               faces)).
    { unfold step. rewrite Hfs. cbn [mbind result_bind].
      apply face_indices_inner_loop; [exact Hidx|].
      rewrite Hlen. eapply faces_for_node_tuple_range, Hfs. }
    rewrite Hstep. cbn [mbind result_bind].
    rewrite IH by (rewrite length_imap; exact Hlen).
    f_equal. apply list_eq. intros f.
    rewrite !list_lookup_imap. cbn [flat_map].
    destruct (faces !! f); simpl; [|reflexivity].
    assert (Hnf : node_faces self nt = fs)
      by (unfold node_faces; rewrite Hfs; reflexivity).
    rewrite Hnf, Hidx. simpl.
    rewrite <- (assoc_L (++)). reflexivity.
Qed.

Lemma faces_for_node_tuple_NoDup (self : ldis) (nt : list Z) :
  NoDup (node_faces self nt).
Proof.
  unfold node_faces, faces_for_node_tuple, interval_faces_for_node_tuple,
    triangle_faces_for_node_tuple, tetrahedron_faces_for_node_tuple.
  destruct (cls self).
  - repeat case_decide; repeat constructor;
      rewrite ?elem_of_cons, ?elem_of_nil; lia.
  - destruct nt as [|m [|n [|? ?]]]; try apply NoDup_nil_2.
    repeat case_decide; simpl; repeat constructor;
      rewrite ?elem_of_cons, ?elem_of_nil; lia.
  - destruct nt as [|m [|n [|o [|? ?]]]]; try apply NoDup_nil_2.
    repeat case_decide; simpl; repeat constructor;
      rewrite ?elem_of_cons, ?elem_of_nil; lia.
Qed.

Lemma elem_of_face_marks (f : Z) (idx y : Z) (fs : list Z) :
  y ∈ flat_map (fun g => if decide (g = f) then [idx] else []) fs
  <-> y = idx /\ f ∈ fs.
Proof.
  rewrite elem_of_flat_map. split.
  - intros (g & Hy & Hg). case_decide; [|apply elem_of_nil in Hy as []].
    apply list_elem_of_singleton in Hy. subst. auto.
  - intros [-> Hf]. exists f. rewrite decide_True by reflexivity.
    split; [left | exact Hf].
Qed.

Lemma face_marks_NoDup (f : Z) (idx : Z) (fs : list Z) :
  NoDup fs ->
  NoDup (flat_map (fun g => if decide (g = f) then [idx] else []) fs).
Proof.
  induction 1 as [|g fs Hg _ IH]; simpl; [constructor|].
  case_decide; [|exact IH]. subst g. simpl.
  constructor; [|exact IH]. rewrite elem_of_face_marks. tauto.
Qed.

(** The faces computed by [face_indices], as a function of the table and
    of the generated tuples. *)
Lemma face_indices_value (self : ldis) (node_tups : list (list Z)) :
  node_tuples self = Ok node_tups ->
  face_indices self
  = Ok (map (fun f : nat =>
               flat_map
                 (fun nt =>
                    flat_map (fun g => if decide (g = Z.of_nat f)
                                       then [default 0 (node_tup_to_idx
                                                          node_tups !! nt)]
                                       else [])
                      (node_faces self nt))
                 (generate_nonnegative_integer_tuples_summing_to_at_most
                    (order self) (dimensions self)))
            (seq 0 (S (dimensions self)))).
Proof.
  intros Htups.
  destruct (node_tuples_elem_of self node_tups Htups) as [Hnd Helem].
  unfold face_indices. rewrite Htups. cbn [mbind result_bind].
  rewrite (face_indices_outer_loop self).
  - f_equal. apply list_eq. intros f.
    rewrite list_lookup_imap, list_lookup_fmap.
    replace (dimensions self + 1)%nat with (S (dimensions self)) by lia.
    destruct (decide (f < S (dimensions self))%nat) as [Hf|Hf].
    + rewrite lookup_replicate_2 by exact Hf.
      rewrite lookup_seq_lt by exact Hf. reflexivity.
    + rewrite (proj1 (lookup_replicate_None _ _ _)) by lia.
      rewrite lookup_seq_ge by lia. reflexivity.
  - rewrite length_replicate. lia.
  - apply Forall_forall. intros nt Hnt.
    destruct (dimensions_succ self) as [d Hd]. rewrite Hd in Hnt.
    apply tuples_elem in Hnt. rewrite <- Hd in Hnt.
    split; [apply Hnt|]. apply node_tup_to_idx_is_Some, Helem, Hnt.
Qed.

(** [face_indices()], whichever the ordering of the nodes and whatever the
    order: it returns [dimensions + 1] lists, and list [f] holds, once each,
    the numbers of the nodes whose tuple [faces_for_node_tuple] puts on
    face [f]. *)
Theorem face_indices_list_the_nodes_on_each_face (self : ldis)
  (node_tups : list (list Z)) :
  node_tuples self = Ok node_tups ->
  exists fi,
    face_indices self = Ok fi
    /\ length fi = S (dimensions self)
    /\ forall (f : nat) (face : list Z),
         fi !! f = Some face ->
         NoDup face
         /\ forall idx,
              idx ∈ face
              <-> 0 <= idx
                  /\ exists nt, node_tups !! Z.to_nat idx = Some nt
                                /\ on_face self (Z.of_nat f) nt.
Proof.
  intros Htups.
  destruct (node_tuples_elem_of self node_tups Htups) as [Hnd Helem].
  assert (Hgen : forall nt,
            nt ∈ generate_nonnegative_integer_tuples_summing_to_at_most
                   (order self) (dimensions self)
            <-> nt ∈ node_tups).
  { intros nt. rewrite Helem. destruct (dimensions_succ self) as [d ->].
    apply tuples_elem. }
  rewrite (face_indices_value self node_tups Htups).
  eexists; split; [reflexivity|]. split.
  { rewrite length_map, length_seq. reflexivity. }
  intros f face Hface. rewrite list_lookup_fmap in Hface.
  destruct (seq 0 (S (dimensions self)) !! f) as [f'|] eqn:Hf; [|discriminate].
  apply lookup_seq in Hf as [-> _]. simpl in Hface.
  injection Hface as <-. split.
  - rewrite flat_map_bind. apply NoDup_bind.
    + intros nt1 nt2 y Hnt1 Hnt2 Hy1 Hy2.
      apply elem_of_face_marks in Hy1 as [-> _].
      apply elem_of_face_marks in Hy2 as [Heq _].
      apply Hgen, node_tup_to_idx_is_Some in Hnt1 as [j1 Hj1].
      apply Hgen, node_tup_to_idx_is_Some in Hnt2 as [j2 Hj2].
      rewrite Hj1, Hj2 in Heq. simpl in Heq. subst j2.
      apply node_tup_to_idx_Some in Hj1 as [_ Hj1].
      apply node_tup_to_idx_Some in Hj2 as [_ Hj2]. congruence.
    + intros nt _. apply face_marks_NoDup, faces_for_node_tuple_NoDup.
    + apply tuples_NoDup.
  - intros idx. rewrite elem_of_flat_map. split.
    + intros (nt & Hidx & Hnt).
      apply elem_of_face_marks in Hidx as [-> Hf].
      apply Hgen in Hnt.
      destruct (node_tup_to_idx_is_Some _ _ Hnt) as [j Hj].
      rewrite Hj. simpl. apply node_tup_to_idx_Some in Hj as [Hpos Hj].
      split; [exact Hpos|]. exists nt. split; [exact Hj|].
      unfold on_face. unfold node_faces in Hf.
      destruct (faces_for_node_tuple self nt) as [fs|e];
        [eauto | apply elem_of_nil in Hf as []].
    + intros (Hpos & nt & Hnt & fs & Hfs & Hf). exists nt. split.
      * apply elem_of_face_marks.
        rewrite (node_tup_to_idx_lookup _ _ _ Hnd Hnt). simpl.
        split; [lia|]. unfold node_faces. rewrite Hfs. exact Hf.
      * apply Hgen. eapply list_elem_of_lookup_2, Hnt.
Qed.

Lemma face_indices_list_the_nodes_witness :
  exists fi,
    face_indices (tetrahedron_of_order 2) = Ok fi
    /\ length fi = 4%nat
    /\ forall (f : nat) (face : list Z),
         fi !! f = Some face ->
         NoDup face
         /\ forall idx,
              idx ∈ face
              <-> 0 <= idx
                  /\ exists nt,
                       generate_nonnegative_integer_tuples_summing_to_at_most
                         2 3 !! Z.to_nat idx = Some nt
                       /\ on_face (tetrahedron_of_order 2) (Z.of_nat f) nt.
Proof.
  apply (face_indices_list_the_nodes_on_each_face (tetrahedron_of_order 2)).
  reflexivity.
Defined.

Lemma flat_map_length_0 {A B} (h : A -> list B) (l : list A) :
  (forall x, x ∈ l -> h x = []) -> length (flat_map h l) = 0%nat.
Proof.
  intros Hnil. rewrite flat_map_all_nil; [reflexivity|].
  apply Forall_forall, Hnil.
Qed.

Lemma flat_map_length_1 {A B} (h : A -> list B) (l : list A) :
  (forall x, x ∈ l -> length (h x) = 1%nat) ->
  length (flat_map h l) = length l.
Proof.
  induction l as [|x l IH]; intros Hone; [reflexivity|].
  simpl. rewrite length_app, (Hone x) by left.
  rewrite IH; [reflexivity|]. intros y Hy. apply Hone. right; exact Hy.
Qed.

(** A node tuple lies on face 0 exactly when its last entry is 0. *)
Lemma face_0_marks (self : ldis) (base : list Z) (i idx : Z) :
  S (length base) = dimensions self ->
  flat_map (fun g => if decide (g = 0) then [idx] else [])
    (node_faces self (base ++ [i]))
  = if decide (i = 0) then [idx] else [].
Proof.
  unfold node_faces, faces_for_node_tuple, interval_faces_for_node_tuple,
    triangle_faces_for_node_tuple, tetrahedron_faces_for_node_tuple,
    dimensions.
  destruct (cls self); intros Hlen.
  - destruct base as [|? ?]; [|discriminate]. simpl.
    repeat case_decide; simplify_eq; try reflexivity; try lia.
  - destruct base as [|m [|? ?]]; try discriminate. simpl.
    repeat case_decide; simplify_eq; try reflexivity; try lia.
  - destruct base as [|m [|n [|? ?]]]; try discriminate. simpl.
    repeat case_decide; simplify_eq; try reflexivity; try lia.
Qed.

Lemma face_0_length (self : ldis) (idx_of : list Z -> Z) (d : nat) (n : nat) :
  dimensions self = S d ->
  length
    (flat_map
       (fun nt =>
          flat_map (fun g => if decide (g = 0) then [idx_of nt] else [])
            (node_faces self nt))
       (generate_nonnegative_integer_tuples_summing_to_at_most
          (Z.of_nat n) (S d)))
  = binomial (n + d) d.
Proof.
  intros Hd. rewrite <- tuples_count.
  cbn [generate_nonnegative_integer_tuples_summing_to_at_most].
  replace (Z.of_nat n + 1) with (Z.of_nat (S n)) by lia.
  rewrite py_range_succ. cbn [flat_map].
  rewrite flat_map_app, length_app, Z.sub_0_r.
  rewrite flat_map_length_1, length_map.
  - rewrite flat_map_length_0; [lia|].
    intros nt Hnt. apply elem_of_flat_map in Hnt as (i & Hnt & Hi).
    apply list_elem_of_fmap in Hi as (j & -> & Hj).
    apply elem_of_py_range in Hj.
    apply list_elem_of_fmap in Hnt as (base & -> & Hbase).
    rewrite (face_0_marks self).
    + rewrite decide_False by lia. reflexivity.
    + rewrite Hd. f_equal.
      pose proof (tuples_length (Z.of_nat n - Z.succ j) d) as Hall.
      rewrite Forall_forall in Hall. apply Hall, Hbase.
  - intros nt Hnt. apply list_elem_of_fmap in Hnt as (base & -> & Hbase).
    rewrite (face_0_marks self).
    + reflexivity.
    + rewrite Hd. f_equal.
      pose proof (tuples_length (Z.of_nat n) d) as Hall.
      rewrite Forall_forall in Hall. apply Hall, Hbase.
Qed.

(** [face_count()] is [dimensions + 1] at every order, and
    [face_node_count()], the length of the first face's list, is the node
    count of the element one dimension lower: the binomial coefficient of
    [order + dimensions - 1] over [dimensions - 1] for an order >= 0, and 0
    for a negative order. *)
Theorem face_node_count_closed_form (self : ldis) (node_tups : list (list Z)) :
  node_tuples self = Ok node_tups ->
  face_count self = Ok (Z.of_nat (dimensions self) + 1)
  /\ face_node_count self
     = Ok (if decide (0 <= order self)
           then Z.of_nat (binomial (Z.to_nat (order self)
                                    + (dimensions self - 1))
                                   (dimensions self - 1))
           else 0).
Proof.
  intros Htups. unfold face_count, face_node_count.
  rewrite (face_indices_value self node_tups Htups).
  cbn [mbind result_bind]. split.
  - rewrite length_map, length_seq. f_equal. lia.
  - cbn [seq map]. change (py_index (?x :: ?l) 0) with (Ok x).
    cbn [mbind result_bind]. f_equal.
    destruct (dimensions_succ self) as [d Hd].
    destruct (decide (0 <= order self)) as [Hpos|Hneg].
    + rewrite Hd. replace (S d - 1)%nat with d by lia.
      rewrite <- (Z2Nat.id (order self)) at 1 by exact Hpos.
      change (Z.of_nat 0) with 0.
      rewrite (face_0_length self _ d (Z.to_nat (order self)) Hd).
      reflexivity.
    + rewrite Hd, tuples_count_negative by lia. reflexivity.
Qed.

Lemma face_node_count_closed_form_witness :
  face_count (tetrahedron_of_order 3) = Ok 4
  /\ face_node_count (tetrahedron_of_order 3) = Ok 10.
Proof.
  apply (face_node_count_closed_form (tetrahedron_of_order 3)
           (generate_nonnegative_integer_tuples_summing_to_at_most 3 3)).
  reflexivity.
Defined.

(** ** Face index shuffles *)

Lemma mapM_py_index_omap {A} (indices : list A) (idxs : list Z) :
  Forall (fun i => 0 <= i < Z.of_nat (length indices)) idxs ->
  mapM (py_index indices) idxs
  = Ok (omap (fun i => indices !! Z.to_nat i) idxs).
Proof.
  induction 1 as [|i idxs Hi _ IH]; [reflexivity|].
  cbn [mapM omap list_omap].
  destruct (py_index_nonneg indices i Hi) as (a & Ha & ->).
  rewrite Ha. cbn [mbind result_bind]. rewrite IH. reflexivity.
Qed.

Lemma mapM_py_index_raises {A} (indices : list A) (idxs : list Z) (i : Z) :
  i ∈ idxs ->
  ~ (- Z.of_nat (length indices) <= i < Z.of_nat (length indices)) ->
  Forall (fun j => - Z.of_nat (length indices) <= j
                   -> j < Z.of_nat (length indices)
                   -> exists a, py_index indices j = Ok a) idxs ->
  mapM (py_index indices) idxs = Raise IndexError.
Proof.
  intros Hin Hout Hall. induction Hall as [|j idxs Hj _ IH].
  - apply elem_of_nil in Hin as [].
  - cbn [mapM].
    destruct (decide (- Z.of_nat (length indices) <= j
                      < Z.of_nat (length indices))) as [Hrange|Hrange].
    + destruct (Hj ltac:(lia) ltac:(lia)) as [a ->].
      cbn [mbind result_bind].
      apply elem_of_cons in Hin as [->|Hin]; [contradiction|].
      rewrite (IH Hin). reflexivity.
    + assert (Hraise : py_index indices j = Raise IndexError).
      { destruct (decide (j < 0)).
        - apply py_index_below. lia.
        - apply py_index_beyond. lia. }
      rewrite Hraise. reflexivity.
Qed.

Lemma omap_lookup_py_range {A} (indices : list A) :
  omap (fun i => indices !! Z.to_nat i)
    (py_range (Z.of_nat (length indices)))
  = indices.
Proof.
  unfold py_range. rewrite Nat2Z.id.
  induction indices as [|a l IH] using rev_ind; [reflexivity|].
  rewrite length_app, Nat.add_comm. cbn [length Nat.add].
  rewrite seq_S, map_app, omap_app. cbn [map omap list_omap Nat.add].
  rewrite Nat2Z.id, list_lookup_middle by reflexivity. f_equal.
  rewrite <- IH at 2. apply list_omap_ext.
  apply Forall2_same_length_lookup_2; [reflexivity|].
  intros k i j Hi Hj. rewrite Hi in Hj. injection Hj as <-.
  apply list_lookup_fmap_Some in Hi as (n & -> & Hn).
  apply lookup_seq in Hn as [-> Hn]. rewrite Nat2Z.id.
  apply lookup_app_l. exact Hn.
Qed.

(** [FaceIndexShuffle.__call__]: a shuffle whose index map is a
    rearrangement of [0, ..., n - 1] returns a rearrangement of the [n]
    indices it is given, the same ones when the index map is the identity;
    an entry of the index map outside [-n, n) raises [IndexError]. *)
Theorem FaceIndexShuffle_call_rearranges {A} (self : FaceIndexShuffle)
  (indices : list A) :
  (idx_map self ≡ₚ py_range (Z.of_nat (length indices)) ->
   exists shuffled,
     FaceIndexShuffle_call self indices = Ok shuffled
     /\ shuffled ≡ₚ indices
     /\ (idx_map self = py_range (Z.of_nat (length indices)) ->
         shuffled = indices))
  /\ ((exists i, i ∈ idx_map self
                 /\ ~ (- Z.of_nat (length indices) <= i
                       < Z.of_nat (length indices))) ->
      FaceIndexShuffle_call self indices = Raise IndexError).
Proof.
  unfold FaceIndexShuffle_call. split.
  - intros Hperm. rewrite mapM_py_index_omap.
    + eexists; split; [reflexivity|]. split.
      * rewrite Hperm. rewrite omap_lookup_py_range. reflexivity.
      * intros ->. apply omap_lookup_py_range.
    + apply Forall_forall. intros i Hi. rewrite Hperm in Hi.
      apply elem_of_py_range in Hi. exact Hi.
  - intros (i & Hin & Hout).
    apply (mapM_py_index_raises indices _ i Hin Hout).
    apply Forall_forall. intros j _ Hlo Hhi.
    destruct (decide (j < 0)).
    + destruct (py_index_negative indices j ltac:(lia)) as (a & _ & Ha).
      eauto.
    + apply py_index_Ok. lia.
Qed.

Lemma FaceIndexShuffle_call_rearranges_witness :
  exists shuffled,
    FaceIndexShuffle_call {| vert_perm := [1; 0]; idx_map := [2; 1; 0] |}
      [7; 8; 9] = Ok shuffled
    /\ shuffled ≡ₚ [7; 8; 9]
    /\ ([2; 1; 0] = py_range 3 -> shuffled = [7; 8; 9]).
Proof.
  refine (proj1 (FaceIndexShuffle_call_rearranges
                   {| vert_perm := [1; 0]; idx_map := [2; 1; 0] |}
                   [7; 8; 9]) _).
  change (py_range (Z.of_nat (length [7; 8; 9]))) with [0; 1; 2].
  exact (reverse_Permutation [0; 1; 2]).
Defined.

(** ** The shuffle that matches two faces *)

Lemma idx_normalize_map_Some (face_1_vertices : list Z) (v j : Z) :
  py_dict (map (fun p : Z * Z => (p.2, p.1)) (py_enumerate face_1_vertices))
    !! v = Some j ->
  0 <= j /\ face_1_vertices !! Z.to_nat j = Some v.
Proof.
  rewrite py_dict_list_to_map. intros Hj.
  apply elem_of_list_to_map_2 in Hj. rewrite elem_of_reverse in Hj.
  apply list_elem_of_fmap in Hj as ([k u] & [= -> ->] & Hin).
  unfold py_enumerate in Hin.
  apply elem_of_lookup_imap_1 in Hin as (i & a & [= -> ->] & Hi).
  rewrite Nat2Z.id. split; [lia | exact Hi].
Qed.

Lemma foldM_insert_values {K V} `{Countable K} {B}
  (step : gmap K V -> B -> result (gmap K V)) (P : K -> V -> Prop)
  (bs : list B) (m0 m : gmap K V) :
  (forall res b res', step res b = Ok res' ->
                      exists k v, res' = <[k := v]> res /\ P k v) ->
  foldM step bs m0 = Ok m ->
  (forall k v, m0 !! k = Some v -> P k v) ->
  forall k v, m !! k = Some v -> P k v.
Proof.
  intros Hstep. revert m0; induction bs as [|b bs IH]; intros m0; simpl.
  - intros [= <-] Hm0. exact Hm0.
  - intros Hm Hm0. inv_bind Hm.
    destruct (Hstep _ _ _ Ha) as (k' & v' & -> & Hv').
    apply (IH _ Hm). intros k v Hk.
    apply lookup_insert_Some in Hk as [[<- <-]|[_ Hk]]; auto.
Qed.

(** Every shuffle of the lookup table is stored under its own vertex
    permutation. *)
Lemma get_face_index_shuffle_lookup_map_entries `{FloatOps F, HedgeLib F}
  (self : ldis) (m : gmap (list Z) FaceIndexShuffle) :
  get_face_index_shuffle_lookup_map self = Ok m ->
  forall k shuffle, m !! k = Some shuffle -> vert_perm shuffle = k.
Proof.
  unfold get_face_index_shuffle_lookup_map,
    get_face_index_shuffle_lookup_map_for_nodes.
  intros Hm. do 9 inv_bind Hm.
  eapply (foldM_insert_values _ (fun k shuffle => vert_perm shuffle = k));
    [|exact Hm|].
  - intros res vp res' Hstep. do 3 inv_bind Hstep.
    injection Hstep as <-. eauto.
  - intros k v Hk. rewrite lookup_empty in Hk. discriminate.
Qed.

(** [get_face_index_shuffle_to_match] on two orderings of the same
    [dimensions] distinct vertices, once the lookup table is built: the
    shuffle returned is the entry of the table whose vertex permutation
    gives, for each vertex of [face_2_vertices], its position in
    [face_1_vertices]; for equal orderings it is the entry of the identity
    permutation. *)
Theorem face_shuffle_is_found_by_vertex_positions `{FloatOps F, HedgeLib F}
  (self : ldis) (face_1_vertices face_2_vertices : list Z)
  (lookup_map : gmap (list Z) FaceIndexShuffle) :
  get_face_index_shuffle_lookup_map self = Ok lookup_map ->
  NoDup face_1_vertices ->
  length face_1_vertices = dimensions self ->
  face_2_vertices ≡ₚ face_1_vertices ->
  exists shuffle,
    get_face_index_shuffle_to_match self face_1_vertices face_2_vertices
    = Ok shuffle
    /\ lookup_map !! vert_perm shuffle = Some shuffle
    /\ Forall2 (fun v j => 0 <= j /\ face_1_vertices !! Z.to_nat j = Some v)
               face_2_vertices (vert_perm shuffle)
    /\ (face_2_vertices = face_1_vertices ->
        vert_perm shuffle = py_range (Z.of_nat (dimensions self))).
Proof.
  intros Hmap Hnd Hlen Hperm.
  unfold get_face_index_shuffle_to_match. rewrite Hmap.
  cbn [mbind result_bind].
  destruct (get_face_index_shuffle_backend_present
              face_1_vertices face_2_vertices lookup_map)
    as (key & Hkey & ->).
  { intros v Hv. rewrite <- Hperm. exact Hv. }
  pose proof (normalized_vertices_permutation _ _ _ Hnd Hperm Hkey) as Hp.
  rewrite Hlen in Hp. apply permutations_Permutation in Hp.
  apply (get_face_index_shuffle_lookup_map_keys self lookup_map Hmap) in Hp.
  destruct Hp as [shuffle Hs].
  pose proof (get_face_index_shuffle_lookup_map_entries self lookup_map Hmap
                key shuffle Hs) as Hvp.
  exists shuffle. rewrite Hvp.
  split; [apply py_getitem_Some, Hs|]. split; [exact Hs|]. split.
  - eapply Forall2_impl; [exact Hkey|].
    intros v j Hj. apply idx_normalize_map_Some, Hj.
  - intros ->. rewrite <- Hlen. clear Hperm Hs Hvp Hlen.
    apply list_eq. intros i.
    destruct (face_1_vertices !! i) as [v|] eqn:Hi.
    + rewrite py_range_lookup by (eapply lookup_lt_Some; eassumption).
      destruct (Forall2_lookup_l _ _ _ _ _ Hkey Hi) as (j & Hj & Hv).
      rewrite (idx_normalize_map_lookup _ _ _ Hnd Hi) in Hv.
      injection Hv as <-. exact Hj.
    + rewrite (proj2 (lookup_ge_None _ _)).
      * symmetry. apply lookup_ge_None.
        rewrite py_range_length, Nat2Z.id. apply lookup_ge_None, Hi.
      * rewrite <- (Forall2_length _ _ _ Hkey). apply lookup_ge_None, Hi.
Qed.

Lemma face_shuffle_is_found_witness :
  exists shuffle,
    get_face_index_shuffle_to_match (F:=Q) (triangle_of_order 1)
      [5; 6] [6; 5] = Ok shuffle
    /\ Forall2 (fun v j => 0 <= j /\ [5; 6] !! Z.to_nat j = Some v)
               [6; 5] (vert_perm shuffle).
Proof.
  destruct (get_face_index_shuffle_lookup_map (F:=Q) (triangle_of_order 1))
    as [m|e] eqn:Hm.
  - destruct (face_shuffle_is_found_by_vertex_positions (F:=Q)
                (triangle_of_order 1) [5; 6] [6; 5] m Hm)
      as (shuffle & Hs & _ & Hpos & _).
    + repeat constructor; rewrite ?elem_of_cons, ?elem_of_nil; lia.
    + reflexivity.
    + apply Permutation_swap.
    + exists shuffle. split; assumption.
  - vm_compute in Hm. discriminate.
Defined.

(** ** The inverse mass matrix *)

Lemma column_lookup {F} (m : list (list F)) (h w j : nat) :
  has_shape m h w -> (j < w)%nat ->
  forall i, column m j !! i = (r ← m !! i; r !! j).
Proof.
  intros [_ Hall] Hj. unfold column. clear h.
  induction Hall as [|r m Hr _ IH]; intros i; [reflexivity|].
  cbn [omap list_omap].
  destruct (r !! j) as [x|] eqn:Hx.
  - destruct i as [|i]; simpl; [exact (eq_sym Hx)|]. apply IH.
  - apply lookup_ge_None in Hx. lia.
Qed.

Lemma column_length {F} (m : list (list F)) (h w j : nat) :
  has_shape m h w -> (j < w)%nat -> length (column m j) = h.
Proof.
  intros [<- Hall] Hj. unfold column.
  induction Hall as [|r m Hr _ IH]; [reflexivity|].
  cbn [omap list_omap].
  destruct (r !! j) as [x|] eqn:Hx.
  - simpl. f_equal. exact IH.
  - apply lookup_ge_None in Hx. lia.
Qed.

Lemma ncols_shape {F} (m : list (list F)) (h w : nat) :
  has_shape m h w -> (0 < h)%nat -> ncols m = w.
Proof.
  intros [Hlen Hall] Hh. destruct Hall as [|r m Hr _]; simpl in *; lia.
Qed.

Lemma transpose_shape {F} (m : list (list F)) (h w : nat) :
  has_shape m h w -> (0 < h)%nat -> has_shape (transpose m) w h.
Proof.
  intros Hm Hh. unfold transpose. rewrite (ncols_shape m h w Hm Hh). split.
  - rewrite length_map, length_seq. reflexivity.
  - apply Forall_forall. intros c Hc.
    apply list_elem_of_fmap in Hc as (j & -> & Hj).
    apply elem_of_seq in Hj. apply (column_length m h w); [exact Hm | lia].
Qed.

(** Column [i] of the transpose is row [i]. *)
Lemma column_transpose {F} (m : list (list F)) (h w i : nat) (r : list F) :
  has_shape m h w -> m !! i = Some r -> column (transpose m) i = r.
Proof.
  intros Hm Hi.
  assert (Hh : (0 < h)%nat).
  { destruct Hm as [<- _]. apply lookup_lt_Some in Hi. lia. }
  assert (Hr : length r = w).
  { destruct Hm as [_ Hall]. rewrite Forall_forall in Hall.
    eapply Hall, list_elem_of_lookup_2, Hi. }
  pose proof (transpose_shape m h w Hm Hh) as Ht.
  apply list_eq. intros j.
  rewrite (column_lookup (transpose m) w h i Ht)
    by (destruct Hm as [<- _]; eapply lookup_lt_Some, Hi).
  unfold transpose. rewrite (ncols_shape m h w Hm Hh).
  rewrite list_lookup_fmap.
  destruct (decide (j < w)%nat) as [Hj|Hj].
  - rewrite lookup_seq_lt by exact Hj. simpl.
    rewrite (column_lookup m h w j Hm Hj). rewrite Hi. reflexivity.
  - rewrite lookup_seq_ge by lia. simpl. symmetry.
    apply lookup_ge_None. lia.
Qed.

Lemma dot_row_col_comm `{FloatOps F} (a b : list F) :
  (forall x y : F, fmul x y = fmul y x) ->
  dot_row_col a b = dot_row_col b a.
Proof.
  intros Hcomm. unfold dot_row_col. f_equal.
  revert b; induction a as [|x a IH]; intros [|y b]; simpl;
    try reflexivity.
  rewrite Hcomm, IH. reflexivity.
Qed.

(** [numpy.dot(v, v.T)] for an array [v] of shape [(h, w)] with [w > 0]. *)
Lemma dot_transpose `{FloatOps F} (v : list (list F)) (h w : nat) :
  has_shape v h w -> (0 < w)%nat ->
  dot v (transpose v)
  = Ok (map (fun r => map (fun r' => dot_row_col r r') v) v).
Proof.
  intros Hv Hw. unfold dot.
  destruct (decide (h = 0)%nat) as [->|Hh].
  { destruct Hv as [Hlen _]. apply nil_length_inv in Hlen. subst v.
    reflexivity. }
  pose proof (transpose_shape v h w Hv ltac:(lia)) as Ht.
  rewrite decide_True.
  2:{ unfold nrows, transpose. rewrite length_map, length_seq. reflexivity. }
  rewrite (ncols_shape (transpose v) w h Ht Hw).
  f_equal. apply map_ext. intros r.
  apply list_eq. intros i. rewrite !list_lookup_fmap.
  destruct (v !! i) as [r'|] eqn:Hi.
  - rewrite lookup_seq_lt
      by (destruct Hv as [<- _]; eapply lookup_lt_Some, Hi).
    simpl. rewrite (column_transpose v h w i r' Hv Hi). reflexivity.
  - rewrite lookup_seq_ge
      by (destruct Hv as [<- _]; apply lookup_ge_None, Hi).
    reflexivity.
Qed.

(** [inverse_mass_matrix()] is a symmetric square array: when the
    Vandermonde matrix has shape [(h, w)] with [w > 0] and the
    multiplication of the floats is commutative, [numpy.dot(v, v.T)]
    raises nothing, has shape [(h, h)], and its entries at [(i, j)] and at
    [(j, i)] are the same float. *)
Theorem inverse_mass_matrix_symmetric `{FloatOps F, HedgeLib F}
  (self : ldis) (v : list (list F)) (h w : nat) :
  (forall x y : F, fmul x y = fmul y x) ->
  vandermonde (M:=result) self = Ok v ->
  has_shape v h w -> (0 < w)%nat ->
  exists m,
    inverse_mass_matrix (M:=result) self = Ok m
    /\ has_shape m h h
    /\ forall i j, entry m i j = entry m j i.
Proof.
  intros Hcomm Hvdm Hv Hw.
  rewrite inverse_mass_matrix_value, Hvdm. cbn [mbind result_bind].
  rewrite (dot_transpose v h w Hv Hw).
  eexists; split; [reflexivity|]. split.
  - destruct Hv as [Hlen _]. split; [rewrite length_map; exact Hlen|].
    apply Forall_forall. intros r Hr.
    apply list_elem_of_fmap in Hr as (r' & -> & _).
    rewrite length_map. exact Hlen.
  - intros i j. unfold entry. rewrite !list_lookup_fmap.
    destruct (v !! i) as [ri|] eqn:Hi, (v !! j) as [rj|] eqn:Hj; simpl;
      rewrite ?list_lookup_fmap, ?Hi, ?Hj; simpl; try reflexivity.
    f_equal. apply dot_row_col_comm, Hcomm.
Qed.

Lemma inverse_mass_matrix_symmetric_witness :
  exists m,
    inverse_mass_matrix (M:=result) (F:=Q) (interval_of_order 2) = Ok m
    /\ has_shape m 3 3
    /\ forall i j, entry m i j = entry m j i.
Proof.
  apply (inverse_mass_matrix_symmetric (F:=Q) (interval_of_order 2)
           [[1; -1; 1]; [1; 0; 0]; [1; 1; 1]]%Q 3 3).
  - intros x y. apply Qred_complete, Qmult_comm.
  - vm_compute. reflexivity.
  - split; [reflexivity | repeat constructor].
  - lia.
Defined.

(** ** The lifting matrix on the device *)

Lemma py_range_step_length (fuel : nat) (start stop step : Z) :
  0 < step -> (Z.to_nat (stop - start) <= fuel)%nat ->
  Z.of_nat (length (py_range_step fuel start stop step))
  = Z.max 0 ((stop - start + step - 1) / step).
Proof.
  intros Hstep. revert start.
  induction fuel as [|fuel IH]; intros start Hfuel.
  - simpl. assert (stop - start <= 0) by lia.
    assert ((stop - start + step - 1) / step <= 0); [|lia].
    apply Z.lt_succ_r, Z.div_lt_upper_bound; lia.
  - cbn [py_range_step].
    destruct (Z.ltb_spec start stop) as [Hlt|Hge].
    + cbn [length]. rewrite Nat2Z.inj_succ, IH by lia.
      replace (stop - start + step - 1)
        with (stop - start - 1 + 1 * step) by lia.
      replace (stop - (start + step) + step - 1)
        with (stop - start - 1) by lia.
      rewrite Z.div_add by lia.
      assert (0 <= (stop - start - 1) / step) by (apply Z.div_pos; lia).
      lia.
    + simpl. assert ((stop - start + step - 1) / step <= 0); [|lia].
      apply Z.lt_succ_r, Z.div_lt_upper_bound; lia.
Qed.

(** [gpu_liftmat] with a positive chunk size, on a plan whose
    [dofs_per_el()] is the number of rows of the matrix: the number of
    columns is made odd by adding at most one; the stacked copies of the
    matrix are cut into [ceil(elements * dofs_per_el / chunk_size)] chunks
    of at most [chunk_size] rows, and the chunks put end to end are the
    stacked matrix, converted to the float type: no row is lost or
    repeated. *)
Theorem gpu_liftmat_chunks_cover_the_matrix `{FloatOps F, HedgeLib F}
  (discr : discretization F) (is_lift : bool) (mat : list (list F)) :
  liftmat_source (discr_flux_plan discr) is_lift = Ok mat ->
  0 < elements (fplan_microblock (discr_flux_plan discr)) ->
  0 < chunk_size (flux_lifting_plan (discr_flux_plan discr)) ->
  Z.of_nat (nrows mat) = dofs_per_el (discr_flux_plan discr) ->
  exists data,
    gpu_liftmat discr is_lift = Ok data
    /\ matrix_columns data `mod` 2 = 1
    /\ face_dofs_per_el (discr_flux_plan discr) <= matrix_columns data
       <= face_dofs_per_el (discr_flux_plan discr) + 1
    /\ Z.of_nat (length (device_memory data).1)
       = (elements (fplan_microblock (discr_flux_plan discr))
          * dofs_per_el (discr_flux_plan discr)
          + chunk_size (flux_lifting_plan (discr_flux_plan discr)) - 1)
         / chunk_size (flux_lifting_plan (discr_flux_plan discr))
    /\ Forall (fun chunk =>
                 Z.of_nat (length chunk)
                 <= chunk_size (flux_lifting_plan (discr_flux_plan discr)))
              (device_memory data).1
    /\ concat (device_memory data).1
       = map (map (astype (discr_flux_plan discr)))
           (stacked_liftmat (discr_flux_plan discr) (matrix_columns data)
              mat).
Proof.
  intros Hsrc Hel Hchunk Hrows. unfold gpu_liftmat.
  set (fplan := discr_flux_plan discr) in *.
  set (c := chunk_size (flux_lifting_plan fplan)) in *.
  set (e := elements (fplan_microblock fplan)) in *.
  set (columns := if decide (face_dofs_per_el fplan `mod` 2 = 0)
                  then face_dofs_per_el fplan + 1
                  else face_dofs_per_el fplan).
  rewrite Hsrc. cbn [mbind result_bind].
  destruct (Z.leb_spec e 0) as [?|_]; [lia|].
  fold (stacked_liftmat fplan columns mat).
  unfold py_range3. rewrite decide_False by lia.
  destruct (Z.ltb_spec 0 c) as [_|?]; [|lia].
  cbn [mbind result_bind].
  eexists; split; [reflexivity|].
  cbn [matrix_columns device_memory fst].
  assert (Hlen : Z.of_nat (length (stacked_liftmat fplan columns mat))
                 = e * dofs_per_el fplan).
  { rewrite stacked_liftmat_length, <- Hrows. unfold nrows. lia. }
  repeat split.
  - subst columns. case_decide as Hmod.
    + rewrite Z.add_mod, Hmod by lia. reflexivity.
    + pose proof (Z.mod_pos_bound (face_dofs_per_el fplan) 2). lia.
  - subst columns. case_decide; lia.
  - subst columns. case_decide; lia.
  - rewrite length_map, py_range_step_length by lia.
    rewrite Z.sub_0_r.
    assert (0 <= (e * dofs_per_el fplan + c - 1) / c); [|lia].
    apply Z.div_pos; lia.
  - apply Forall_forall. intros chunk Hin.
    apply list_elem_of_fmap in Hin as (chunk_start & -> & _).
    rewrite length_map. unfold py_slice. rewrite length_take. lia.
  - rewrite <- (map_map (fun s => py_slice _ s (s + c))
                  (map (map (astype fplan)))).
    rewrite <- concat_map. f_equal.
    apply (py_range_step_slices (stacked_liftmat fplan columns mat)
             _ 0 (e * dofs_per_el fplan) c); lia.
Qed.

Lemma gpu_liftmat_chunks_cover_witness :
  exists data,
    gpu_liftmat example_discr true = Ok data
    /\ matrix_columns data `mod` 2 = 1
    /\ 2 <= matrix_columns data <= 2 + 1
    /\ Z.of_nat (length (device_memory data).1) = (4 * 2 + 3 - 1) / 3
    /\ Forall (fun chunk => Z.of_nat (length chunk) <= 3)
              (device_memory data).1
    /\ concat (device_memory data).1
       = map (map (fun x => x))
           (stacked_liftmat (discr_flux_plan example_discr)
              (matrix_columns data) [[2; 0]; [0; 2]]%Q).
Proof.
  apply (gpu_liftmat_chunks_cover_the_matrix example_discr true
           [[2; 0]; [0; 2]]%Q).
  - vm_compute. reflexivity.
  - reflexivity.
  - reflexivity.
  - reflexivity.
Defined.

(** ** The chunk boundaries of the first kernel *)

Lemma mapM_result_Forall2 {A B} (f : A -> result B) (P : A -> B -> Prop)
  (l : list A) :
  Forall (fun x => exists y, f x = Ok y /\ P x y) l ->
  exists r, mapM f l = Ok r /\ Forall2 P l r.
Proof.
  induction 1 as [|x l (y & Hy & HP) _ (r & Hr & Hall)]; simpl.
  - exists []. split; [reflexivity | constructor].
  - rewrite Hy; simpl. rewrite Hr; simpl.
    exists (y :: r). split; [reflexivity | constructor; assumption].
Qed.

Lemma mapM_raises_first {A B} (f : A -> result B) (x : A) (l : list A)
  (e : exn) :
  f x = Raise e -> mapM f (x :: l) = Raise e.
Proof. intros Hx. simpl. rewrite Hx. reflexivity. Qed.

Lemma py_range_nonempty (n : Z) :
  0 < n -> py_range n = 0 :: map Z.succ (py_range (n - 1)).
Proof.
  intros Hn. rewrite <- (Z2Nat.id (n - 1)) by lia.
  rewrite <- py_range_succ. f_equal. lia.
Qed.

Lemma py_range_lookup_Some (n : Z) (i : nat) (k : Z) :
  py_range n !! i = Some k -> k = Z.of_nat i /\ 0 <= k < n.
Proof.
  unfold py_range. intros Hi.
  apply list_lookup_fmap_Some in Hi as (j & -> & Hj).
  apply lookup_seq in Hj as [-> Hj]. lia.
Qed.

Lemma div_add_le (x y d : Z) :
  0 < d -> (x + y) / d <= x / d + y / d + 1.
Proof.
  intros Hd. apply Z.lt_succ_r, Z.div_lt_upper_bound; [exact Hd|].
  pose proof (Z.div_mod x d ltac:(lia)).
  pose proof (Z.div_mod y d ltac:(lia)).
  pose proof (Z.mod_pos_bound x d Hd).
  pose proof (Z.mod_pos_bound y d Hd).
  nia.
Qed.

Lemma chunk_el_lookup_bounds {F} (fplan : flux_plan F) :
  0 < dofs_per_el fplan ->
  0 < chunk_size (flux_lifting_plan fplan) ->
  exists starts stops,
    chunk_start_el_lookup fplan = Ok starts
    /\ chunk_stop_el_lookup fplan = Ok stops
    /\ length starts
       = Z.to_nat (chunks_per_microblock (flux_lifting_plan fplan))
    /\ length stops
       = Z.to_nat (chunks_per_microblock (flux_lifting_plan fplan))
    /\ forall (chk : nat) (a b : Z),
         starts !! chk = Some a -> stops !! chk = Some b ->
         0 <= a
         /\ b <= elements (fplan_microblock fplan)
         /\ b - a <= (chunk_size (flux_lifting_plan fplan) - 1)
                     / dofs_per_el fplan + 2
         /\ (a < elements (fplan_microblock fplan) -> a < b).
Proof.
  unfold chunk_start_el_lookup, chunk_stop_el_lookup.
  set (c := chunk_size (flux_lifting_plan fplan)).
  set (d := dofs_per_el fplan).
  set (e := elements (fplan_microblock fplan)).
  set (n := chunks_per_microblock (flux_lifting_plan fplan)).
  intros Hd Hc.
  rewrite (mapM_result_map _ (fun chk => (chk * c) `div` d)).
  2:{ apply Forall_forall. intros chk _. unfold py_floordiv.
      rewrite decide_False by lia. reflexivity. }
  rewrite (mapM_result_map _
             (fun chk => Z.min e ((chk * c + c - 1) `div` d + 1))).
  2:{ apply Forall_forall. intros chk _. unfold py_floordiv.
      rewrite decide_False by lia. reflexivity. }
  eexists _, _. split; [reflexivity|]. split; [reflexivity|].
  rewrite !length_map, py_range_length.
  split; [reflexivity|]. split; [reflexivity|].
  intros chk a b Ha Hb.
  apply list_lookup_fmap_Some in Ha as (k & -> & Hk).
  apply list_lookup_fmap_Some in Hb as (k' & -> & Hk').
  rewrite Hk in Hk'. injection Hk' as <-.
  apply py_range_lookup_Some in Hk as [_ [Hk _]].
  assert (Hstart : 0 <= (k * c) `div` d) by (apply Z.div_pos; nia).
  assert (Hmono : (k * c) `div` d <= (k * c + c - 1) `div` d)
    by (apply Z.div_le_mono; lia).
  pose proof (div_add_le (k * c) (c - 1) d Hd) as Hadd.
  replace (k * c + (c - 1)) with (k * c + c - 1) in Hadd by lia.
  repeat split; lia.
Qed.

(** The two tables [chunk_start_el_lookup] and [chunk_stop_el_lookup] of
    the generated module.  With positive [dofs_per_el()] and [chunk_size]
    each has [chunks_per_microblock()] entries; a chunk starts at an element
    number >= 0, stops at most at [microblock.elements], touches at most
    [(chunk_size - 1) // dofs_per_el + 2] elements, and touches at least one
    whenever it starts inside the microblock.  With [dofs_per_el() == 0] and
    at least one chunk, building either table raises
    [ZeroDivisionError]. *)
Theorem chunk_el_lookup_tables {F} (fplan : flux_plan F) :
  (0 < dofs_per_el fplan ->
   0 < chunk_size (flux_lifting_plan fplan) ->
   exists starts stops,
     chunk_start_el_lookup fplan = Ok starts
     /\ chunk_stop_el_lookup fplan = Ok stops
     /\ length starts
        = Z.to_nat (chunks_per_microblock (flux_lifting_plan fplan))
     /\ length stops
        = Z.to_nat (chunks_per_microblock (flux_lifting_plan fplan))
     /\ forall (chk : nat) (a b : Z),
          starts !! chk = Some a -> stops !! chk = Some b ->
          0 <= a
          /\ b <= elements (fplan_microblock fplan)
          /\ b - a <= (chunk_size (flux_lifting_plan fplan) - 1)
                      / dofs_per_el fplan + 2
          /\ (a < elements (fplan_microblock fplan) -> a < b))
  /\ (dofs_per_el fplan = 0 ->
      0 < chunks_per_microblock (flux_lifting_plan fplan) ->
      chunk_start_el_lookup fplan = Raise ZeroDivisionError
      /\ chunk_stop_el_lookup fplan = Raise ZeroDivisionError).
Proof.
  split; [apply chunk_el_lookup_bounds|].
  unfold chunk_start_el_lookup, chunk_stop_el_lookup.
  intros Hd Hn. rewrite (py_range_nonempty _ Hn).
  split; apply mapM_raises_first; unfold py_floordiv;
    rewrite decide_True by exact Hd; reflexivity.
Qed.

Lemma chunk_el_lookup_tables_witness :
  exists starts stops,
    chunk_start_el_lookup (discr_flux_plan example_discr) = Ok starts
    /\ chunk_stop_el_lookup (discr_flux_plan example_discr) = Ok stops
    /\ length starts = 3%nat
    /\ length stops = 3%nat
    /\ forall (chk : nat) (a b : Z),
         starts !! chk = Some a -> stops !! chk = Some b ->
         0 <= a /\ b <= 4 /\ b - a <= (3 - 1) / 2 + 2 /\ (a < 4 -> a < b).
Proof.
  apply (proj1 (chunk_el_lookup_tables (discr_flux_plan example_discr)));
    reflexivity.
Defined.

Lemma seq_mb_loop_Ok {F} (fplan : flux_plan F) (is_lift : bool)
  (fetch_count : Z) :
  0 < chunk_size (flux_lifting_plan fplan) ->
  exists loop,
    seq_mb_loop fplan is_lift fetch_count
    = Ok ("chunk_el_count == " +:+ fmt_d fetch_count, loop).
Proof.
  intros Hc. unfold seq_mb_loop, get_mat_mul_code,
    get_batched_fetch_mat_mul_code, py_range3.
  case_decide.
  - rewrite decide_False by lia.
    destruct (Z.ltb_spec 0 (chunk_size (flux_lifting_plan fplan)));
      [|lia].
    cbn [mbind result_bind]. eexists. reflexivity.
  - cbn [mbind result_bind]. eexists. reflexivity.
Qed.

(** The branches of the [make_multiple_ifs] of the first kernel cover every
    chunk: when [max_elements_touched_by_chunk()] is at least
    [(chunk_size - 1) // dofs_per_el + 2], the number of elements a chunk
    touches, [chunk_stop_el_lookup[chk] - chunk_start_el_lookup[chk]], if it
    is positive, is the [k] of one of the conditions
    ["chunk_el_count == k"]. *)
Theorem every_chunk_count_has_a_branch {F} (fplan : flux_plan F)
  (is_lift : bool) :
  0 < dofs_per_el fplan ->
  0 < chunk_size (flux_lifting_plan fplan) ->
  (chunk_size (flux_lifting_plan fplan) - 1) / dofs_per_el fplan + 2
  <= max_elements_touched_by_chunk (flux_lifting_plan fplan) ->
  exists starts stops log load branches,
    chunk_start_el_lookup fplan = Ok starts
    /\ chunk_stop_el_lookup fplan = Ok stops
    /\ apply_lift_mat_body fplan is_lift
       = Ok [log; load; MultipleIfs branches]
    /\ forall (chk : nat) (a b : Z),
         starts !! chk = Some a -> stops !! chk = Some b -> a < b ->
         "chunk_el_count == " +:+ fmt_d (b - a) ∈ map fst branches.
Proof.
  intros Hd Hc Hmax.
  destruct (chunk_el_lookup_bounds fplan Hd Hc)
    as (starts & stops & Hstarts & Hstops & _ & _ & Hbounds).
  unfold apply_lift_mat_body.
  destruct (mapM_result_Forall2 (seq_mb_loop fplan is_lift)
              (fun k br => br.1 = "chunk_el_count == " +:+ fmt_d k)
              (map (fun i => i + 1)
                 (py_range (max_elements_touched_by_chunk
                              (flux_lifting_plan fplan)))))
    as (branches & -> & Hbranches).
  { apply Forall_forall. intros k _.
    destruct (seq_mb_loop_Ok fplan is_lift k Hc) as [loop ->]. eauto. }
  cbn [mbind result_bind].
  exists starts, stops. eexists _, _, branches.
  split; [exact Hstarts|]. split; [exact Hstops|].
  split; [reflexivity|].
  intros chk a b Ha Hb Hlt.
  destruct (Hbounds chk a b Ha Hb) as (_ & _ & Hcount & _).
  assert (Hk : map (fun i => i + 1)
                 (py_range (max_elements_touched_by_chunk
                              (flux_lifting_plan fplan)))
               !! Z.to_nat (b - a - 1) = Some (b - a)).
  { apply list_lookup_fmap_Some. exists (b - a - 1). split; [lia|].
    rewrite <- (Z2Nat.id (max_elements_touched_by_chunk _)) by lia.
    rewrite py_range_lookup by lia. f_equal. lia. }
  destruct (Forall2_lookup_l _ _ _ _ _ Hbranches Hk) as (br & Hbr & <-).
  apply list_elem_of_fmap. exists br. split; [reflexivity|].
  eapply list_elem_of_lookup_2, Hbr.
Qed.

Lemma every_chunk_count_has_a_branch_witness :
  exists starts stops log load branches,
    chunk_start_el_lookup example_single_dof_plan = Ok starts
    /\ chunk_stop_el_lookup example_single_dof_plan = Ok stops
    /\ apply_lift_mat_body example_single_dof_plan true
       = Ok [log; load; MultipleIfs branches]
    /\ forall (chk : nat) (a b : Z),
         starts !! chk = Some a -> stops !! chk = Some b -> a < b ->
         "chunk_el_count == " +:+ fmt_d (b - a) ∈ map fst branches.
Proof.
  apply (every_chunk_count_has_a_branch example_single_dof_plan true).
  - reflexivity.
  - reflexivity.
  - vm_compute. discriminate.
Defined.

(** ** Quadrature *)

Lemma face_count_value (self : ldis) (node_tups : list (list Z)) :
  node_tuples self = Ok node_tups ->
  face_count self = Ok (Z.of_nat (S (dimensions self))).
Proof.
  intros Htups. unfold face_count.
  rewrite (face_indices_value self node_tups Htups).
  cbn [mbind result_bind]. rewrite length_map, length_seq. reflexivity.
Qed.

Lemma py_range_app (a b : nat) :
  py_range (Z.of_nat (a + b))
  = py_range (Z.of_nat a)
    ++ map (fun i => Z.of_nat a + i) (py_range (Z.of_nat b)).
Proof.
  unfold py_range. rewrite !Nat2Z.id, seq_app, map_app. f_equal.
  rewrite map_map. cbn [Nat.add].
  replace (seq a b) with (map (Nat.add a) (seq 0 b))
    by (rewrite <- (Nat.add_0_r a) at 2; apply fmap_add_seq).
  rewrite map_map. apply map_ext. intros i. lia.
Qed.

Lemma py_range2_tiles (fnc n : nat) :
  concat (map (fun face_idx =>
                 py_range2 (Z.of_nat fnc * face_idx)
                           (Z.of_nat fnc * (face_idx + 1)))
              (py_range (Z.of_nat n)))
  = py_range (Z.of_nat (fnc * n)).
Proof.
  induction n as [|n IH].
  - rewrite Nat.mul_0_r. reflexivity.
  - replace (S n) with (n + 1)%nat by lia.
    rewrite py_range_app, map_app, concat_app, IH.
    replace (fnc * (n + 1))%nat with (fnc * n + fnc)%nat by lia.
    rewrite py_range_app. f_equal.
    change (py_range (Z.of_nat 1)) with [0]. cbn [map concat].
    rewrite app_nil_r. unfold py_range2.
    replace (Z.of_nat fnc * (Z.of_nat n + 0 + 1)
             - Z.of_nat fnc * (Z.of_nat n + 0)) with (Z.of_nat fnc) by lia.
    apply map_ext. intros i. lia.
Qed.

(** [QuadratureInfo.face_indices()]: one list per face of the element, each
    with [face_node_count()] numbers, and the lists put end to end are
    [0, 1, ..., face_count() * face_node_count() - 1]: the faces share no
    number and leave none out. *)
Theorem QuadratureInfo_face_indices_tile {F} (self : QuadratureInfo F)
  (node_tups : list (list Z)) :
  node_tuples (qi_ldis self) = Ok node_tups ->
  exists fi,
    QuadratureInfo_face_indices self = Ok fi
    /\ QuadratureInfo_face_count self = Ok (Z.of_nat (length fi))
    /\ Forall (fun f => Z.of_nat (length f)
                        = QuadratureInfo_face_node_count self) fi
    /\ concat fi
       = py_range (QuadratureInfo_face_node_count self
                   * Z.of_nat (length fi)).
Proof.
  intros Htups.
  unfold QuadratureInfo_face_indices, QuadratureInfo_face_count,
    QuadratureInfo_face_node_count.
  rewrite (face_count_value _ _ Htups). cbn [mbind result_bind].
  eexists; split; [reflexivity|].
  rewrite length_map, py_range_length, Nat2Z.id.
  split; [reflexivity|]. split.
  - apply Forall_forall. intros f Hf.
    apply list_elem_of_fmap in Hf as (face_idx & -> & _).
    unfold py_range2. rewrite length_map, py_range_length. lia.
  - rewrite py_range2_tiles. f_equal. lia.
Qed.

Lemma QuadratureInfo_face_indices_tile_witness :
  exists fi,
    QuadratureInfo_face_indices example_quadrature = Ok fi
    /\ QuadratureInfo_face_count example_quadrature
       = Ok (Z.of_nat (length fi))
    /\ Forall (fun f => Z.of_nat (length f) = 3) fi
    /\ concat fi = py_range (3 * Z.of_nat (length fi)).
Proof.
  apply (QuadratureInfo_face_indices_tile example_quadrature
           [[0; 0]; [1; 0]; [0; 1]]).
  reflexivity.
Defined.

Lemma get_face_index_shuffle_lookup_map_for_nodes_keys
  `{FloatOps F, HedgeLib F} (self : ldis) (face_nodes : list (list F))
  (m : gmap (list Z) FaceIndexShuffle) :
  get_face_index_shuffle_lookup_map_for_nodes self face_nodes = Ok m ->
  forall k, is_Some (m !! k)
            <-> k ∈ permutations (py_range (Z.of_nat (dimensions self))).
Proof.
  unfold get_face_index_shuffle_lookup_map_for_nodes.
  intros Hm k. do 5 inv_bind Hm.
  eapply (foldM_insert_keys _ (fun vp => vp)) with (k := k) in Hm.
  - rewrite Hm, map_id, lookup_empty.
    unfold generate_unique_permutations.
    split; [intros [?|[? ?]]; [assumption|discriminate] | auto].
  - intros res vp res' Hstep. do 3 inv_bind Hstep.
    injection Hstep as <-. eauto.
Qed.

(** [QuadratureInfo.get_face_index_shuffle_to_match], once its lookup table
    (built for the quadrature nodes of a face) exists: it raises
    [FaceVertexMismatch] if and only if a vertex of [face_2_vertices] does
    not occur in [face_1_vertices], and it returns a shuffle when
    [face_1_vertices] holds [dimensions] distinct vertices and
    [face_2_vertices] is a rearrangement of them. *)
Theorem QuadratureInfo_face_vertex_mismatch `{FloatOps F, HedgeLib F}
  (self : QuadratureInfo F) (face_1_vertices face_2_vertices : list Z)
  (lookup_map : gmap (list Z) FaceIndexShuffle) :
  QuadratureInfo_get_face_index_shuffle_lookup_map self = Ok lookup_map ->
  ((exists value,
       QuadratureInfo_get_face_index_shuffle_to_match self face_1_vertices
         face_2_vertices
       = Raise (FaceVertexMismatch value))
   <-> exists v, v ∈ face_2_vertices /\ v ∉ face_1_vertices)
  /\ (NoDup face_1_vertices ->
      length face_1_vertices = dimensions (qi_ldis self) ->
      face_2_vertices ≡ₚ face_1_vertices ->
      exists shuffle,
        QuadratureInfo_get_face_index_shuffle_to_match self face_1_vertices
          face_2_vertices
        = Ok shuffle).
Proof.
  intros Hmap. unfold QuadratureInfo_get_face_index_shuffle_to_match.
  rewrite Hmap. cbn [mbind result_bind]. split.
  - apply get_face_index_shuffle_backend_mismatch.
  - intros Hnd Hlen Hperm.
    destruct (get_face_index_shuffle_backend_present
                face_1_vertices face_2_vertices lookup_map)
      as (key & Hkey & ->).
    { intros v Hv. rewrite <- Hperm. exact Hv. }
    pose proof (normalized_vertices_permutation _ _ _ Hnd Hperm Hkey) as Hp.
    rewrite Hlen in Hp. apply permutations_Permutation in Hp.
    apply (get_face_index_shuffle_lookup_map_for_nodes_keys
             (qi_ldis self) (face_nodes self) lookup_map Hmap) in Hp.
    destruct Hp as [shuffle Hs]. exists shuffle.
    apply py_getitem_Some, Hs.
Qed.

Lemma QuadratureInfo_face_vertex_mismatch_witness :
  (exists value,
      QuadratureInfo_get_face_index_shuffle_to_match
        example_interval_quadrature [5] [7]
      = Raise (FaceVertexMismatch value))
  /\ exists shuffle,
       QuadratureInfo_get_face_index_shuffle_to_match
         example_interval_quadrature [5] [5]
       = Ok shuffle.
Proof.
  destruct (QuadratureInfo_get_face_index_shuffle_lookup_map
              example_interval_quadrature) as [m|e] eqn:Hm.
  - split.
    + apply (proj1 (QuadratureInfo_face_vertex_mismatch
                      example_interval_quadrature [5] [7] m Hm)).
      exists 7. rewrite !elem_of_cons, elem_of_nil. lia.
    + apply (proj2 (QuadratureInfo_face_vertex_mismatch
                      example_interval_quadrature [5] [5] m Hm)).
      * repeat constructor. rewrite elem_of_nil. tauto.
      * reflexivity.
      * reflexivity.
  - vm_compute in Hm. discriminate.
Defined.

(** ** Submeshes *)

Lemma tuples_count_Z (m : Z) (d : nat) :
  Z.of_nat (length (generate_nonnegative_integer_tuples_summing_to_at_most
                      m (S d)))
  = if decide (0 <= m)
    then Z.of_nat (binomial (Z.to_nat m + S d) (S d))
    else 0.
Proof.
  case_decide as Hm.
  - rewrite <- (Z2Nat.id m) at 1 by exact Hm. rewrite tuples_count.
    reflexivity.
  - rewrite tuples_count_negative by lia. reflexivity.
Qed.

Lemma tuples_count_1 (m : Z) :
  -1 <= m ->
  Z.of_nat (length (generate_nonnegative_integer_tuples_summing_to_at_most
                      m 1))
  = m + 1.
Proof.
  intros Hm. rewrite tuples_count_Z. case_decide; [|lia].
  rewrite Nat.add_comm. change (1 + Z.to_nat m)%nat with (S (Z.to_nat m)).
  rewrite binomial_1. lia.
Qed.

Lemma tuples_count_2 (m : Z) :
  -2 <= m ->
  2 * Z.of_nat (length (generate_nonnegative_integer_tuples_summing_to_at_most
                          m 2))
  = (m + 1) * (m + 2).
Proof.
  intros Hm. rewrite tuples_count_Z. case_decide.
  - rewrite Nat.add_comm.
    change (2 + Z.to_nat m)%nat with (S (S (Z.to_nat m))).
    pose proof (binomial_2 (Z.to_nat m)) as H2. nia.
  - assert (m = -1 \/ m = -2) as [-> | ->] by lia; reflexivity.
Qed.

Lemma tuples_count_3 (m : Z) :
  -3 <= m ->
  6 * Z.of_nat (length (generate_nonnegative_integer_tuples_summing_to_at_most
                          m 3))
  = (m + 1) * (m + 2) * (m + 3).
Proof.
  intros Hm. rewrite tuples_count_Z. case_decide.
  - rewrite Nat.add_comm.
    change (3 + Z.to_nat m)%nat with (S (S (S (Z.to_nat m)))).
    pose proof (binomial_3 (Z.to_nat m)) as H3.
    apply (f_equal Z.of_nat) in H3.
    rewrite !Nat2Z.inj_mul, !Nat2Z.inj_add, Z2Nat.id in H3 by lia.
    exact H3.
  - assert (m = -1 \/ m = -2 \/ m = -3) as [-> | [-> | ->]] by lia;
      reflexivity.
Qed.

(** The tuples of sum at most [n - k] among those of sum at most [n]. *)
Lemma tuples_filter_shift (l : list (list Z)) (n k : Z) (d : nat) :
  l ≡ₚ generate_nonnegative_integer_tuples_summing_to_at_most n (S d) ->
  0 <= k ->
  filter (fun t => tuple_sum t + k <= n) l
  ≡ₚ generate_nonnegative_integer_tuples_summing_to_at_most (n - k) (S d).
Proof.
  intros Hl Hk. apply NoDup_Permutation.
  - apply NoDup_filter. rewrite Hl. apply tuples_NoDup.
  - apply tuples_NoDup.
  - intros t. rewrite list_elem_of_filter, Hl, !tuples_elem.
    unfold index_tuple. intuition lia.
Qed.

Lemma list_sum_map_add {A} (f g : A -> nat) (l : list A) :
  list_sum (map (fun x => f x + g x)%nat l)
  = (list_sum (map f l) + list_sum (map g l))%nat.
Proof. induction l as [|x l IH]; simpl; lia. Qed.

Lemma list_sum_indicator {A} (P : A -> Prop) `{forall x, Decision (P x)}
  (l : list A) :
  list_sum (map (fun x => if decide (P x) then 1 else 0)%nat l)
  = length (filter P l).
Proof.
  induction l as [|x l IH]; [reflexivity|].
  rewrite filter_cons. simpl. case_decide; simpl; lia.
Qed.

(** Counting the simplices: node tuple [t] contributes one simplex for
    each shift [k] of [ks] with [sum t + k <= n]. *)
Lemma flat_map_shift_count (g : list Z -> list (list Z))
  (l : list (list Z)) (n : Z) (d : nat) (ks : list Z) :
  l ≡ₚ generate_nonnegative_integer_tuples_summing_to_at_most n (S d) ->
  Forall (fun k => 0 <= k) ks ->
  (forall t, t ∈ l ->
             length (g t) = length (filter (fun k => tuple_sum t + k <= n) ks)) ->
  Z.of_nat (length (flat_map g l))
  = foldr (fun k acc =>
             Z.of_nat
               (length (generate_nonnegative_integer_tuples_summing_to_at_most
                          (n - k) (S d))) + acc)
          0 ks.
Proof.
  intros Hl Hks Hg. rewrite length_flat_map.
  rewrite (map_ext_in _ (fun t => length (filter (fun k => tuple_sum t + k <= n)
                                            ks))).
  2:{ intros t Ht. apply Hg, list_elem_of_In, Ht. }
  clear Hg. induction Hks as [|k ks Hk _ IH].
  - clear Hl. induction l as [|t l IHl]; [reflexivity | exact IHl].
  - cbn [foldr]. rewrite <- IH. clear IH.
    rewrite <- (Permutation_length (tuples_filter_shift l n k d Hl Hk)).
    rewrite <- (list_sum_indicator (fun t => tuple_sum t + k <= n) l).
    rewrite <- Nat2Z.inj_add, <- list_sum_map_add. do 2 f_equal.
    apply map_ext. intros t. rewrite filter_cons.
    case_decide; reflexivity.
Qed.

Lemma add_tuples_sum (a b : list Z) :
  length a = length b ->
  tuple_sum (add_tuples a b) = tuple_sum a + tuple_sum b.
Proof.
  unfold add_tuples, tuple_sum. revert b.
  induction a as [|x a IH]; intros [|y b] Hlen; try discriminate;
    [reflexivity|].
  simpl. rewrite IH by (simpl in Hlen; lia). lia.
Qed.

Lemma add_tuples_index_tuple (d : nat) (n : Z) (t off : list Z) :
  index_tuple d n t -> length off = d -> Forall (fun x => 0 <= x) off ->
  index_tuple d n (add_tuples t off)
  <-> tuple_sum t + tuple_sum off <= n.
Proof.
  intros (Hlen & Hpos & Hsum) Hoff Hoffpos. unfold index_tuple.
  rewrite add_tuples_sum by congruence.
  unfold add_tuples. rewrite length_zip_with.
  split; [tauto|]. intros Hle. repeat split; [lia | | exact Hle].
  clear Hsum Hle Hlen Hoff. revert off Hoffpos.
  induction Hpos as [|x t Hx _ IH]; intros [|y off] Hoffpos;
    try constructor.
  - apply Forall_cons in Hoffpos as [Hy _]. lia.
  - apply IH. apply Forall_cons in Hoffpos as [_ Hoff]. exact Hoff.
Qed.

Lemma node_dict_lookup (self : ldis) (node_tups : list (list Z)) (t : list Z) :
  node_tuples self = Ok node_tups ->
  (index_tuple (dimensions self) (order self) t ->
   exists idx, node_tup_to_idx node_tups !! t = Some idx
               /\ 0 <= idx < Z.of_nat (length node_tups))
  /\ (~ index_tuple (dimensions self) (order self) t ->
      node_tup_to_idx node_tups !! t = None).
Proof.
  intros Htups.
  destruct (node_tuples_elem_of self node_tups Htups) as [_ Helem]. split.
  - intros Ht. apply Helem, node_tup_to_idx_is_Some in Ht as [idx Hidx].
    exists idx. split; [exact Hidx|].
    apply node_tup_to_idx_Some in Hidx as [Hpos Hidx].
    apply lookup_lt_Some in Hidx. lia.
  - intros Ht. apply node_tup_to_idx_None. rewrite Helem. exact Ht.
Qed.

Lemma py_getitem_default (T : gmap (list Z) Z) (t : list Z) :
  is_Some (T !! t) -> py_getitem T t = Ok (default 0 (T !! t)).
Proof. intros [idx Hidx]. unfold py_getitem. rewrite Hidx. reflexivity. Qed.

(** A simplex is added when all its corners are node tuples. *)
Lemma mapM_corners (T : gmap (list Z) Z) (d : nat) (n : Z)
  (current : list Z) (ds : list (list Z)) :
  (forall t, index_tuple d n t -> is_Some (T !! t)) ->
  (forall t, ~ index_tuple d n t -> T !! t = None) ->
  index_tuple d n current ->
  Forall (fun off => length off = d /\ Forall (fun x => 0 <= x) off) ds ->
  mapM (py_getitem T) (map (add_tuples current) ds)
  = if decide (Forall (fun off => tuple_sum current + tuple_sum off <= n) ds)
    then Ok (map (fun off => default 0 (T !! add_tuples current off)) ds)
    else Raise KeyError.
Proof.
  intros Hin Hout Hcur Hds. case_decide as Hall.
  - rewrite <- (map_map (add_tuples current)
                  (fun t => default 0 (T !! t))).
    apply mapM_result_map, Forall_forall. intros t Ht.
    apply list_elem_of_fmap in Ht as (off & -> & Hoff).
    apply py_getitem_default, Hin.
    rewrite Forall_forall in Hds, Hall.
    destruct (Hds off Hoff) as [Hlen Hpos].
    apply (add_tuples_index_tuple d n current off Hcur Hlen Hpos).
    apply Hall, Hoff.
  - apply not_Forall_Exists in Hall; [|intros off; apply _].
    apply Exists_exists in Hall as (off & Hoff & Hbad).
    apply (mapM_getitem_missing _ _ (add_tuples current off)).
    + apply list_elem_of_fmap. eauto.
    + apply Hout. rewrite Forall_forall in Hds.
      destruct (Hds off Hoff) as [Hlen Hpos].
      rewrite (add_tuples_index_tuple d n current off Hcur Hlen Hpos).
      exact Hbad.
Qed.

Lemma try_add_tet_value (T : gmap (list Z) Z) (n : Z)
  (current : list Z) (acc : list (list Z)) (d1 d2 d3 d4 : list Z) :
  (forall t, index_tuple 3 n t -> is_Some (T !! t)) ->
  (forall t, ~ index_tuple 3 n t -> T !! t = None) ->
  index_tuple 3 n current ->
  Forall (fun off => length off = 3%nat /\ Forall (fun x => 0 <= x) off)
         [d1; d2; d3; d4] ->
  try_add_tet T current acc d1 d2 d3 d4
  = Ok (acc ++ submesh_simplices T n [[d1; d2; d3; d4]] current).
Proof.
  intros Hin Hout Hcur Hds. unfold try_add_tet, submesh_simplices.
  change [add_tuples current d1; add_tuples current d2;
          add_tuples current d3; add_tuples current d4]
    with (map (add_tuples current) [d1; d2; d3; d4]).
  rewrite (mapM_corners T 3 n current _ Hin Hout Hcur Hds).
  cbn [flat_map]. case_decide; rewrite ?app_nil_r; reflexivity.
Qed.

(** The loop of the tetrahedron's [get_submesh_indices]. *)
Lemma tetrahedron_submesh_loop (T : gmap (list Z) Z) (n : Z)
  (l : list (list Z)) (acc : list (list Z)) :
  (forall t, index_tuple 3 n t -> is_Some (T !! t)) ->
  (forall t, ~ index_tuple 3 n t -> T !! t = None) ->
  Forall (index_tuple 3 n) l ->
  foldM (fun result current =>
           let try_add_tet := try_add_tet T current in
           result ← try_add_tet result [0; 0; 0] [1; 0; 0] [0; 1; 0] [0; 0; 1];
           result ← try_add_tet result [1; 0; 1] [1; 0; 0] [0; 0; 1] [0; 1; 0];
           result ← try_add_tet result [1; 0; 1] [0; 1; 1] [0; 1; 0] [0; 0; 1];
           result ← try_add_tet result [1; 0; 0] [0; 1; 0] [1; 0; 1] [1; 1; 0];
           result ← try_add_tet result [0; 1; 1] [0; 1; 0] [1; 1; 0] [1; 0; 1];
           try_add_tet result [0; 1; 1] [1; 1; 1] [1; 0; 1] [1; 1; 0])
        l acc
  = Ok (acc ++ flat_map (submesh_simplices T n tetrahedron_patterns) l).
Proof.
  intros Hin Hout Hall. revert acc.
  induction Hall as [|current l Hcur _ IH]; intros acc.
  - simpl. rewrite app_nil_r. reflexivity.
  - cbn [foldM flat_map]. cbv zeta.
    rewrite !(try_add_tet_value T n current _ _ _ _ _ Hin Hout Hcur)
      by (repeat constructor; lia).
    cbn [mbind result_bind].
    rewrite !(try_add_tet_value T n current _ _ _ _ _ Hin Hout Hcur)
      by (repeat constructor; lia).
    cbn [mbind result_bind].
    rewrite !(try_add_tet_value T n current _ _ _ _ _ Hin Hout Hcur)
      by (repeat constructor; lia).
    cbn [mbind result_bind].
    rewrite !(try_add_tet_value T n current _ _ _ _ _ Hin Hout Hcur)
      by (repeat constructor; lia).
    cbn [mbind result_bind].
    rewrite !(try_add_tet_value T n current _ _ _ _ _ Hin Hout Hcur)
      by (repeat constructor; lia).
    cbn [mbind result_bind].
    rewrite !(try_add_tet_value T n current _ _ _ _ _ Hin Hout Hcur)
      by (repeat constructor; lia).
    cbn [mbind result_bind].
    rewrite IH. unfold tetrahedron_patterns, submesh_simplices.
    cbn [flat_map]. rewrite ?app_nil_r, <- ?(assoc_L (++)). reflexivity.
Qed.

(** The loop of the triangle's [get_submesh_indices]. *)
Lemma triangle_submesh_loop (T : gmap (list Z) Z) (n : Z)
  (l : list (list Z)) (acc : list (list Z)) :
  (forall t, index_tuple 2 n t -> is_Some (T !! t)) ->
  Forall (index_tuple 2 n) l ->
  foldM (fun result nt =>
           match nt with
           | [i; j] =>
               result ←
                 (if i + j <? n
                  then a ← py_getitem T [i; j];
                       b ← py_getitem T [i + 1; j];
                       c ← py_getitem T [i; j + 1];
                       Ok (result ++ [[a; b; c]])
                  else Ok result);
               if i + j <? n - 1
               then a ← py_getitem T [i + 1; j + 1];
                    b ← py_getitem T [i; j + 1];
                    c ← py_getitem T [i + 1; j];
                    Ok (result ++ [[a; b; c]])
               else Ok result
           | _ => Raise ValueError
           end)
        l acc
  = Ok (acc ++ flat_map (submesh_simplices T n triangle_patterns) l).
Proof.
  intros Hin Hall.
  match goal with |- context [foldM ?f _ _] => set (step := f) end.
  revert acc.
  induction Hall as [|nt l Hnt _ IH]; intros acc.
  - simpl. rewrite app_nil_r. reflexivity.
  - cbn [foldM flat_map].
    assert (Hstep : step acc nt
                    = Ok (acc ++ submesh_simplices T n triangle_patterns nt)).
    { destruct Hnt as (Hlen & Hpos & Hsum).
      destruct nt as [|i [|j [|? ?]]]; try discriminate.
      apply Forall_cons in Hpos as [Hi Hpos].
      apply Forall_cons in Hpos as [Hj _].
      cbv [tuple_sum foldr] in Hsum.
      assert (Hget : forall a b, 0 <= a -> 0 <= b -> a + b <= n ->
                                 py_getitem T [a; b]
                                 = Ok (default 0 (T !! [a; b]))).
      { intros a b Ha Hb Hab. apply py_getitem_default, Hin.
        repeat split; [repeat constructor; assumption|].
        cbv [tuple_sum foldr]. lia. }
      unfold step, submesh_simplices, triangle_patterns. cbn [flat_map].
      cbn [map add_tuples zip_with]. rewrite !Z.add_0_r, app_nil_r.
      destruct (Z.ltb_spec (i + j) n) as [Hlt|Hge].
      + rewrite (Hget i j), (Hget (i + 1) j), (Hget i (j + 1)) by lia.
        cbn [mbind result_bind].
        rewrite (decide_True (P := Forall _ [[0; 0]; [1; 0]; [0; 1]]))
          by (repeat constructor; cbv [tuple_sum foldr]; lia).
        destruct (Z.ltb_spec (i + j) (n - 1)) as [Hlt'|Hge'].
        * rewrite (Hget (i + 1) (j + 1)) by lia.
          cbn [mbind result_bind].
          rewrite (decide_True (P := Forall _ [[1; 1]; [0; 1]; [1; 0]]))
            by (repeat constructor; cbv [tuple_sum foldr]; lia).
          rewrite <- !(assoc_L (++)). reflexivity.
        * rewrite (decide_False (P := Forall _ [[1; 1]; [0; 1]; [1; 0]])).
          2:{ intros Hbad. apply Forall_cons in Hbad as [Hbad _].
              cbv [tuple_sum foldr] in Hbad. lia. }
          rewrite app_nil_r. reflexivity.
      + cbn [mbind result_bind].
        rewrite (decide_False (P := Forall _ [[0; 0]; [1; 0]; [0; 1]])).
        2:{ intros Hbad. apply Forall_cons in Hbad as [_ Hbad].
            apply Forall_cons in Hbad as [Hbad _].
            cbv [tuple_sum foldr] in Hbad. lia. }
        destruct (Z.ltb_spec (i + j) (n - 1)) as [Hlt'|Hge']; [lia|].
        rewrite (decide_False (P := Forall _ [[1; 1]; [0; 1]; [1; 0]])).
        2:{ intros Hbad. apply Forall_cons in Hbad as [Hbad _].
            cbv [tuple_sum foldr] in Hbad. lia. }
        rewrite app_nil_r. reflexivity. }
    rewrite Hstep. cbn [mbind result_bind].
    rewrite IH, <- (assoc_L (++)). reflexivity.
Qed.

(** Every simplex listed has corners that are node numbers. *)
Lemma submesh_simplices_valid (T : gmap (list Z) Z) (d : nat) (n bound : Z)
  (patterns : list (list (list Z))) (current : list Z) :
  (forall t, index_tuple d n t ->
             exists idx, T !! t = Some idx /\ 0 <= idx < bound) ->
  index_tuple d n current ->
  Forall (fun ds =>
            length ds = S d
            /\ Forall (fun off => length off = d
                                  /\ Forall (fun x => 0 <= x) off) ds)
         patterns ->
  Forall (fun simplex =>
            length simplex = S d
            /\ Forall (fun idx => 0 <= idx < bound) simplex)
         (submesh_simplices T n patterns current).
Proof.
  intros Hin Hcur Hpat. unfold submesh_simplices.
  apply Forall_forall. intros simplex Hs.
  apply elem_of_flat_map in Hs as (ds & Hs & Hds).
  rewrite Forall_forall in Hpat. destruct (Hpat ds Hds) as [Hlen Hoffs].
  case_decide as Hall; [|apply elem_of_nil in Hs as []].
  apply list_elem_of_singleton in Hs as ->.
  rewrite length_map. split; [exact Hlen|].
  apply Forall_forall. intros idx Hidx.
  apply list_elem_of_fmap in Hidx as (off & -> & Hoff).
  rewrite Forall_forall in Hoffs, Hall.
  destruct (Hoffs off Hoff) as [Hofflen Hoffpos].
  destruct (Hin (add_tuples current off)) as (idx & -> & Hrange);
    [|exact Hrange].
  apply (add_tuples_index_tuple d n current off Hcur Hofflen Hoffpos).
  apply Hall, Hoff.
Qed.

Lemma triangle_get_submesh_indices_value (self : ldis)
  (node_tups : list (list Z)) :
  node_tuples self = Ok node_tups ->
  dimensions self = 2%nat ->
  triangle_get_submesh_indices self
  = Ok (flat_map (submesh_simplices (node_tup_to_idx node_tups)
                    (order self) triangle_patterns)
                 node_tups).
Proof.
  intros Htups Hdim. unfold triangle_get_submesh_indices. rewrite Htups.
  destruct (node_tuples_elem_of self node_tups Htups) as [_ Helem].
  rewrite Hdim in Helem.
  apply (triangle_submesh_loop _ (order self) node_tups []).
  - intros t Ht. rewrite <- Hdim in Ht.
    destruct (proj1 (node_dict_lookup self node_tups t Htups) Ht)
      as (idx & -> & _). eauto.
  - apply Forall_forall. intros t Ht. apply Helem, Ht.
Qed.

Lemma tetrahedron_get_submesh_indices_value (self : ldis)
  (node_tups : list (list Z)) :
  node_tuples self = Ok node_tups ->
  dimensions self = 3%nat ->
  tetrahedron_get_submesh_indices self
  = Ok (flat_map (submesh_simplices (node_tup_to_idx node_tups)
                    (order self) tetrahedron_patterns)
                 node_tups).
Proof.
  intros Htups Hdim. unfold tetrahedron_get_submesh_indices. rewrite Htups.
  destruct (node_tuples_elem_of self node_tups Htups) as [_ Helem].
  rewrite Hdim in Helem.
  apply (tetrahedron_submesh_loop _ (order self) node_tups []).
  - intros t Ht. rewrite <- Hdim in Ht.
    destruct (proj1 (node_dict_lookup self node_tups t Htups) Ht)
      as (idx & -> & _). eauto.
  - intros t Ht. rewrite <- Hdim in Ht.
    apply (node_dict_lookup self node_tups t Htups), Ht.
  - apply Forall_forall. intros t Ht. apply Helem, Ht.
Qed.

(** [get_submesh_indices()] of the three kinds, whichever the ordering of
    the nodes: it returns [order ** dimensions] simplices (none for an
    order below 1), each with [dimensions + 1] corners that are numbers of
    nodes of the element. *)
Theorem get_submesh_indices_tessellate (self : ldis)
  (node_tups : list (list Z)) :
  node_tuples self = Ok node_tups ->
  exists submesh,
    get_submesh_indices self = Ok submesh
    /\ Z.of_nat (length submesh)
       = Z.max 0 (order self) ^ Z.of_nat (dimensions self)
    /\ Forall (fun simplex =>
                 length simplex = S (dimensions self)
                 /\ Forall (fun idx =>
                              0 <= idx < Z.of_nat (length node_tups))
                           simplex)
              submesh.
Proof.
  intros Htups.
  pose proof (node_tuples_Permutation self node_tups Htups) as Hperm.
  destruct (node_tuples_elem_of self node_tups Htups) as [Hnd Helem].
  assert (Hall : Forall (index_tuple (dimensions self) (order self))
                        node_tups)
    by (apply Forall_forall; intros t Ht; apply Helem, Ht).
  assert (Hin : forall t,
            index_tuple (dimensions self) (order self) t ->
            exists idx, node_tup_to_idx node_tups !! t = Some idx
                        /\ 0 <= idx < Z.of_nat (length node_tups))
    by (intros t; apply (node_dict_lookup self node_tups t Htups)).
  assert (Hout : forall t,
            ~ index_tuple (dimensions self) (order self) t ->
            node_tup_to_idx node_tups !! t = None)
    by (intros t; apply (node_dict_lookup self node_tups t Htups)).
  assert (Hsome : forall t,
            index_tuple (dimensions self) (order self) t ->
            is_Some (node_tup_to_idx node_tups !! t))
    by (intros t Ht; destruct (Hin t Ht) as (idx & -> & _); eauto).
  pose proof (triangle_get_submesh_indices_value self node_tups Htups)
    as Htri.
  pose proof (tetrahedron_get_submesh_indices_value self node_tups Htups)
    as Htet.
  unfold get_submesh_indices.
  unfold dimensions in *. destruct (cls self) eqn:Hcls.
  - (* interval *)
    eexists; split; [reflexivity|]. unfold interval_get_submesh_indices.
    rewrite length_map, py_range_length. split; [lia|].
    apply Forall_forall. intros simplex Hs.
    apply list_elem_of_fmap in Hs as (i & -> & Hi).
    apply elem_of_py_range in Hi. split; [reflexivity|].
    apply Permutation_length in Hperm.
    pose proof (tuples_count_1 (order self) ltac:(lia)) as Hcount.
    rewrite <- Hperm in Hcount.
    repeat constructor; lia.
  - (* triangle *)
    rewrite (Htri eq_refl).
    eexists; split; [reflexivity|]. split.
    + destruct (decide (0 <= order self)) as [Hord|Hord].
      * rewrite (flat_map_shift_count _ node_tups (order self) 1 [1; 2]
                   Hperm).
        -- cbn [foldr].
           pose proof (tuples_count_2 (order self - 1) ltac:(lia)).
           pose proof (tuples_count_2 (order self - 2) ltac:(lia)).
           change (Z.of_nat 2) with 2. nia.
        -- repeat constructor; lia.
        -- intros t Ht. apply Helem in Ht as (Hlen & Hpos & Hsum).
           destruct t as [|i [|j [|? ?]]]; try discriminate.
           unfold submesh_simplices, triangle_patterns. cbn [flat_map].
           rewrite !filter_cons, filter_nil, !length_app.
           rewrite (decide_ext _ (tuple_sum [i; j] + 1 <= order self)).
           2:{ rewrite !Forall_cons, Forall_nil.
               cbv [tuple_sum foldr]. lia. }
           rewrite (decide_ext
                      (Forall _ [[1; 1]; [0; 1]; [1; 0]])
                      (tuple_sum [i; j] + 2 <= order self)).
           2:{ rewrite !Forall_cons, Forall_nil.
               cbv [tuple_sum foldr]. lia. }
           repeat case_decide; reflexivity.
      * rewrite tuples_count_negative in Hperm by lia.
        apply Permutation_nil_r in Hperm. subst node_tups.
        cbn [flat_map length]. rewrite Z.max_l by lia. reflexivity.
    + apply Forall_forall. intros simplex Hs.
      apply elem_of_flat_map in Hs as (t & Hs & Ht).
      assert (Hvalid :
                Forall (fun simplex =>
                          length simplex = S 2
                          /\ Forall (fun idx =>
                                       0 <= idx
                                       < Z.of_nat (length node_tups))
                                    simplex)
                       (submesh_simplices (node_tup_to_idx node_tups)
                          (order self) triangle_patterns t)).
      { apply (submesh_simplices_valid _ 2 (order self)
                 (Z.of_nat (length node_tups)) triangle_patterns t
                 Hin (proj1 (Helem t) Ht)).
        repeat constructor; lia. }
      rewrite Forall_forall in Hvalid. exact (Hvalid simplex Hs).
  - (* tetrahedron *)
    rewrite (Htet eq_refl).
    eexists; split; [reflexivity|]. split.
    + destruct (decide (0 <= order self)) as [Hord|Hord].
      * rewrite (flat_map_shift_count _ node_tups (order self) 2
                   [1; 2; 2; 2; 2; 3] Hperm).
        -- cbn [foldr].
           pose proof (tuples_count_3 (order self - 1) ltac:(lia)).
           pose proof (tuples_count_3 (order self - 2) ltac:(lia)).
           pose proof (tuples_count_3 (order self - 3) ltac:(lia)).
           change (Z.of_nat 3) with 3. nia.
        -- repeat constructor; lia.
        -- intros t Ht. apply Helem in Ht as (Hlen & Hpos & Hsum).
           destruct t as [|i [|j [|k [|? ?]]]]; try discriminate.
           unfold submesh_simplices, tetrahedron_patterns. cbn [flat_map].
           rewrite !filter_cons, filter_nil, !length_app.
           rewrite (decide_ext
                      (Forall _ [[0; 0; 0]; [1; 0; 0]; [0; 1; 0]; [0; 0; 1]])
                      (tuple_sum [i; j; k] + 1 <= order self)).
           2:{ rewrite !Forall_cons, Forall_nil.
               cbv [tuple_sum foldr]. lia. }
           rewrite (decide_ext
                      (Forall _ [[1; 0; 1]; [1; 0; 0]; [0; 0; 1]; [0; 1; 0]])
                      (tuple_sum [i; j; k] + 2 <= order self)).
           2:{ rewrite !Forall_cons, Forall_nil.
               cbv [tuple_sum foldr]. lia. }
           rewrite (decide_ext
                      (Forall _ [[1; 0; 1]; [0; 1; 1]; [0; 1; 0]; [0; 0; 1]])
                      (tuple_sum [i; j; k] + 2 <= order self)).
           2:{ rewrite !Forall_cons, Forall_nil.
               cbv [tuple_sum foldr]. lia. }
           rewrite (decide_ext
                      (Forall _ [[1; 0; 0]; [0; 1; 0]; [1; 0; 1]; [1; 1; 0]])
                      (tuple_sum [i; j; k] + 2 <= order self)).
           2:{ rewrite !Forall_cons, Forall_nil.
               cbv [tuple_sum foldr]. lia. }
           rewrite (decide_ext
                      (Forall _ [[0; 1; 1]; [0; 1; 0]; [1; 1; 0]; [1; 0; 1]])
                      (tuple_sum [i; j; k] + 2 <= order self)).
           2:{ rewrite !Forall_cons, Forall_nil.
               cbv [tuple_sum foldr]. lia. }
           rewrite (decide_ext
                      (Forall _ [[0; 1; 1]; [1; 1; 1]; [1; 0; 1]; [1; 1; 0]])
                      (tuple_sum [i; j; k] + 3 <= order self)).
           2:{ rewrite !Forall_cons, Forall_nil.
               cbv [tuple_sum foldr]. lia. }
           repeat case_decide; reflexivity.
      * rewrite tuples_count_negative in Hperm by lia.
        apply Permutation_nil_r in Hperm. subst node_tups.
        cbn [flat_map length]. rewrite Z.max_l by lia. reflexivity.
    + apply Forall_forall. intros simplex Hs.
      apply elem_of_flat_map in Hs as (t & Hs & Ht).
      assert (Hvalid :
                Forall (fun simplex =>
                          length simplex = S 3
                          /\ Forall (fun idx =>
                                       0 <= idx
                                       < Z.of_nat (length node_tups))
                                    simplex)
                       (submesh_simplices (node_tup_to_idx node_tups)
                          (order self) tetrahedron_patterns t)).
      { apply (submesh_simplices_valid _ 3 (order self)
                 (Z.of_nat (length node_tups)) tetrahedron_patterns t
                 Hin (proj1 (Helem t) Ht)).
        repeat constructor; lia. }
      rewrite Forall_forall in Hvalid. exact (Hvalid simplex Hs).
Qed.

Lemma get_submesh_indices_tessellate_witness :
  exists submesh,
    get_submesh_indices (tetrahedron_of_order 2) = Ok submesh
    /\ Z.of_nat (length submesh) = Z.max 0 2 ^ 3
    /\ Forall (fun simplex =>
                 length simplex = 4%nat
                 /\ Forall (fun idx => 0 <= idx < 10) simplex)
              submesh.
Proof.
  apply (get_submesh_indices_tessellate (tetrahedron_of_order 2)
           (generate_nonnegative_integer_tuples_summing_to_at_most 2 3)).
  reflexivity.
Defined.

(** ** What the cache holds *)

Lemma keeps_cache_run_result {F A} (r : result A) :
  keeps_cache (run_result (M:=cached F) r).
Proof.
  intros c a c' Hrun name v Hv. simpl in Hrun.
  destruct r; [|discriminate]. injection Hrun as <- <-. exact Hv.
Qed.

Lemma keeps_cache_bind {F A B} (mc : cached F A) (fc : A -> cached F B) :
  keeps_cache mc -> (forall a, keeps_cache (fc a)) ->
  keeps_cache (mc ≫= fc).
Proof.
  intros Hm Hf c b c' Hrun name v Hv.
  assert (Hbind : (mc ≫= fc) c
                  = match mc c with
                    | Ok (a, c1) => fc a c1
                    | Raise e => Raise e
                    end) by reflexivity.
  rewrite Hbind in Hrun.
  destruct (mc c) as [[a c1]|e] eqn:Hmc; [|discriminate].
  eapply Hf; [exact Hrun|]. eapply Hm; eassumption.
Qed.

Lemma cached_bind_inv {F A B} (mc : cached F A) (fc : A -> cached F B)
  (c c' : gmap string (list (list F))) (b : B) :
  (mc ≫= fc) c = Ok (b, c') ->
  exists a c1, mc c = Ok (a, c1) /\ fc a c1 = Ok (b, c').
Proof.
  intros Hrun.
  assert (Hbind : (mc ≫= fc) c
                  = match mc c with
                    | Ok (a, c1) => fc a c1
                    | Raise e => Raise e
                    end) by reflexivity.
  rewrite Hbind in Hrun.
  destruct (mc c) as [[a c1]|e]; [eauto | discriminate].
Qed.

Lemma memoize_method_run {F} (name : string)
  (body : cached F (list (list F))) (c : gmap string (list (list F))) :
  memoize_method name body c
  = match c !! name with
    | Some v => Ok (v, c)
    | None =>
        match body c with
        | Ok (v, c') => Ok (v, <[name := v]> c')
        | Raise e => Raise e
        end
    end.
Proof. reflexivity. Qed.

Lemma keeps_cache_memoize_method {F} (name : string)
  (body : cached F (list (list F))) :
  keeps_cache body -> keeps_cache (memoize_method name body).
Proof.
  intros Hbody c a c' Hrun name' v Hv. rewrite memoize_method_run in Hrun.
  destruct (c !! name) as [w|] eqn:Hhit.
  - injection Hrun as <- <-. exact Hv.
  - destruct (body c) as [[w c1]|e] eqn:Hb; [|discriminate].
    injection Hrun as <- <-.
    rewrite lookup_insert_ne by congruence.
    eapply Hbody; eassumption.
Qed.

Lemma memoize_method_stores {F} (name : string)
  (body : cached F (list (list F))) (c c' : gmap string (list (list F)))
  (v : list (list F)) :
  memoize_method name body c = Ok (v, c') -> c' !! name = Some v.
Proof.
  rewrite memoize_method_run.
  destruct (c !! name) as [w|] eqn:Hhit.
  - intros [= <- <-]. exact Hhit.
  - destruct (body c) as [[w c1]|e]; [|discriminate].
    intros [= <- <-]. apply lookup_insert_eq.
Qed.

Lemma memoize_method_again {F} (name : string)
  (body : cached F (list (list F))) (c : gmap string (list (list F)))
  (v : list (list F)) :
  c !! name = Some v -> memoize_method name body c = Ok (v, c).
Proof. intros Hhit. rewrite memoize_method_run, Hhit. reflexivity. Qed.

Lemma vandermonde_keeps_cache `{FloatOps F, HedgeLib F} (self : ldis) :
  keeps_cache (vandermonde (M:=cached F) self).
Proof. apply keeps_cache_memoize_method, keeps_cache_run_result. Qed.

Lemma inverse_mass_matrix_keeps_cache `{FloatOps F, HedgeLib F}
  (self : ldis) :
  keeps_cache (inverse_mass_matrix (M:=cached F) self).
Proof.
  apply keeps_cache_memoize_method, keeps_cache_bind;
    [apply vandermonde_keeps_cache|].
  intros v. apply keeps_cache_run_result.
Qed.

Lemma face_vandermonde_keeps_cache `{FloatOps F, HedgeLib F} (self : ldis) :
  keeps_cache (face_vandermonde (M:=cached F) self).
Proof. apply keeps_cache_memoize_method, keeps_cache_run_result. Qed.

Lemma face_mass_matrix_keeps_cache `{FloatOps F, HedgeLib F} (self : ldis) :
  keeps_cache (face_mass_matrix (M:=cached F) self).
Proof.
  apply keeps_cache_memoize_method, keeps_cache_bind;
    [apply face_vandermonde_keeps_cache|].
  intros v. apply keeps_cache_run_result.
Qed.

Lemma multi_face_mass_matrix_keeps_cache `{FloatOps F, HedgeLib F}
  (self : ldis) :
  keeps_cache (multi_face_mass_matrix (M:=cached F) self).
Proof.
  apply keeps_cache_memoize_method, keeps_cache_bind;
    [apply face_mass_matrix_keeps_cache|].
  intros v. apply keeps_cache_run_result.
Qed.

Lemma lifting_matrix_keeps_cache `{FloatOps F, HedgeLib F} (self : ldis) :
  keeps_cache (lifting_matrix (M:=cached F) self).
Proof.
  apply keeps_cache_memoize_method, keeps_cache_bind;
    [apply inverse_mass_matrix_keeps_cache|].
  intros im. apply keeps_cache_bind;
    [apply multi_face_mass_matrix_keeps_cache|].
  intros mfm. apply keeps_cache_run_result.
Qed.

(** The cache of the memoized matrices only grows.  A call of
    [lifting_matrix()] that returns keeps every entry the cache had and
    stores its result; when it had to compute the matrix, its two operands
    [inverse_mass_matrix] and [multi_face_mass_matrix] are stored as well;
    called again, it returns the stored matrix and leaves the cache as it
    is. *)
Theorem lifting_matrix_is_computed_once `{FloatOps F, HedgeLib F}
  (self : ldis) (c c1 : gmap string (list (list F))) (L : list (list F)) :
  lifting_matrix (M:=cached F) self c = Ok (L, c1) ->
  (forall name v, c !! name = Some v -> c1 !! name = Some v)
  /\ c1 !! "lifting_matrix" = Some L
  /\ (c !! "lifting_matrix" = None ->
      is_Some (c1 !! "inverse_mass_matrix")
      /\ is_Some (c1 !! "multi_face_mass_matrix"))
  /\ lifting_matrix (M:=cached F) self c1 = Ok (L, c1).
Proof.
  intros Hrun.
  pose proof (memoize_method_stores _ _ _ _ _ Hrun) as Hstored.
  split; [|split; [exact Hstored|split]].
  - exact (lifting_matrix_keeps_cache self c L c1 Hrun).
  - intros Hmiss. unfold lifting_matrix in Hrun.
    rewrite memoize_method_run, Hmiss in Hrun.
    match type of Hrun with
    | match ?body c with _ => _ end = _ =>
        destruct (body c) as [[v c3]|e] eqn:Hbody; [|discriminate]
    end.
    injection Hrun as <- <-.
    apply cached_bind_inv in Hbody as (im & c2 & Him & Hbody).
    apply cached_bind_inv in Hbody as (mfm & c3' & Hmfm & Hdot).
    simpl in Hdot. destruct (dot im mfm); [|discriminate].
    injection Hdot as <- <-.
    pose proof (memoize_method_stores _ _ _ _ _ Him) as Him'.
    pose proof (memoize_method_stores _ _ _ _ _ Hmfm) as Hmfm'.
    pose proof (multi_face_mass_matrix_keeps_cache self c2 mfm c3' Hmfm
                  _ _ Him') as Him''.
    rewrite !lookup_insert_ne by discriminate. eauto.
  - apply memoize_method_again, Hstored.
Qed.

Lemma lifting_matrix_is_computed_once_witness :
  exists L c1,
    lifting_matrix (M:=cached Q) (interval_of_order 1) ∅ = Ok (L, c1)
    /\ c1 !! "lifting_matrix" = Some L
    /\ is_Some (c1 !! "inverse_mass_matrix")
    /\ lifting_matrix (M:=cached Q) (interval_of_order 1) c1 = Ok (L, c1).
Proof.
  destruct (lifting_matrix (M:=cached Q) (interval_of_order 1) ∅)
    as [[L c1]|e] eqn:Hrun.
  - exists L, c1.
    destruct (lifting_matrix_is_computed_once (F:=Q) (interval_of_order 1)
                ∅ c1 L Hrun) as (_ & Hstored & Hops & Hagain).
    split; [reflexivity|]. split; [exact Hstored|].
    split; [apply Hops, lookup_empty | exact Hagain].
  - vm_compute in Hrun. discriminate.
Defined.

(** ** The products of the matrix multiplication *)

Lemma mul_add_statements_app (c1 c2 : list cgen) :
  mul_add_statements (c1 ++ c2)
  = mul_add_statements c1 ++ mul_add_statements c2.
Proof. apply omap_app. Qed.

Lemma mul_add_statements_flat_map {A} (g : A -> list cgen) (l : list A) :
  mul_add_statements (flat_map g l)
  = flat_map (fun x => mul_add_statements (g x)) l.
Proof.
  induction l as [|x l IH]; [reflexivity|].
  cbn [flat_map]. rewrite mul_add_statements_app, IH. reflexivity.
Qed.

Lemma mul_add_statements_map (text : Z -> string) (l : list Z) :
  (forall x, String.prefix "result += " (text x) = true) ->
  mul_add_statements (map (fun x => Statement (text x)) l) = map text l.
Proof.
  intros Hp. induction l as [|x l IH]; [reflexivity|].
  change (mul_add_statements (map (fun x => Statement (text x)) (x :: l)))
    with (match (if String.prefix "result += " (text x)
                 then Some (text x) else None) with
          | Some y =>
              y :: mul_add_statements (map (fun x => Statement (text x)) l)
          | None => mul_add_statements (map (fun x => Statement (text x)) l)
          end).
  rewrite Hp, IH. reflexivity.
Qed.

Lemma py_range_step_multiples (fuel : nat) (start stop step : Z) (s : Z) :
  0 < step -> start `mod` step = 0 -> 0 <= start ->
  s ∈ py_range_step fuel start stop step ->
  0 <= s /\ s `mod` step = 0.
Proof.
  intros Hstep. revert start.
  induction fuel as [|fuel IH]; intros start Hmod Hstart Hs.
  - apply elem_of_nil in Hs as [].
  - cbn [py_range_step] in Hs. destruct (start <? stop).
    + apply elem_of_cons in Hs as [->|Hs]; [auto|].
      apply (IH (start + step)); [|lia|exact Hs].
      rewrite <- Zplus_mod_idemp_r, Z_mod_same_full, Z.add_0_r. exact Hmod.
    + apply elem_of_nil in Hs as [].
Qed.

Lemma py_slice_py_range_elem (n a b x : Z) :
  0 <= a -> x ∈ py_slice (py_range n) a b -> a <= x < b.
Proof.
  intros Ha Hx. unfold py_slice, py_range in Hx.
  apply list_elem_of_lookup in Hx as [i Hi].
  apply lookup_take_Some in Hi as [Hi Hlt].
  rewrite lookup_drop, list_lookup_fmap in Hi.
  destruct (seq 0 (Z.to_nat n) !! (Z.to_nat a + i)%nat) as [k|] eqn:Hk;
    [|discriminate].
  apply lookup_seq in Hk as [-> _]. injection Hi as <-. lia.
Qed.

Lemma batched_chunk_statements (c s : Z) (dofs : list Z) :
  0 < c -> 0 <= s -> s `mod` c = 0 ->
  Forall (fun dof => s <= dof < s + c) dofs ->
  mul_add_statements
    ([ Assign "dof_buffer[PAR_MB_NR][CHUNK_DOF]"
         ("tex1Dfetch(fluxes_on_faces_tex, global_mb_facedof_base"
          +:+ "+(chunk_start_el)*FACE_DOFS_PER_EL+"
          +:+ fmt_d s +:+ "+CHUNK_DOF)");
       Statement "__syncthreads()";
       Line ]
     ++ map (fun dof =>
               Statement
                 ("result += smem_lift_mat[CHUNK_DOF*LIFTMAT_COLUMNS + "
                  +:+ fmt_d dof +:+ "]*dof_buffer[PAR_MB_NR]["
                  +:+ fmt_d (dof - s) +:+ "]"))
            dofs
     ++ [Line])
  = map (fun dof =>
           "result += smem_lift_mat[CHUNK_DOF*LIFTMAT_COLUMNS + "
           +:+ fmt_d dof +:+ "]*dof_buffer[PAR_MB_NR]["
           +:+ fmt_d (dof `mod` c) +:+ "]")
        dofs.
Proof.
  intros Hc Hs Hmod Hdofs.
  rewrite !mul_add_statements_app.
  change (mul_add_statements [Line]) with (@nil string).
  rewrite app_nil_r.
  match goal with
  | |- mul_add_statements ?hd ++ _ = _ =>
      change (mul_add_statements hd) with (@nil string)
  end.
  cbn [app].
  rewrite (mul_add_statements_map
             (fun dof =>
                "result += smem_lift_mat[CHUNK_DOF*LIFTMAT_COLUMNS + "
                +:+ fmt_d dof +:+ "]*dof_buffer[PAR_MB_NR]["
                +:+ fmt_d (dof - s) +:+ "]")) by (intros x; reflexivity).
  apply map_ext_in. intros dof Hdof.
  rewrite Forall_forall in Hdofs.
  apply list_elem_of_In, Hdofs in Hdof.
  assert (Hdiv : s = c * (s / c)) by (apply Z_div_exact_full_2; lia).
  replace (dof `mod` c) with (dof - s); [reflexivity|].
  apply (Zmod_unique _ _ (s / c)); lia.
Qed.

(** The products that the matrix multiplication of the first generator
    emits.  With one element per chunk ([el_fetch_count == 1]) the batched
    code loads the face values into [dof_buffer] in pieces of [chunk_size]
    and multiplies, for every column [dof] of the matrix from [0] to
    [face_dofs_per_el() - 1], once each and in this order, the matrix entry
    of column [dof] by slot [dof mod chunk_size] of the buffer, a slot below
    [chunk_size]; a chunk size of 0 makes the [range] of the loop raise
    [ValueError].  For every other count the direct code multiplies the
    columns [0] to [dofs_per_face() * faces_per_el() - 1]. *)
Theorem mat_mul_code_multiplies_each_column_once {F} (fplan : flux_plan F)
  (el_fetch_count : Z) :
  let c := chunk_size (flux_lifting_plan fplan) in
  (c = 0 -> get_mat_mul_code fplan 1 = Raise ValueError)
  /\ (0 < c ->
      exists code,
        get_mat_mul_code fplan el_fetch_count = Ok code
        /\ mul_add_statements code
           = if decide (el_fetch_count = 1)
             then
               map (fun dof =>
                      "result += smem_lift_mat[CHUNK_DOF*LIFTMAT_COLUMNS + "
                      +:+ fmt_d dof +:+ "]*dof_buffer[PAR_MB_NR]["
                      +:+ fmt_d (dof `mod` c) +:+ "]")
                   (py_range (face_dofs_per_el fplan))
             else
               map (fun j =>
                      "result += tex1Dfetch(fluxes_on_faces_tex, "
                      +:+ "global_mb_facedof_base+dof_el*FACE_DOFS_PER_EL+"
                      +:+ fmt_d j
                      +:+ ") * smem_lift_mat[CHUNK_DOF*LIFTMAT_COLUMNS + "
                      +:+ fmt_d j +:+ "]")
                   (py_range (dofs_per_face fplan * faces_per_el fplan))).
Proof.
  intros c. subst c. split.
  - intros Hzero. unfold get_mat_mul_code, get_batched_fetch_mat_mul_code,
      py_range3.
    rewrite decide_True by reflexivity. rewrite Hzero.
    rewrite decide_True by reflexivity. reflexivity.
  - intros Hc. unfold get_mat_mul_code. case_decide as Hone.
    + unfold get_batched_fetch_mat_mul_code, py_range3.
      rewrite decide_False by lia.
      destruct (Z.ltb_spec 0 (chunk_size (flux_lifting_plan fplan)));
        [|lia].
      cbn [mbind result_bind]. eexists; split; [reflexivity|].
      rewrite mul_add_statements_flat_map, flat_map_concat_map.
      set (starts := py_range_step _ _ _ _).
      set (dofs := py_range (face_dofs_per_el fplan)).
      rewrite (map_ext_in _
                 (fun s => map (fun dof =>
                      "result += smem_lift_mat[CHUNK_DOF*LIFTMAT_COLUMNS + "
                      +:+ fmt_d dof +:+ "]*dof_buffer[PAR_MB_NR]["
                      +:+ fmt_d (dof `mod` chunk_size (flux_lifting_plan fplan))
                      +:+ "]")
                   (py_slice dofs s
                      (s + chunk_size (flux_lifting_plan fplan))))).
      2:{ intros s Hs. apply list_elem_of_In in Hs.
          apply py_range_step_multiples in Hs as [Hpos Hmod];
            [|lia|reflexivity|lia].
          apply batched_chunk_statements; [lia|exact Hpos|exact Hmod|].
          apply Forall_forall. intros dof Hdof.
          apply py_slice_py_range_elem in Hdof; [exact Hdof | exact Hpos]. }
      rewrite <- (map_map (fun s => py_slice dofs s
                             (s + chunk_size (flux_lifting_plan fplan)))
                    (map _)).
      rewrite <- concat_map. f_equal.
      destruct (decide (0 <= face_dofs_per_el fplan)) as [Hfd|Hfd].
      * subst starts.
        rewrite (py_range_step_slices dofs _ 0 (face_dofs_per_el fplan)
                   (chunk_size (flux_lifting_plan fplan)));
          [reflexivity|lia|lia|lia|].
        subst dofs. rewrite py_range_length. lia.
      * subst starts dofs. unfold py_range.
        replace (Z.to_nat (face_dofs_per_el fplan - 0)) with O by lia.
        replace (Z.to_nat (face_dofs_per_el fplan)) with O by lia.
        reflexivity.
    + eexists; split; [reflexivity|].
      unfold get_direct_tex_mat_mul_code.
      rewrite mul_add_statements_app.
      change (mul_add_statements [Line]) with (@nil string).
      rewrite app_nil_r.
      apply (mul_add_statements_map
               (fun j =>
                  "result += tex1Dfetch(fluxes_on_faces_tex, "
                  +:+ "global_mb_facedof_base+dof_el*FACE_DOFS_PER_EL+"
                  +:+ fmt_d j
                  +:+ ") * smem_lift_mat[CHUNK_DOF*LIFTMAT_COLUMNS + "
                  +:+ fmt_d j +:+ "]")).
      intros x. reflexivity.
Qed.

Lemma mat_mul_code_multiplies_each_column_once_witness :
  exists code,
    get_mat_mul_code (discr_flux_plan example_discr) 1 = Ok code
    /\ length (mul_add_statements code) = 2%nat.
Proof.
  destruct (proj2 (mat_mul_code_multiplies_each_column_once
                     (discr_flux_plan example_discr) 1))
    as (code & Hcode & Hmul).
  - reflexivity.
  - exists code. split; [exact Hcode|]. rewrite Hmul. reflexivity.
Defined.

(** ** The nodes of a face *)

Lemma face_indices_in_range (self : ldis) (node_tups : list (list Z))
  (fi : list (list Z)) :
  node_tuples self = Ok node_tups ->
  face_indices self = Ok fi ->
  length fi = S (dimensions self)
  /\ Forall (Forall (fun idx => 0 <= idx < Z.of_nat (length node_tups))) fi.
Proof.
  intros Htups Hfi.
  destruct (node_tuples_elem_of self node_tups Htups) as [Hnd Helem].
  rewrite (face_indices_value self node_tups Htups) in Hfi.
  apply (f_equal (fun r => match r with Ok x => x | Raise _ => [] end))
    in Hfi.
  cbv beta iota in Hfi. subst fi. split.
  - rewrite length_map, length_seq. reflexivity.
  - apply Forall_forall. intros face Hface.
    apply list_elem_of_fmap in Hface as (f & -> & _).
    apply Forall_forall. intros idx Hidx.
    apply elem_of_flat_map in Hidx as (nt & Hidx & Hnt).
    apply elem_of_face_marks in Hidx as [-> _].
    destruct (dimensions_succ self) as [d Hd]. rewrite Hd in Hnt.
    apply tuples_elem in Hnt. rewrite <- Hd in Hnt.
    apply Helem, node_tup_to_idx_is_Some in Hnt as [j Hj].
    rewrite Hj. simpl. apply node_tup_to_idx_Some in Hj as [Hpos Hj].
    apply lookup_lt_Some in Hj. lia.
Qed.

(** [unit_face_nodes()], when [unit_nodes()] returns one node per node
    tuple: it returns (no index is out of range) one point for each node
    number of the first face, [face_node_count()] points in all, and each
    point is the unit node of that number cut to its first
    [dimensions - 1] coordinates. *)
Theorem unit_face_nodes_follow_the_first_face `{FloatOps F, HedgeLib F}
  (self : ldis) (node_tups : list (list Z)) (unodes : list (list F)) :
  node_tuples self = Ok node_tups ->
  unit_nodes (F:=F) self = Ok unodes ->
  length unodes = length node_tups ->
  exists fi f0 ufn,
    face_indices self = Ok fi
    /\ fi !! 0%nat = Some f0
    /\ unit_face_nodes (F:=F) self = Ok ufn
    /\ face_node_count self = Ok (Z.of_nat (length ufn))
    /\ Forall2 (fun idx point =>
                  exists u, unodes !! Z.to_nat idx = Some u
                            /\ point = take (dimensions self - 1) u)
               f0 ufn.
Proof.
  intros Htups Hunodes Hlen.
  destruct (face_indices self) as [fi|e] eqn:Hfi.
  2:{ rewrite (face_indices_value self node_tups Htups) in Hfi.
      discriminate. }
  destruct (face_indices_in_range self node_tups fi Htups Hfi)
    as [Hfilen Hrange].
  destruct fi as [|f0 fi]; [discriminate|].
  apply Forall_cons in Hrange as [Hf0 _].
  destruct (mapM_result_Forall2
              (fun i => u ← py_index unodes i;
                        Ok (take (dimensions self - 1) u))
              (fun idx point =>
                 exists u, unodes !! Z.to_nat idx = Some u
                           /\ point = take (dimensions self - 1) u)
              f0) as (ufn & Hufn & Hall).
  { eapply Forall_impl; [exact Hf0|]. intros idx Hidx. cbv beta in Hidx.
    destruct (py_index_nonneg unodes idx ltac:(lia)) as (u & Hu & ->).
    cbn [mbind result_bind]. eauto. }
  exists (f0 :: fi), f0, ufn.
  split; [reflexivity|]. split; [reflexivity|].
  unfold unit_face_nodes, face_node_count.
  rewrite Hunodes, Hfi. cbn [mbind result_bind].
  change (py_index (f0 :: fi) 0) with (Ok (A:=list Z) f0).
  cbn [mbind result_bind].
  split; [exact Hufn|]. split; [|exact Hall].
  apply mapM_result_length in Hufn. rewrite Hufn. reflexivity.
Qed.

Lemma unit_face_nodes_follow_the_first_face_witness :
  exists fi f0 ufn,
    face_indices (triangle_of_order 2) = Ok fi
    /\ fi !! 0%nat = Some f0
    /\ unit_face_nodes (F:=Q) (triangle_of_order 2) = Ok ufn
    /\ face_node_count (triangle_of_order 2) = Ok (Z.of_nat (length ufn))
    /\ length ufn = length f0.
Proof.
  destruct (unit_nodes (F:=Q) (triangle_of_order 2)) as [unodes|e] eqn:Hu.
  - destruct (unit_face_nodes_follow_the_first_face (F:=Q)
                (triangle_of_order 2)
                (generate_nonnegative_integer_tuples_summing_to_at_most 2 2)
                unodes)
      as (fi & f0 & ufn & Hfi & Hf0 & Hufn & Hcount & Hall).
    + reflexivity.
    + exact Hu.
    + vm_compute in Hu. injection Hu as <-. reflexivity.
    + exists fi, f0, ufn. repeat split; try assumption.
      symmetry. exact (Forall2_length _ _ _ Hall).
  - vm_compute in Hu. discriminate.
Defined.

(** ** The number of nodes of a face *)

Lemma face_marks_length (f idx : Z) (fs : list Z) :
  NoDup fs ->
  length (flat_map (fun g => if decide (g = f) then [idx] else []) fs)
  = if decide (f ∈ fs) then 1%nat else 0%nat.
Proof.
  induction 1 as [|g fs Hg _ IH]; [reflexivity|].
  cbn [flat_map]. rewrite length_app, IH.
  destruct (decide (g = f)) as [->|Hne].
  - rewrite (decide_False (P := f ∈ fs)) by exact Hg.
    rewrite decide_True by left. reflexivity.
  - destruct (decide (f ∈ fs)) as [Hin|Hin].
    + rewrite decide_True by (right; exact Hin). reflexivity.
    + rewrite decide_False; [reflexivity|].
      rewrite elem_of_cons. intros [?|?]; [congruence | contradiction].
Qed.

Lemma face_length_filter (self : ldis) (f : Z) (idx_of : list Z -> Z)
  (l : list (list Z)) :
  length (flat_map
            (fun nt => flat_map (fun g => if decide (g = f) then [idx_of nt]
                                          else [])
                         (node_faces self nt))
            l)
  = length (filter (fun nt => f ∈ node_faces self nt) l).
Proof.
  rewrite length_flat_map, <- list_sum_indicator. f_equal.
  apply map_ext. intros nt.
  apply face_marks_length, faces_for_node_tuple_NoDup.
Qed.

Lemma filter_map_Permutation {A B} (P : A -> Prop)
  `{forall x, Decision (P x)} (emb : B -> A) (l : list A) (l' : list B) :
  NoDup l -> NoDup l' ->
  (forall x y, x ∈ l' -> y ∈ l' -> emb x = emb y -> x = y) ->
  (forall t, P t /\ t ∈ l <-> exists b, t = emb b /\ b ∈ l') ->
  filter P l ≡ₚ map emb l'.
Proof.
  intros Hl Hl' Hinj Hmem. apply NoDup_Permutation.
  - apply NoDup_filter, Hl.
  - apply NoDup_fmap_2_strong; assumption.
  - intros t. rewrite list_elem_of_filter, list_elem_of_fmap. apply Hmem.
Qed.

Lemma index_tuple_1 (n : Z) (t : list Z) :
  index_tuple 1 n t <-> exists m, t = [m] /\ 0 <= m <= n.
Proof.
  unfold index_tuple, tuple_sum. split.
  - intros (Hlen & Hpos & Hsum). destruct t as [|m [|? ?]]; try discriminate.
    apply Forall_cons in Hpos as [Hm _]. simpl in Hsum.
    exists m. split; [reflexivity | lia].
  - intros (m & -> & Hm). simpl. repeat split; [|lia].
    repeat constructor. lia.
Qed.

Lemma index_tuple_2 (n : Z) (t : list Z) :
  index_tuple 2 n t
  <-> exists m k, t = [m; k] /\ 0 <= m /\ 0 <= k /\ m + k <= n.
Proof.
  unfold index_tuple, tuple_sum. split.
  - intros (Hlen & Hpos & Hsum).
    destruct t as [|m [|k [|? ?]]]; try discriminate.
    apply Forall_cons in Hpos as [Hm Hpos].
    apply Forall_cons in Hpos as [Hk _]. simpl in Hsum.
    exists m, k. split; [reflexivity | lia].
  - intros (m & k & -> & Hm & Hk & Hs). simpl. repeat split; [|lia].
    repeat constructor; lia.
Qed.

Lemma index_tuple_3 (n : Z) (t : list Z) :
  index_tuple 3 n t
  <-> exists m k o, t = [m; k; o]
                    /\ 0 <= m /\ 0 <= k /\ 0 <= o /\ m + k + o <= n.
Proof.
  unfold index_tuple, tuple_sum. split.
  - intros (Hlen & Hpos & Hsum).
    destruct t as [|m [|k [|o [|? ?]]]]; try discriminate.
    apply Forall_cons in Hpos as [Hm Hpos].
    apply Forall_cons in Hpos as [Hk Hpos].
    apply Forall_cons in Hpos as [Ho _]. simpl in Hsum.
    exists m, k, o. split; [reflexivity | lia].
  - intros (m & k & o & -> & Hm & Hk & Ho & Hs). simpl.
    repeat split; [|lia]. repeat constructor; lia.
Qed.

Ltac face_cases Hf :=
  repeat case_decide;
  rewrite ?elem_of_app, ?elem_of_cons, ?elem_of_nil in Hf;
  simplify_eq; try lia.

Lemma interval_face_tuples (self : ldis) (f : nat) :
  cls self = IntervalDiscretization -> 0 <= order self -> (f <= 1)%nat ->
  filter (fun nt => Z.of_nat f ∈ node_faces self nt)
    (generate_nonnegative_integer_tuples_summing_to_at_most (order self) 1)
  ≡ₚ map (face_node_tuple self f)
       (generate_nonnegative_integer_tuples_summing_to_at_most
          (order self) 0).
Proof.
  intros Hcls Hord Hf. apply filter_map_Permutation.
  - apply tuples_NoDup.
  - apply tuples_NoDup.
  - cbn [generate_nonnegative_integer_tuples_summing_to_at_most].
    intros x y Hx Hy _. apply list_elem_of_singleton in Hx, Hy. congruence.
  - intros t. rewrite tuples_elem, index_tuple_1.
    cbn [generate_nonnegative_integer_tuples_summing_to_at_most].
    unfold node_faces, faces_for_node_tuple, face_node_tuple,
      interval_faces_for_node_tuple.
    rewrite Hcls. split.
    + intros (Hon & m & -> & Hm). exists []. split; [|left].
      destruct f as [|[|f]]; [| |lia]; cbn in Hon |- *;
        repeat case_decide;
        rewrite ?elem_of_cons, ?elem_of_nil in Hon;
        simplify_eq; try reflexivity; try lia; congruence.
    + intros (b & -> & _).
      destruct f as [|[|f]]; [| |lia]; cbn.
      * split; [|exists 0; split; [reflexivity|lia]].
        repeat case_decide; rewrite ?elem_of_cons; try tauto; congruence.
      * split; [|exists (order self); split; [reflexivity|lia]].
        repeat case_decide; rewrite ?elem_of_cons; try tauto;
          simplify_eq; try congruence.
Qed.

Lemma triangle_face_tuples (self : ldis) (f : nat) :
  cls self = TriangleDiscretization -> 0 <= order self -> (f <= 2)%nat ->
  filter (fun nt => Z.of_nat f ∈ node_faces self nt)
    (generate_nonnegative_integer_tuples_summing_to_at_most (order self) 2)
  ≡ₚ map (face_node_tuple self f)
       (generate_nonnegative_integer_tuples_summing_to_at_most
          (order self) 1).
Proof.
  intros Hcls Hord Hf. apply filter_map_Permutation.
  - apply tuples_NoDup.
  - apply tuples_NoDup.
  - intros x y Hx Hy. rewrite tuples_elem, index_tuple_1 in Hx, Hy.
    destruct Hx as (m & -> & _), Hy as (m' & -> & _).
    unfold face_node_tuple. rewrite Hcls.
    destruct f as [|[|f]]; intros [= ]; congruence.
  - intros t. rewrite tuples_elem, index_tuple_2.
    setoid_rewrite tuples_elem. setoid_rewrite index_tuple_1.
    unfold node_faces, faces_for_node_tuple, face_node_tuple,
      triangle_faces_for_node_tuple.
    rewrite Hcls. split.
    + intros (Hon & m & k & -> & Hm & Hk & Hs).
      destruct f as [|[|[|f]]]; [| | |lia]; cbn in Hon.
      * exists [m]; face_cases Hon;
          (split; [repeat f_equal; try lia|]);
          eexists; (split; [reflexivity|lia]).
      * exists [m]; face_cases Hon;
          (split; [repeat f_equal; try lia|]);
          eexists; (split; [reflexivity|lia]).
      * exists [k]; face_cases Hon;
          (split; [repeat f_equal; try lia|]);
          eexists; (split; [reflexivity|lia]).
    + intros (b & -> & m & -> & Hm).
      destruct f as [|[|[|f]]]; [| | |lia]; cbn.
      * split; [|exists m, 0; split; [reflexivity|lia]].
        rewrite decide_True by reflexivity. left.
      * split; [|exists m, (order self - m); split; [reflexivity|lia]].
        rewrite (decide_True (P := order self - m + m = order self)) by lia.
        rewrite !elem_of_app, !elem_of_cons. tauto.
      * split; [|exists 0, m; split; [reflexivity|lia]].
        rewrite (decide_True (P := 0 = 0)) by reflexivity.
        rewrite !elem_of_app, !elem_of_cons. tauto.
Qed.

Lemma tetrahedron_face_tuples (self : ldis) (f : nat) :
  cls self = TetrahedronDiscretization -> 0 <= order self -> (f <= 3)%nat ->
  filter (fun nt => Z.of_nat f ∈ node_faces self nt)
    (generate_nonnegative_integer_tuples_summing_to_at_most (order self) 3)
  ≡ₚ map (face_node_tuple self f)
       (generate_nonnegative_integer_tuples_summing_to_at_most
          (order self) 2).
Proof.
  intros Hcls Hord Hf. apply filter_map_Permutation.
  - apply tuples_NoDup.
  - apply tuples_NoDup.
  - intros x y Hx Hy. rewrite tuples_elem, index_tuple_2 in Hx, Hy.
    destruct Hx as (m & k & -> & _), Hy as (m' & k' & -> & _).
    unfold face_node_tuple. rewrite Hcls.
    destruct f as [|[|[|f]]]; intros [= ]; congruence.
  - intros t. rewrite tuples_elem, index_tuple_3.
    setoid_rewrite tuples_elem. setoid_rewrite index_tuple_2.
    unfold node_faces, faces_for_node_tuple, face_node_tuple,
      tetrahedron_faces_for_node_tuple.
    rewrite Hcls. split.
    + intros (Hon & m & k & o & -> & Hm & Hk & Ho & Hs).
      destruct f as [|[|[|[|f]]]]; [| | | |lia]; cbn in Hon.
      * exists [m; k]; face_cases Hon;
          (split; [repeat f_equal; try lia|]);
          do 2 eexists; (split; [reflexivity|lia]).
      * exists [m; o]; face_cases Hon;
          (split; [repeat f_equal; try lia|]);
          do 2 eexists; (split; [reflexivity|lia]).
      * exists [k; o]; face_cases Hon;
          (split; [repeat f_equal; try lia|]);
          do 2 eexists; (split; [reflexivity|lia]).
      * exists [m; k]; face_cases Hon;
          (split; [repeat f_equal; try lia|]);
          do 2 eexists; (split; [reflexivity|lia]).
    + intros (b & -> & m & k & -> & Hm & Hk & Hs).
      destruct f as [|[|[|[|f]]]]; [| | | |lia]; cbn.
      * split; [|exists m, k, 0; split; [reflexivity|lia]].
        rewrite decide_True by reflexivity. left.
      * split; [|exists m, 0, k; split; [reflexivity|lia]].
        rewrite (decide_True (P := 0 = 0)) by reflexivity.
        rewrite !elem_of_app, !elem_of_cons. tauto.
      * split; [|exists 0, m, k; split; [reflexivity|lia]].
        rewrite (decide_True (P := 0 = 0)) by reflexivity.
        rewrite !elem_of_app, !elem_of_cons. tauto.
      * split;
          [|exists m, k, (order self - m - k); split; [reflexivity|lia]].
        rewrite (decide_True
                   (P := k + m + (order self - m - k) = order self)) by lia.
        rewrite !elem_of_app, !elem_of_cons. tauto.
Qed.

Lemma face_tuples_Permutation (self : ldis) (f : nat) :
  0 <= order self -> (f <= dimensions self)%nat ->
  filter (fun nt => Z.of_nat f ∈ node_faces self nt)
    (generate_nonnegative_integer_tuples_summing_to_at_most
       (order self) (dimensions self))
  ≡ₚ map (face_node_tuple self f)
       (generate_nonnegative_integer_tuples_summing_to_at_most
          (order self) (dimensions self - 1)).
Proof.
  intros Hord Hf. unfold dimensions in *.
  destruct (cls self) eqn:Hcls.
  - apply interval_face_tuples; assumption.
  - apply triangle_face_tuples; assumption.
  - apply tetrahedron_face_tuples; assumption.
Qed.

Lemma face_length (self : ldis) (node_tups : list (list Z))
  (fi : list (list Z)) (f : nat) (face : list Z) :
  node_tuples self = Ok node_tups ->
  face_indices self = Ok fi ->
  fi !! f = Some face ->
  length face
  = if decide (0 <= order self)
    then length (generate_nonnegative_integer_tuples_summing_to_at_most
                   (order self) (dimensions self - 1))
    else 0%nat.
Proof.
  intros Htups Hfi Hface.
  rewrite (face_indices_value self node_tups Htups) in Hfi.
  apply (f_equal (fun r => match r with Ok x => x | Raise _ => [] end))
    in Hfi.
  cbv beta iota in Hfi. subst fi.
  rewrite list_lookup_fmap in Hface.
  destruct (seq 0 (S (dimensions self)) !! f) as [f'|] eqn:Hf; [|discriminate].
  apply lookup_seq in Hf as [-> Hf]. simpl in Hface.
  injection Hface as <-.
  rewrite face_length_filter. case_decide as Hord.
  - rewrite (face_tuples_Permutation self f Hord) by lia.
    apply length_map.
  - destruct (dimensions_succ self) as [d ->].
    rewrite tuples_count_negative by lia. reflexivity.
Qed.

(** All the faces that [face_indices()] returns have the same number of
    nodes, the number that [face_node_count()] reads off the first one: the
    assignment of one face mass matrix to the rows of every face relies on
    it. *)
Theorem faces_have_equally_many_nodes (self : ldis)
  (node_tups : list (list Z)) :
  node_tuples self = Ok node_tups ->
  exists fi fnc,
    face_indices self = Ok fi
    /\ face_node_count self = Ok fnc
    /\ Forall (fun face => Z.of_nat (length face) = fnc) fi.
Proof.
  intros Htups.
  destruct (face_indices self) as [fi|e] eqn:Hfi.
  2:{ rewrite (face_indices_value self node_tups Htups) in Hfi.
      discriminate. }
  destruct (face_indices_in_range self node_tups fi Htups Hfi)
    as [Hfilen _].
  destruct fi as [|f0 fi]; [discriminate|].
  exists (f0 :: fi), (Z.of_nat (length f0)).
  split; [reflexivity|]. split.
  - unfold face_node_count. rewrite Hfi. reflexivity.
  - apply Forall_forall. intros face Hface.
    apply list_elem_of_lookup in Hface as [f Hface].
    rewrite (face_length self node_tups _ f face Htups Hfi Hface).
    rewrite (face_length self node_tups _ 0%nat f0 Htups Hfi eq_refl).
    reflexivity.
Qed.

Lemma faces_have_equally_many_nodes_witness :
  exists fi fnc,
    face_indices (tetrahedron_of_order 3) = Ok fi
    /\ face_node_count (tetrahedron_of_order 3) = Ok fnc
    /\ Forall (fun face => Z.of_nat (length face) = fnc) fi.
Proof.
  apply (faces_have_equally_many_nodes (tetrahedron_of_order 3)
           (generate_nonnegative_integer_tuples_summing_to_at_most 3 3)).
  reflexivity.
Defined.

(** ** The multi-face mass matrix *)

Lemma set_block_row_length {F} (row : list F) (col : nat) (vals : list F) :
  (col + length vals <= length row)%nat ->
  length (set_block_row row col vals) = length row.
Proof.
  intros Hfit. unfold set_block_row.
  rewrite !length_app, length_take, length_drop. lia.
Qed.

Lemma set_block_row_lookup {F} (row : list F) (col : nat) (vals : list F)
  (c : nat) :
  (col + length vals <= length row)%nat ->
  set_block_row row col vals !! c
  = if decide (col <= c < col + length vals)%nat
    then vals !! (c - col)%nat
    else row !! c.
Proof.
  intros Hfit. unfold set_block_row.
  destruct (decide (c < col)%nat) as [Hlt|Hge].
  - rewrite lookup_app_l by (rewrite length_take; lia).
    rewrite lookup_take_lt by exact Hlt.
    rewrite decide_False by lia. reflexivity.
  - rewrite lookup_app_r by (rewrite length_take; lia).
    rewrite length_take. replace (col `min` length row)%nat with col by lia.
    destruct (decide (c < col + length vals)%nat) as [Hin|Hout].
    + rewrite lookup_app_l by lia. rewrite decide_True by lia. reflexivity.
    + rewrite lookup_app_r by lia. rewrite lookup_drop.
      rewrite decide_False by lia. f_equal. lia.
Qed.

(** The loop of [assign_face_block] over the rows of one face. *)
Lemma assign_rows_loop {F} (fmm : list (list F)) (col : nat) (l : list Z)
  (off : nat) (res : list (list F)) :
  NoDup l ->
  Forall (fun idx => 0 <= idx < Z.of_nat (length res)) l ->
  (nrows fmm = 1%nat -> (off + length l <= 1)%nat) ->
  exists res',
    foldM (fun res (ki : Z * Z) =>
             let '(k, idx) := ki in
             if (idx <? 0) || (Z.of_nat (nrows res) <=? idx)
             then Raise IndexError
             else
               let src := default []
                 (fmm !! (if bool_decide (nrows fmm = 1%nat) then O
                          else Z.to_nat k)) in
               row ← py_index res idx;
               Ok (<[Z.to_nat idx := set_block_row row col src]> res))
          (imap (fun k a => (Z.of_nat (off + k), a)) l) res
    = Ok res'
    /\ length res' = length res
    /\ (forall k idx,
          l !! k = Some idx ->
          res' !! Z.to_nat idx
          = (fun row => set_block_row row col
                          (default [] (fmm !! (off + k)%nat)))
              <$> res !! Z.to_nat idx)
    /\ (forall r, Z.of_nat r ∉ l -> res' !! r = res !! r).
Proof.
  match goal with
  | |- context [foldM ?f _ _] => set (step := f)
  end.
  intros Hnd. revert off res.
  induction Hnd as [|idx l Hidx Hnd IH]; intros off res Hrange Hone.
  - exists res. split; [reflexivity|]. split; [reflexivity|].
    split; [|reflexivity].
    intros k idx Hk. rewrite lookup_nil in Hk. discriminate.
  - apply Forall_cons in Hrange as [Hi Hrange].
    destruct (py_index_nonneg res idx Hi) as (row & Hrow & Hpy).
    set (src := default [] (fmm !! (off + 0)%nat)).
    set (res1 := <[Z.to_nat idx := set_block_row row col src]> res).
    assert (Hstep : step res (Z.of_nat (off + 0), idx) = Ok res1).
    { unfold step, nrows.
      destruct (Z.ltb_spec idx 0) as [?|_]; [lia|].
      destruct (Z.leb_spec (Z.of_nat (length res)) idx) as [?|_]; [lia|].
      cbn [orb]. rewrite Hpy. cbn [mbind result_bind].
      do 3 f_equal. unfold src. do 2 f_equal.
      case_bool_decide as Hh; [|lia].
      specialize (Hone Hh). simpl in Hone. lia. }
    rewrite imap_cons. cbn [foldM]. rewrite Hstep. cbn [mbind result_bind].
    rewrite (imap_ext _ (fun k a => (Z.of_nat (S off + k), a)))
      by (intros k a _; simpl; do 2 f_equal; lia).
    assert (Hlen1 : length res1 = length res)
      by (unfold res1; apply length_insert).
    destruct (IH (S off) res1) as (res' & Hrun & Hlen & Hset & Hkeep).
    { rewrite Hlen1. exact Hrange. }
    { intros Hh. specialize (Hone Hh). simpl in Hone. lia. }
    exists res'. split; [exact Hrun|]. split; [lia|]. split.
    + intros [|k] idx' Hk.
      * injection Hk as <-. rewrite Hkeep by (rewrite Z2Nat.id; lia || exact Hidx).
        unfold res1. rewrite list_lookup_insert_eq by lia.
        rewrite Hrow. reflexivity.
      * cbn in Hk. rewrite (Hset k idx' Hk).
        assert (Hne : idx' <> idx).
        { intros ->. apply Hidx. eapply list_elem_of_lookup_2, Hk. }
        rewrite Forall_forall in Hrange.
        pose proof (Hrange idx' (list_elem_of_lookup_2 _ _ _ Hk)) as Hr.
        unfold res1. rewrite list_lookup_insert_ne by lia.
        replace (S off + k)%nat with (off + S k)%nat by lia. reflexivity.
    + intros r Hr. rewrite not_elem_of_cons in Hr. destruct Hr as [Hr1 Hr2].
      rewrite (Hkeep r Hr2). unfold res1.
      apply list_lookup_insert_ne. lia.
Qed.

Lemma assign_face_block_value {F} (res : list (list F)) (f_indices : list Z)
  (i_face w : nat) (fmm : list (list F)) :
  nrows fmm = length f_indices ->
  NoDup f_indices ->
  Forall (fun idx => 0 <= idx < Z.of_nat (length res)) f_indices ->
  exists res',
    assign_face_block res f_indices i_face w fmm = Ok res'
    /\ length res' = length res
    /\ (forall k idx,
          f_indices !! k = Some idx ->
          res' !! Z.to_nat idx
          = (fun row => set_block_row row (i_face * w)
                          (default [] (fmm !! k)))
              <$> res !! Z.to_nat idx)
    /\ (forall r, Z.of_nat r ∉ f_indices -> res' !! r = res !! r).
Proof.
  intros Hh Hnd Hrange. unfold assign_face_block.
  rewrite (bool_decide_true (nrows fmm = length f_indices)) by exact Hh.
  rewrite andb_false_r.
  apply (assign_rows_loop fmm (i_face * w) f_indices 0 res Hnd Hrange).
  intros Hone. simpl. lia.
Qed.

Lemma entry_set_block_row {F} (row : list F) (col : nat) (vals : list F)
  (c : nat) :
  (col + length vals <= length row)%nat ->
  ~ (col <= c < col + length vals)%nat ->
  set_block_row row col vals !! c = row !! c.
Proof.
  intros Hfit Hout. rewrite set_block_row_lookup by exact Hfit.
  rewrite decide_False by exact Hout. reflexivity.
Qed.

(** The loop of [_assemble_multi_face_mass_matrix] over the faces. *)
Lemma assign_faces_loop {F} (fmm : list (list F)) (w nc W : nat)
  (faces : list (list Z)) (off : nat) (res : list (list F)) :
  has_shape res nc W ->
  Forall (fun r => length r = w) fmm ->
  ((off + length faces) * w <= W)%nat ->
  Forall (fun face => NoDup face
                      /\ Forall (fun idx => 0 <= idx < Z.of_nat nc) face
                      /\ length face = nrows fmm) faces ->
  exists res',
    foldM (fun res (p : Z * list Z) =>
             let '(i_face, f_indices) := p in
             assign_face_block res f_indices (Z.to_nat i_face) w fmm)
          (imap (fun i a => (Z.of_nat (off + i), a)) faces) res
    = Ok res'
    /\ has_shape res' nc W
    /\ (forall i face k idx src,
          faces !! i = Some face -> face !! k = Some idx ->
          fmm !! k = Some src ->
          forall j, (j < w)%nat ->
                    entry res' (Z.to_nat idx) ((off + i) * w + j) = src !! j)
    /\ (forall r c,
          (forall i face,
              faces !! i = Some face -> Z.of_nat r ∈ face ->
              ~ ((off + i) * w <= c < (off + i) * w + w)%nat) ->
          entry res' r c = entry res r c).
Proof.
  match goal with
  | |- context [foldM ?f _ _] => set (step := f)
  end.
  intros Hshape Hfmm. revert off res Hshape.
  induction faces as [|face faces IH]; intros off res [Hnc Hrows] HW Hfaces.
  - exists res. split; [reflexivity|]. split; [split; assumption|].
    split; [|reflexivity].
    intros i face k idx src Hi. rewrite lookup_nil in Hi. discriminate.
  - apply Forall_cons in Hfaces as [(Hnd & Hrange & Hlen) Hfaces].
    cbn [length] in HW.
    destruct (assign_face_block_value res face (off + 0) w fmm)
      as (res1 & Hrun1 & Hlen1 & Hset1 & Hkeep1);
      [congruence | exact Hnd | rewrite Hnc; exact Hrange |].
    assert (Hsrc : forall k idx, face !! k = Some idx ->
                                 exists src, fmm !! k = Some src
                                             /\ length src = w).
    { intros k idx Hk. apply lookup_lt_Some in Hk.
      destruct (lookup_lt_is_Some_2 fmm k) as [src Hs];
        [unfold nrows in Hlen; lia|].
      exists src. split; [exact Hs|].
      rewrite Forall_forall in Hfmm.
      apply Hfmm. eapply list_elem_of_lookup_2, Hs. }
    assert (Hrow1 : forall r, (r < nc)%nat ->
              exists row row1, res !! r = Some row /\ length row = W
                               /\ res1 !! r = Some row1
                               /\ length row1 = W
                               /\ (forall c,
                                     ~ (off * w <= c < off * w + w)%nat ->
                                     row1 !! c = row !! c)
                               /\ (forall k src j,
                                     face !! k = Some (Z.of_nat r) ->
                                     fmm !! k = Some src -> (j < w)%nat ->
                                     row1 !! (off * w + j)%nat = src !! j)).
    { intros r Hr.
      destruct (lookup_lt_is_Some_2 res r) as [row Hrow]; [lia|].
      assert (HrowW : length row = W).
      { rewrite Forall_forall in Hrows.
        apply Hrows. eapply list_elem_of_lookup_2, Hrow. }
      exists row.
      destruct (decide (Z.of_nat r ∈ face)) as [Hin|Hout].
      - apply list_elem_of_lookup in Hin as [k Hk].
        destruct (Hsrc k _ Hk) as (src & Hs & Hsw).
        pose proof (Hset1 k _ Hk) as Hr1.
        rewrite Nat2Z.id, Hrow, Hs in Hr1. cbn in Hr1.
        rewrite Nat.add_0_r in Hr1.
        eexists. split; [exact Hrow|]. split; [exact HrowW|].
        split; [exact Hr1|]. split; [|split].
        + rewrite set_block_row_length; [exact HrowW|]. lia.
        + intros c Hc. apply entry_set_block_row; lia.
        + intros k' src' j Hk' Hs' Hj.
          assert (k' = k) as ->.
          { eapply NoDup_lookup; eassumption. }
          rewrite Hs in Hs'. injection Hs' as <-.
          rewrite set_block_row_lookup by lia.
          rewrite decide_True by lia. f_equal. lia.
      - exists row. rewrite (Hkeep1 r Hout).
        split; [exact Hrow|]. split; [exact HrowW|].
        split; [exact Hrow|]. split; [exact HrowW|].
        split; [reflexivity|].
        intros k src j Hk. exfalso. apply Hout.
        eapply list_elem_of_lookup_2, Hk. }
    assert (Hshape1 : has_shape res1 nc W).
    { split; [lia|]. apply Forall_lookup. intros r row1 Hr1.
      pose proof (lookup_lt_Some _ _ _ Hr1) as Hr.
      destruct (Hrow1 r ltac:(lia)) as (_ & row1' & _ & _ & Hr1' & HW1 & _).
      congruence. }
    rewrite imap_cons. cbn [foldM].
    assert (Hstep : step res (Z.of_nat (off + 0), face) = Ok res1).
    { unfold step. rewrite Nat2Z.id. exact Hrun1. }
    rewrite Hstep. cbn [mbind result_bind].
    rewrite (imap_ext _ (fun i a => (Z.of_nat (S off + i), a)))
      by (intros k a _; simpl; do 2 f_equal; lia).
    destruct (IH (S off) res1 Hshape1) as (res' & Hrun & Hshape' & Hset & Hkeep);
      [lia | exact Hfaces |].
    exists res'. split; [exact Hrun|]. split; [exact Hshape'|]. split.
    + intros [|i] face' k idx src Hi Hk Hs j Hj.
      * injection Hi as <-.
        rewrite Forall_forall in Hrange.
        pose proof (Hrange idx (list_elem_of_lookup_2 _ _ _ Hk)) as Hidx.
        rewrite Hkeep.
        2:{ intros i' face' _ _. nia. }
        destruct (Hrow1 (Z.to_nat idx) ltac:(lia))
          as (row & row1 & _ & _ & Hr1 & _ & _ & Hblock).
        unfold entry. rewrite Hr1. cbn.
        rewrite Nat.add_0_r. apply (Hblock k); [|exact Hs|exact Hj].
        rewrite Z2Nat.id by lia. exact Hk.
      * cbn in Hi. replace (off + S i)%nat with (S off + i)%nat by lia.
        eapply Hset; eassumption.
    + intros r c Hfree. rewrite Hkeep.
      2:{ intros i' face' Hi' Hin.
          replace (S off + i')%nat with (off + S i')%nat by lia.
          apply (Hfree (S i') face'); assumption. }
      unfold entry.
      destruct (decide (r < nc)%nat) as [Hr|Hr].
      * destruct (Hrow1 r Hr) as (row & row1 & Hrow & _ & Hr1 & _ & Hout & _).
        rewrite Hrow, Hr1. cbn.
        destruct (decide (Z.of_nat r ∈ face)) as [Hin|Hnin].
        -- apply Hout. specialize (Hfree 0%nat face eq_refl Hin).
           rewrite Nat.add_0_r in Hfree. exact Hfree.
        -- rewrite (Hkeep1 r Hnin) in Hr1. congruence.
      * rewrite (lookup_ge_None_2 res1), (lookup_ge_None_2 res) by lia.
        reflexivity.
Qed.

Lemma face_indices_NoDup (self : ldis) (node_tups : list (list Z))
  (fi : list (list Z)) :
  node_tuples self = Ok node_tups ->
  face_indices self = Ok fi ->
  Forall NoDup fi.
Proof.
  intros Htups Hfi.
  destruct (node_tuples_elem_of self node_tups Htups) as [Hnd Helem].
  assert (Hgen : forall nt,
            nt ∈ generate_nonnegative_integer_tuples_summing_to_at_most
                   (order self) (dimensions self)
            -> nt ∈ node_tups).
  { intros nt. rewrite Helem. destruct (dimensions_succ self) as [d ->].
    apply tuples_elem. }
  rewrite (face_indices_value self node_tups Htups) in Hfi.
  apply (f_equal (fun r => match r with Ok x => x | Raise _ => [] end))
    in Hfi.
  cbv beta iota in Hfi. subst fi.
  apply Forall_forall. intros face Hface.
  apply list_elem_of_fmap in Hface as (f & -> & _).
  rewrite flat_map_bind. apply NoDup_bind.
  - intros nt1 nt2 y Hnt1 Hnt2 Hy1 Hy2.
    apply elem_of_face_marks in Hy1 as [-> _].
    apply elem_of_face_marks in Hy2 as [Heq _].
    apply Hgen, node_tup_to_idx_is_Some in Hnt1 as [j1 Hj1].
    apply Hgen, node_tup_to_idx_is_Some in Hnt2 as [j2 Hj2].
    rewrite Hj1, Hj2 in Heq. simpl in Heq. subst j2.
    apply node_tup_to_idx_Some in Hj1 as [_ Hj1].
    apply node_tup_to_idx_Some in Hj2 as [_ Hj2]. congruence.
  - intros nt _. apply face_marks_NoDup, faces_for_node_tuple_NoDup.
  - apply tuples_NoDup.
Qed.

Lemma node_count_is_length (self : ldis) (node_tups : list (list Z)) :
  node_tuples self = Ok node_tups -> 0 <= order self ->
  Z.of_nat (length node_tups) < 2 ^ 53 ->
  node_count self = Ok (Z.of_nat (length node_tups)).
Proof.
  intros Htups Hord Hfew.
  assert (Hlen : length node_tups
                 = binomial (Z.to_nat (order self) + dimensions self)
                            (dimensions self)).
  { rewrite (Permutation_length
               (node_tuples_Permutation self node_tups Htups)).
    rewrite <- (Z2Nat.id (order self)) at 1 by exact Hord.
    apply tuples_count. }
  rewrite Hlen in *. apply node_count_binomial; assumption.
Qed.

Lemma zeros_shape `{FloatOps F} (h w : nat) : has_shape (zeros (F:=F) h w) h w.
Proof.
  unfold zeros. split; [apply length_replicate|].
  apply Forall_replicate, length_replicate.
Qed.

Lemma zeros_entry `{FloatOps F} (h w r c : nat) :
  (r < h)%nat -> (c < w)%nat -> entry (zeros (F:=F) h w) r c = Some (fint 0).
Proof.
  intros Hr Hc. unfold entry, zeros.
  rewrite lookup_replicate_2 by exact Hr. cbn.
  apply lookup_replicate_2, Hc.
Qed.

(** [_assemble_multi_face_mass_matrix(face_mass_matrix)] on an element of
    order >= 0 with fewer than [2^53] nodes (their number goes through a
    double in [node_count()]) and a rectangular face matrix.  It raises
    [AssertionError] unless the matrix has [face_node_count()] rows.
    Otherwise it returns an array with one row per node and one block of
    [fmm_width] columns per face: in the block of face [i], the row of the
    [k]-th node of that face is row [k] of the face matrix, and the rows of
    the nodes that are not on face [i] are zero. *)
Theorem assemble_multi_face_mass_matrix_blocks `{FloatOps F}
  (self : ldis) (node_tups : list (list Z))
  (face_mass_matrix : list (list F)) :
  node_tuples self = Ok node_tups ->
  0 <= order self ->
  Z.of_nat (length node_tups) < 2 ^ 53 ->
  Forall (fun r => length r = ncols face_mass_matrix) face_mass_matrix ->
  exists fi fnc,
    face_indices self = Ok fi
    /\ face_node_count self = Ok fnc
    /\ (Z.of_nat (nrows face_mass_matrix) <> fnc ->
        assemble_multi_face_mass_matrix self face_mass_matrix
        = Raise AssertionError)
    /\ (Z.of_nat (nrows face_mass_matrix) = fnc ->
        exists res,
          assemble_multi_face_mass_matrix self face_mass_matrix = Ok res
          /\ has_shape res (length node_tups)
               (length fi * ncols face_mass_matrix)
          /\ (forall i face k idx src,
                fi !! i = Some face -> face !! k = Some idx ->
                face_mass_matrix !! k = Some src ->
                forall j, (j < ncols face_mass_matrix)%nat ->
                  entry res (Z.to_nat idx)
                    (i * ncols face_mass_matrix + j)
                  = src !! j)
          /\ (forall r i face j,
                (r < length node_tups)%nat ->
                fi !! i = Some face -> Z.of_nat r ∉ face ->
                (j < ncols face_mass_matrix)%nat ->
                entry res r (i * ncols face_mass_matrix + j)
                = Some (fint 0))).
Proof.
  intros Htups Hord Hfew Hrect.
  set (w := ncols face_mass_matrix) in *.
  destruct (face_indices self) as [fi|e] eqn:Hfi.
  2:{ rewrite (face_indices_value self node_tups Htups) in Hfi.
      discriminate. }
  destruct (face_indices_in_range self node_tups fi Htups Hfi)
    as [Hfilen Hrange].
  pose proof (face_indices_NoDup self node_tups fi Htups Hfi) as Hnodup.
  destruct fi as [|f0 fi0] eqn:Hfi_eq; [discriminate|].
  rewrite <- Hfi_eq in *.
  assert (Hf0 : fi !! 0%nat = Some f0) by (rewrite Hfi_eq; reflexivity).
  assert (Hfnc : face_node_count self = Ok (Z.of_nat (length f0))).
  { unfold face_node_count. rewrite Hfi, Hfi_eq. reflexivity. }
  exists fi, (Z.of_nat (length f0)).
  split; [reflexivity|]. split; [exact Hfnc|].
  unfold assemble_multi_face_mass_matrix. rewrite Hfnc.
  cbn [mbind result_bind]. split.
  - intros Hne. rewrite bool_decide_false by exact Hne. reflexivity.
  - intros Heq. rewrite bool_decide_true by exact Heq.
    cbn [py_assert mbind result_bind].
    rewrite (node_count_is_length self node_tups Htups Hord Hfew).
    unfold face_count. rewrite Hfi. cbn [mbind result_bind].
    destruct (Z.ltb_spec (Z.of_nat (length node_tups)) 0) as [?|_]; [lia|].
    rewrite !Nat2Z.id. fold w.
    destruct (assign_faces_loop face_mass_matrix w (length node_tups)
                (length fi * w) fi 0
                (zeros (length node_tups) (length fi * w)))
      as (res & Hrun & Hshape & Hset & Hkeep).
    { apply zeros_shape. }
    { exact Hrect. }
    { simpl. lia. }
    { apply Forall_forall. intros face Hface.
      rewrite Forall_forall in Hnodup, Hrange.
      split; [apply Hnodup, Hface|]. split; [apply Hrange, Hface|].
      apply list_elem_of_lookup in Hface as [f Hface].
      rewrite (face_length self node_tups fi f face Htups Hfi Hface).
      rewrite <- (face_length self node_tups fi 0%nat f0 Htups Hfi Hf0).
      unfold nrows in *. lia. }
    exists res. split; [exact Hrun|]. split; [exact Hshape|]. split.
    + intros i face k idx src Hi Hk Hs j Hj.
      apply (Hset i face k idx src Hi Hk Hs j Hj).
    + intros r i face j Hr Hi Hout Hj.
      rewrite Hkeep.
      * apply zeros_entry; [exact Hr|].
        apply lookup_lt_Some in Hi. nia.
      * intros i' face' Hi' Hin. simpl.
        destruct (decide (i' = i)) as [->|Hne]; [|nia].
        rewrite Hi in Hi'. injection Hi' as <-. contradiction.
Qed.

Lemma assemble_multi_face_mass_matrix_blocks_witness :
  assemble_multi_face_mass_matrix (F:=Q) (triangle_of_order 1) [[1]]%Q
  = Raise AssertionError
  /\ exists res,
       assemble_multi_face_mass_matrix (F:=Q) (triangle_of_order 1)
         [[1; 2]; [3; 4]]%Q
       = Ok res
       /\ has_shape res 3 6.
Proof.
  split.
  - destruct (assemble_multi_face_mass_matrix_blocks (F:=Q)
                (triangle_of_order 1) [[0; 0]; [1; 0]; [0; 1]] [[1]]%Q)
      as (fi & fnc & Hfi & Hfnc & Hraise & _).
    + reflexivity.
    + vm_compute; discriminate.
    + vm_compute; reflexivity.
    + repeat constructor.
    + apply Hraise. vm_compute in Hfnc. injection Hfnc as <-. discriminate.
  - destruct (assemble_multi_face_mass_matrix_blocks (F:=Q)
                (triangle_of_order 1) [[0; 0]; [1; 0]; [0; 1]]
                [[1; 2]; [3; 4]]%Q)
      as (fi & fnc & Hfi & Hfnc & _ & Hok).
    + reflexivity.
    + vm_compute; discriminate.
    + vm_compute; reflexivity.
    + repeat constructor.
    + destruct Hok as (res & Hres & Hshape & _).
      * vm_compute in Hfnc. injection Hfnc as <-. reflexivity.
      * exists res. split; [exact Hres|].
        vm_compute in Hfi. injection Hfi as <-. exact Hshape.
Defined.
